(** * skillz: the pi extensions, embedded and verified

    A shallow embedding of the tool extensions under [pi/extensions/]
    ([recorder.ts], [jina.ts], [kagi-search.ts], [github-search.ts],
    [ast-grep.ts]) together with the properties the specification states
    about them.

    Conventions of the embedding:
    - a JS string is a [string]; one character stands for one UTF-16 code
      unit, so [String.length] is the JS [.length];
    - [Date.now()] and everything else the host or the operating system
      decides (HTTP responses, subprocess exits, module loading) is an
      explicit argument of the function that consumes it;
    - an [async] function that can reject returns an [outcome]. *)

From Stdlib Require Import ZArith String Ascii List Lia.
From stdpp Require Import gmap strings list.

Local Open Scope string_scope.
Local Open Scope list_scope.
Local Open Scope Z_scope.

(** ** JavaScript values shared by the extensions *)

(** The line feed of the template literals and string escapes. *)
Definition LF : string := String (ascii_of_nat 10) EmptyString.

(** [a ?? b] *)
Definition nullish {A} (a : option A) (b : A) : A :=
  match a with Some x => x | None => b end.

(** [a?.f] where the field itself may be missing. *)
Definition chain {A B} (a : option A) (f : A -> option B) : option B :=
  match a with Some x => f x | None => None end.

(** Truthiness of an optional string: [undefined] and [""] are falsy. *)
Definition truthy_str (s : option string) : bool :=
  match s with
  | Some EmptyString | None => false
  | Some _ => true
  end.

(** Truthiness of an optional number: [null], [undefined] and [0] are falsy. *)
Definition truthy_num (n : option Z) : bool :=
  match n with
  | Some 0 | None => false
  | Some _ => true
  end.

(** [String(n)] for an integer-valued number. *)
Definition digit_char (d : nat) : ascii := ascii_of_nat (48 + d).

Fixpoint nat_digits (fuel n : nat) (acc : string) : string :=
  match fuel with
  | O => acc
  | S fuel' =>
      let acc' := String (digit_char (n mod 10)) acc in
      if (n <? 10)%nat then acc' else nat_digits fuel' (n / 10) acc'
  end.

Definition String_nat (n : nat) : string := nat_digits (S n) n "".

Definition String_Z (z : Z) : string :=
  if z <? 0 then "-" +:+ String_nat (Z.to_nat (- z)) else String_nat (Z.to_nat z).

(** A settled promise: [Returned] for resolution, [Thrown] for rejection
    with the error value (only its message is ever inspected). *)
Inductive outcome (A : Type) : Type :=
| Returned (a : A)
| Thrown (message : string).
Arguments Returned {A} a.
Arguments Thrown {A} message.

Definition bind_outcome {A B} (m : outcome A) (k : A -> outcome B) : outcome B :=
  match m with
  | Returned a => k a
  | Thrown e => Thrown e
  end.

(** [try { body } catch (e) { handler(msg) }] where the handler is total. *)
Definition try_catch {A} (body : outcome A) (handler : string -> A) : outcome A :=
  match body with
  | Returned a => Returned a
  | Thrown e => Returned (handler e)
  end.

#[global] Instance outcome_bind : MBind outcome := fun A B k m => bind_outcome m k.
#[global] Instance outcome_ret : MRet outcome := fun A a => Returned a.

(** What a tool's [execute] hands back to the host:
    [{ content: [{ type: "text", text }], isError? }]. *)
Record ToolResult := {
  text : string;
  isError : bool
}.

Definition ok_result (t : string) : ToolResult := {| text := t; isError := false |}.
Definition error_result (t : string) : ToolResult := {| text := t; isError := true |}.

(** [s.includes(sub)] *)
Definition includes (s sub : string) : bool :=
  match String.index 0 sub s with
  | Some _ => true
  | None => false
  end.

(** [s || fallback] for strings. *)
Definition or_else (s fallback : string) : string :=
  match s with
  | EmptyString => fallback
  | _ => s
  end.

(** ** HTTP and subprocesses, as the extensions see them *)

Record Request := {
  req_method : string;
  req_url : string;
  req_headers : list (string * string);
  req_redirect_manual : bool
}.

(** A response of [fetch]: [set_cookie] is [headers.getSetCookie()],
    [location] is [headers.get("location")], [body] is what
    [response.text()] settles to. *)
Record Response := {
  status : Z;
  statusText : string;
  set_cookie : list string;
  location : option string;
  body : outcome string
}.

(** [response.ok], which the Fetch standard defines as a status in the
    range 200 to 299. *)
Definition ok (r : Response) : bool := (200 <=? status r) && (status r <=? 299).

(** A command line handed to [spawn] or [execSync]. *)
Record Command := {
  program : string;
  argv : list string
}.

(** How a spawned child ends: the ['error'] event (the program could not
    be started) or the ['close'] event with the exit code ([null] when a
    signal ended it) and everything written to stdout and stderr. *)
Inductive ProcessResult :=
| spawn_failed (message : string) (code_ENOENT : bool)
| closed (code : option Z) (stdout stderr : string).

(** [`${code}`] *)
Definition String_code (code : option Z) : string :=
  match code with
  | Some c => String_Z c
  | None => "null"
  end.

(** A JSON value, as [JSON.parse] returns it. *)
#[warnings="-register-all"]
Inductive Json :=
| json_null
| json_bool (b : bool)
| json_number (n : Z)
| json_string (s : string)
| json_array (items : list Json)
| json_object (fields : list (string * Json)).

(** What [JSON.parse(stdout) as T[]] hands on. The cast checks nothing:
    the value is an array of values of the shape [T], or it is any
    other JSON value, passed on under the type of such an array. *)
Inductive Parsed (T : Type) :=
| array_of (results : list T)
| miscast (value : Json).

Arguments array_of {T} results.
Arguments miscast {T} value.

(** ** fetch_url ([jina.ts]) *)

Module Jina.

Definition jinaUrl (url : string) : string := "https://r.jina.ai/" +:+ url.

Definition fetch_request (url : string) : Request :=
  {| req_method := "GET"; req_url := jinaUrl url;
     req_headers := [("Accept", "text/markdown")]; req_redirect_manual := false |}.

(** [execute]: [fetch] is the network (and the abort signal threaded into
    it): it rejects, or resolves with a response. There is no [try]
    around either [await]. *)
Definition execute (url : string) (fetch : Request → outcome Response)
    : outcome ToolResult :=
  response ← fetch (fetch_request url);
  if negb (ok response)
  then Returned (error_result ("Failed to fetch: " +:+ String_Z (status response)
                               +:+ " " +:+ statusText response))
  else
    text ← body response;
    Returned (ok_result text).

End Jina.

(** ** github_search_code ([github-search.ts]) *)

Module GithubSearch.

Record TextMatch := { fragment : string }.

Record CodeSearchResult := {
  path : string;
  repository_fullName : string;
  url : string;
  textMatches : list TextMatch
}.

Record Params := {
  query : string;
  language : option string;
  owner : option string;
  repo : option string;
  extension : option string;
  filename : option string;
  limit : option Z
}.

(** [if (params.x) args.push(flag, params.x)] *)
Definition push_filter (flag : string) (value : option string) : list string :=
  if truthy_str value then [flag; nullish value ""] else [].

(** [Math.min(params.limit ?? 10, 100)] *)
Definition effective_limit (params : Params) : Z := Z.min (nullish (limit params) 10) 100.

(** The [args] array [execute] builds. *)
Definition build_args (params : Params) : list string :=
  [query params]
    ++ push_filter "--language" (language params)
    ++ push_filter "--owner" (owner params)
    ++ push_filter "--repo" (repo params)
    ++ push_filter "--extension" (extension params)
    ++ push_filter "--filename" (filename params)
    ++ ["--limit"; String_Z (effective_limit params)].

(** The command [runGhSearch] spawns. *)
Definition gh_command (args : list string) : Command :=
  {| program := "gh";
     argv := ["search"; "code"] ++ args ++ ["--json"; "path,repository,sha,url,textMatches"] |}.

Section Execute.

(** [JSON.parse] of the output ([None] when it throws), the JS string
    built-in [trim], and [formatResults] as JavaScript runs it on a
    value that is no array of results: it returns a text, or a property
    read from [null] or [undefined] throws. *)
Context (JSON_parse : string → option (Parsed CodeSearchResult)) (trim : string → string)
        (formatResults_miscast : Json → outcome string).

(** [runGhSearch]: the command it spawned and how its promise settles. *)
Definition runGhSearch (args : list string) (os : Command → ProcessResult)
    : Command * outcome (Parsed CodeSearchResult) :=
  let command := gh_command args in
  (command,
   match os command with
   | spawn_failed message _ => Thrown message
   | closed code stdout stderr =>
       if bool_decide (code = Some 0) then
         match JSON_parse stdout with
         | Some results => Returned results
         | None => Thrown ("Failed to parse gh output: " +:+ stdout)
         end
       else Thrown (or_else stderr ("gh exited with code " +:+ String_code code))
   end).

(** [fragment.split("\n").map(trim).filter(nonempty).join("\n")] *)
Definition clean_fragment (lines : string → list string) (m : TextMatch) : string :=
  String.concat LF
    (List.filter (fun line => negb (String.eqb line "")) (trim <$> lines (fragment m))).

Definition format_result (lines : string → list string) (i : nat) (r : CodeSearchResult)
    : string :=
  "### " +:+ String_nat (i + 1) +:+ ". " +:+ repository_fullName r +:+ "/" +:+ path r +:+ LF
  +:+ "**URL:** " +:+ url r +:+ LF
  +:+ (match textMatches r with
       | [] => ""
       | ms => "**Matches:**" +:+ LF
               +:+ String.concat ""
                     ((fun m => let f := clean_fragment lines m in
                                if String.eqb f "" then ""
                                else "```" +:+ LF +:+ f +:+ LF +:+ "```" +:+ LF) <$> ms)
       end)
  +:+ LF.

(** [formatResults] on an array of results; [lines] is [s.split("\n")]. *)
Definition formatResults (lines : string → list string) (results : list CodeSearchResult)
    : string :=
  match results with
  | [] => "No results found."
  | _ =>
      trim ("Found " +:+ String_nat (length results) +:+ " result(s):" +:+ LF +:+ LF
            +:+ String.concat "" (imap (format_result lines) results))
  end.

(** The [catch] block of [execute]. *)
Definition on_error (msg : string) : ToolResult :=
  if includes msg "gh: command not found" || includes msg "ENOENT"
  then error_result
         "GitHub CLI (gh) is not installed or not in PATH. Install it from https://cli.github.com/"
  else if includes msg "not logged in" || includes msg "auth login"
  then error_result "Not authenticated with GitHub. Run `gh auth login` to authenticate."
  else error_result ("GitHub search failed: " +:+ msg).

(** [formatResults(results)] on what [runGhSearch] resolved with. *)
Definition format_parsed (lines : string → list string) (results : Parsed CodeSearchResult)
    : outcome string :=
  match results with
  | array_of results => Returned (formatResults lines results)
  | miscast value => formatResults_miscast value
  end.

(** [execute]: the commands it spawned and what it returns. *)
Definition execute (lines : string → list string) (params : Params)
    (os : Command → ProcessResult) : list Command * outcome ToolResult :=
  let (command, searched) := runGhSearch (build_args params) os in
  ([command],
   try_catch (results ← searched;
              output ← format_parsed lines results;
              Returned (ok_result output))
     on_error).

End Execute.

End GithubSearch.

(** ** ast_grep ([ast-grep.ts]) *)

Module AstGrep.

Record Params := {
  pattern : string;
  lang : option string;
  paths : option (list string);
  globs : option (list string);
  context : option bool;
  limit : option Z
}.

(** The [args] array [execute] builds. *)
Definition build_args (params : Params) : list string :=
  ["run"; "--pattern"; pattern params; "--json=compact"]
    ++ (if truthy_str (lang params) then ["--lang"; nullish (lang params) ""] else [])
    ++ (match globs params with
        | Some gs => gs ≫= (fun glob => ["--globs"; glob])
        | None => []
        end)
    ++ (if nullish (context params) false then ["--context"; "2"] else [])
    ++ (match paths params with
        | Some (p :: ps) => p :: ps
        | _ => ["."]
        end).

Section Execute.

(** The matches are only counted, cut and formatted: their type, the
    JSON parser ([None] when it throws) and [formatResults] stay
    abstract, and so does what the limit and [formatResults] make of a
    value that is no array of matches, given the limit and the context
    flag: a text, or a property read from [null] or [undefined] throws. *)
Context {AstGrepMatch : Type}
        (JSON_parse : string → option (Parsed AstGrepMatch))
        (trim : string → string)
        (formatResults : list AstGrepMatch → bool → string)
        (limit_and_format_miscast : Json → Z → bool → outcome string).

(** [runAstGrep]: exit codes 0 (matches) and 1 (no match) are accepted. *)
Definition runAstGrep (args : list string) (os : Command → ProcessResult)
    : outcome (Parsed AstGrepMatch) :=
  match os {| program := "ast-grep"; argv := args |} with
  | spawn_failed message code_ENOENT =>
      if code_ENOENT
      then Thrown "ast-grep not found. Install from https://ast-grep.github.io"
      else Thrown message
  | closed code stdout stderr =>
      if bool_decide (code = Some 0) || bool_decide (code = Some 1) then
        if String.eqb (trim stdout) "" then Returned (array_of [])
        else match JSON_parse stdout with
             | Some results => Returned results
             | None => Thrown ("Failed to parse ast-grep output: " +:+ stdout)
             end
      else Thrown (or_else stderr ("ast-grep exited with code " +:+ String_code code))
  end.

(** [matches.length > limit ? matches.slice(0, limit) : matches] *)
Definition apply_limit (limit : Z) (matches : list AstGrepMatch) : list AstGrepMatch :=
  if limit <? Z.of_nat (length matches)
  then take (Z.to_nat (if limit <? 0 then Z.of_nat (length matches) + limit else limit))
            matches
  else matches.

(** The limit and [formatResults] on what [runAstGrep] resolved with. *)
Definition limit_and_format (limit : Z) (showContext : bool) (matches : Parsed AstGrepMatch)
    : outcome string :=
  match matches with
  | array_of matches => Returned (formatResults (apply_limit limit matches) showContext)
  | miscast value => limit_and_format_miscast value limit showContext
  end.

Definition execute (params : Params) (os : Command → ProcessResult) : outcome ToolResult :=
  try_catch
    (matches ← runAstGrep (build_args params) os;
     output ← limit_and_format (nullish (limit params) 50) (nullish (context params) false)
                matches;
     Returned (ok_result output))
    (fun msg => error_result ("ast-grep search failed: " +:+ msg)).

End Execute.

End AstGrep.


(** ** pexpect_start, pexpect_exec, pexpect_stop, pexpect_list ([jina.ts]) *)

Module Pexpect.

Record Session := {
  id : string;
  status : string;
  name : option string
}.

(** What [execSync] does with a shell command: returns its stdout, or
    throws an error that has a message and, when the command ran and
    failed, its stderr. *)
Inductive ExecSyncResult :=
| exec_returned (stdout : string)
| exec_threw (message : string) (stderr : option string).

(** *** One execution in a session: the promise of [execInSession] *)

Inductive ChildStatus :=
| Running
| Exited (code : option Z)
| Signalled (signal : string).

(** What the child does on its own, in the order and at the times
    (milliseconds after the spawn) it does it: it writes chunks and then
    ends, by closing with an exit code or by failing with an error. *)
Inductive ChildEvent :=
| writes_stdout (chunk : string)
| writes_stderr (chunk : string)
| closes (code : option Z)
| fails (message : string).

(** What SIGTERM does to the child: it ends it, unless the child has
    installed a handler for the signal or ignores it. *)
Inductive Disposition :=
| terminates
| handled.

(** The variables the callbacks of [execInSession] close over, the state
    of the promise and of the child. *)
Record Exec := {
  stdout : string;
  stderr : string;
  timeoutId : option Z;               (* the armed timer's deadline *)
  settled : option (outcome string);  (* a promise settles once *)
  child : ChildStatus;
  signals : list string;              (* sent with [child.kill] *)
  stdin : option string               (* what was written before [end()] *)
}.

Definition settle (r : outcome string) (x : Exec) : Exec :=
  {| stdout := stdout x; stderr := stderr x; timeoutId := timeoutId x;
     settled := match settled x with Some s => Some s | None => Some r end;
     child := child x; signals := signals x; stdin := stdin x |}.

Definition clearTimeout (x : Exec) : Exec :=
  {| stdout := stdout x; stderr := stderr x; timeoutId := None;
     settled := settled x; child := child x; signals := signals x; stdin := stdin x |}.

Definition with_child (s : ChildStatus) (x : Exec) : Exec :=
  {| stdout := stdout x; stderr := stderr x; timeoutId := timeoutId x;
     settled := settled x; child := s; signals := signals x; stdin := stdin x |}.

(** [child.kill(signal)] sends the signal, and does no more. *)
Definition kill (signal : string) (x : Exec) : Exec :=
  {| stdout := stdout x; stderr := stderr x; timeoutId := timeoutId x;
     settled := settled x; child := child x; signals := signals x ++ [signal];
     stdin := stdin x |}.

(** The delay [setTimeout] really uses: Node replaces one below 1 or
    above 2147483647 by 1. *)
Definition setTimeout_delay (timeout : Z) : Z :=
  if (timeout <? 1) || (2147483647 <? timeout) then 1 else timeout.

(** The body of the promise executor, up to [child.stdin.end()]: the
    timer is armed only [if (timeout)]. *)
Definition spawned (code : string) (timeout : option Z) : Exec :=
  {| stdout := ""; stderr := "";
     timeoutId := if truthy_num timeout
                  then Some (setTimeout_delay (nullish timeout 0)) else None;
     settled := None; child := Running; signals := []; stdin := Some code |}.

(** The timer callback, after which the timer is no longer pending:
    [child.kill("SIGTERM")] and the timeout error. *)
Definition on_timeout (timeout : Z) (x : Exec) : Exec :=
  settle (Thrown ("Execution timed out after " +:+ String_Z timeout +:+ "ms"))
    (kill "SIGTERM"
       {| stdout := stdout x; stderr := stderr x; timeoutId := None;
          settled := settled x; child := child x; signals := signals x;
          stdin := stdin x |}).

(** [child.on("close", ...)] *)
Definition on_close (code : option Z) (x : Exec) : Exec :=
  let x := clearTimeout x in
  if negb (bool_decide (code = Some 0)) && negb (String.eqb (stderr x) "")
  then settle (Thrown (stderr x)) x
  else settle (Returned (stdout x)) x.

(** [child.on("error", ...)] *)
Definition on_error (message : string) (x : Exec) : Exec :=
  settle (Thrown message) (clearTimeout x).

Definition on_child_event (ev : ChildEvent) (x : Exec) : Exec :=
  match ev with
  | writes_stdout chunk =>
      {| stdout := stdout x +:+ chunk; stderr := stderr x; timeoutId := timeoutId x;
         settled := settled x; child := child x; signals := signals x; stdin := stdin x |}
  | writes_stderr chunk =>
      {| stdout := stdout x; stderr := stderr x +:+ chunk; timeoutId := timeoutId x;
         settled := settled x; child := child x; signals := signals x; stdin := stdin x |}
  | closes code => on_close code (with_child (Exited code) x)
  | fails message => on_error message x
  end.

(** The child's events delivered in order to the callbacks, no timer
    pending. *)
Definition deliver (timeline : list (Z * ChildEvent)) (x : Exec) : Exec :=
  fold_left (fun x ev => on_child_event ev.2 x) timeline x.

(** The child once the signal has reached it: ended by it, it emits
    ['close'] with a null code and does nothing more; with the signal
    handled, it goes on with what it had left to do. *)
Definition signalled (sigterm : Disposition) (rest : list (Z * ChildEvent)) (x : Exec)
    : Exec :=
  match sigterm with
  | terminates => on_close None (with_child (Signalled "SIGTERM") x)
  | handled => deliver rest x
  end.

(** The event loop: the child's events are delivered in order, and the
    timer callback runs before the first of them that comes after its
    deadline. *)
Fixpoint event_loop (timeout : Z) (sigterm : Disposition)
    (timeline : list (Z * ChildEvent)) (x : Exec) : Exec :=
  match timeline with
  | [] =>
      match timeoutId x with
      | Some _ => signalled sigterm [] (on_timeout timeout x)
      | None => x
      end
  | (at_ms, ev) :: later =>
      match timeoutId x with
      | Some deadline =>
          if deadline <? at_ms
          then signalled sigterm timeline (on_timeout timeout x)
          else event_loop timeout sigterm later (on_child_event ev x)
      | None => event_loop timeout sigterm later (on_child_event ev x)
      end
  end.

(** [execInSession]: how the promise settles (if it does), the signals
    sent to the child and the child it leaves behind. *)
Definition execInSession (code : string) (timeout : option Z) (sigterm : Disposition)
    (timeline : list (Z * ChildEvent)) : Exec :=
  event_loop (nullish timeout 0) sigterm timeline (spawned code timeout).

(** The time the child takes to complete: that of its [closes] or
    [fails] event. *)
Fixpoint completes_at (timeline : list (Z * ChildEvent)) : option Z :=
  match timeline with
  | [] => None
  | (at_ms, closes _) :: _ | (at_ms, fails _) :: _ => Some at_ms
  | _ :: later => completes_at later
  end.

(** The child takes longer than [ms] to complete (or never does). *)
Definition outlasts (timeline : list (Z * ChildEvent)) (ms : Z) : Prop :=
  match completes_at timeline with
  | Some at_ms => ms < at_ms
  | None => True
  end.

Section Tools.

(** [trim], [split("\n")] and the regular expression of
    [parseSessionList] applied to one line. *)
Context (trim : string → string) (lines : string → list string)
        (match_session_line : string → option Session).

Definition parseSessionList (output : string) : list Session :=
  omap (fun line => if String.eqb (trim line) "" then None else match_session_line line)
       (lines (trim output)).

Definition ensurePueueRunning (execSync : string → ExecSyncResult) : outcome unit :=
  match execSync "pueue status" with
  | exec_returned _ => Returned tt
  | exec_threw _ _ => Thrown "pueue daemon is not running. Start it with: pueued -d"
  end.

Definition runPexpectCli (args : list string) (execSync : string → ExecSyncResult)
    : outcome string :=
  match execSync ("pexpect-cli " +:+ String.concat " " args) with
  | exec_returned out => Returned (trim out)
  | exec_threw message (Some err) => Thrown (or_else err message)
  | exec_threw message None => Thrown message
  end.

Definition find_session (session_id : string) (sessions : list Session) : option Session :=
  List.find (fun s => String.eqb (id s) session_id) sessions.

Definition pexpect_start (name : option string) (execSync : string → ExecSyncResult)
    : outcome ToolResult :=
  try_catch
    (_ ← ensurePueueRunning execSync;
     sessionId ← runPexpectCli (["--start"] ++ (if truthy_str name
                                                then ["--name"; nullish name ""] else []))
                   execSync;
     Returned (ok_result
                 (if truthy_str name
                  then "Started session `" +:+ sessionId +:+ "` (" +:+ nullish name "" +:+ ")"
                  else "Started session `" +:+ sessionId +:+ "`")))
    (fun msg => error_result ("Failed to start session: " +:+ msg)).

(** The check that opens [pexpect_exec] and [pexpect_stop]: the daemon
    runs and the session is looked up in the list. *)
Definition lookup_session (session_id : string) (execSync : string → ExecSyncResult)
    : outcome (option Session) :=
  _ ← ensurePueueRunning execSync;
  listOutput ← runPexpectCli ["--list"] execSync;
  Returned (find_session session_id (parseSessionList listOutput)).

(** [pexpect_exec]: the result ([None] while the promise of
    [execInSession] never settles), and the child when one was spawned. *)
Definition pexpect_exec (session_id code : string) (timeout : option Z)
    (execSync : string → ExecSyncResult) (sigterm : Disposition)
    (timeline : list (Z * ChildEvent))
    : option (outcome ToolResult) * option ChildStatus :=
  match lookup_session session_id execSync with
  | Thrown msg => (Some (Returned (error_result ("Execution failed: " +:+ msg))), None)
  | Returned None =>
      (Some (Returned (error_result
                         ("Session `" +:+ session_id
                          +:+ "` not found. Use pexpect_list to see active sessions."))),
       None)
  | Returned (Some _) =>
      let x := execInSession code timeout sigterm timeline in
      (match settled x with
       | Some (Returned out) => Some (Returned (ok_result (or_else (trim out) "(no output)")))
       | Some (Thrown msg) => Some (Returned (error_result ("Execution failed: " +:+ msg)))
       | None => None
       end,
       Some (child x))
  end.

Definition pexpect_stop (session_id : string) (execSync : string → ExecSyncResult)
    : outcome ToolResult :=
  try_catch
    (found ← lookup_session session_id execSync;
     match found with
     | None => Returned (ok_result ("Session `" +:+ session_id
                                    +:+ "` not found or already stopped."))
     | Some session =>
         _ ← runPexpectCli ["--stop"; session_id] execSync;
         Returned (ok_result
                     (if truthy_str (name session)
                      then "Stopped session `" +:+ session_id +:+ "` ("
                           +:+ nullish (name session) "" +:+ ")"
                      else "Stopped session `" +:+ session_id +:+ "`"))
     end)
    (fun msg => error_result ("Failed to stop session: " +:+ msg)).

Definition pexpect_list (execSync : string → ExecSyncResult) : outcome ToolResult :=
  try_catch
    (_ ← ensurePueueRunning execSync;
     listOutput ← runPexpectCli ["--list"] execSync;
     match parseSessionList listOutput with
     | [] => Returned (ok_result "No active pexpect sessions. Use pexpect_start to create one.")
     | sessions =>
         Returned (ok_result
           (trim ("Active pexpect sessions:" +:+ LF +:+ LF
                  +:+ String.concat ""
                        ((fun s => if truthy_str (name s)
                                   then "- `" +:+ id s +:+ "`: " +:+ status s +:+ " ("
                                        +:+ nullish (name s) "" +:+ ")" +:+ LF
                                   else "- `" +:+ id s +:+ "`: " +:+ status s +:+ LF)
                           <$> sessions))))
     end)
    (fun msg => error_result ("Failed to list sessions: " +:+ msg)).

End Tools.

(** *** The event loop of [execInSession], in words of its timeline *)

(** What the child has written to stdout, and to stderr, in the events
    of a timeline. *)
Definition stdout_of (events : list (Z * ChildEvent)) : string :=
  String.concat "" (omap (fun e => match e.2 with
                                   | writes_stdout chunk => Some chunk
                                   | _ => None
                                   end) events).

Definition stderr_of (events : list (Z * ChildEvent)) : string :=
  String.concat "" (omap (fun e => match e.2 with
                                   | writes_stderr chunk => Some chunk
                                   | _ => None
                                   end) events).

Definition is_write (ev : ChildEvent) : Prop :=
  match ev with
  | writes_stdout _ | writes_stderr _ => True
  | closes _ | fails _ => False
  end.

(** The deadline of the timer [execInSession] arms, if it arms one. *)
Definition deadline (timeout : option Z) : option Z :=
  if truthy_num timeout then Some (setTimeout_delay (nullish timeout 0)) else None.

(** The events come no later than the deadline, if there is one. *)
Definition in_time (timeout : option Z) (events : list (Z * ChildEvent)) : Prop :=
  ∀ D, deadline timeout = Some D → Forall (fun e => e.1 <= D) events.

(** How the ['close'] handler settles the promise. *)
Definition settled_by_exit (code : option Z) (out err : string) : outcome string :=
  if negb (bool_decide (code = Some 0)) && negb (String.eqb err "")
  then Thrown err else Returned out.

End Pexpect.


(** ** Regular expressions of the shape the scraper uses

    A pattern is a sequence of literals and of starred character
    classes, greedy ([*]) or lazy ([*?]), at most one of them captured.
    Matching backtracks in the order JavaScript does: a greedy star
    tries the longest run first, a lazy one the shortest. *)

Module Regex.

Inductive atom :=
| lit (s : string)
| star (greedy : bool) (class : ascii → bool)
| capture (greedy : bool) (class : ascii → bool).

Fixpoint strip_prefix (p s : string) : option string :=
  match p, s with
  | EmptyString, _ => Some s
  | String a p', String b s' => if Ascii.eqb a b then strip_prefix p' s' else None
  | String _ _, EmptyString => None
  end.

Fixpoint star_match {R} (greedy : bool) (class : ascii → bool)
    (k : string → string → option R) (taken s : string) : option R :=
  match s with
  | String c s' =>
      if class c then
        if greedy then
          match star_match greedy class k (taken +:+ String c "") s' with
          | Some r => Some r
          | None => k taken s
          end
        else
          match k taken s with
          | Some r => Some r
          | None => star_match greedy class k (taken +:+ String c "") s'
          end
      else k taken s
  | EmptyString => k taken s
  end.

(** A match anchored at the start of [s]: the captured text (if the
    pattern captures) and what follows the match. *)
Fixpoint match_here (atoms : list atom) (s : string) : option (option string * string) :=
  match atoms with
  | [] => Some (None, s)
  | lit l :: rest =>
      match strip_prefix l s with
      | Some s' => match_here rest s'
      | None => None
      end
  | star greedy class :: rest =>
      star_match greedy class (fun _ s' => match_here rest s') "" s
  | capture greedy class :: rest =>
      star_match greedy class
        (fun taken s' => match match_here rest s' with
                         | Some (_, after) => Some (Some taken, after)
                         | None => None
                         end) "" s
  end.

(** [pattern.exec(s)]: the leftmost match. *)
Fixpoint exec (atoms : list atom) (s : string) : option (option string * string) :=
  match match_here atoms s with
  | Some r => Some r
  | None =>
      match s with
      | String _ s' => exec atoms s'
      | EmptyString => None
      end
  end.

(** The first capture group of every successive match of a global
    pattern, each search resuming where the last match ended. *)
Fixpoint exec_all (fuel : nat) (atoms : list atom) (s : string) : list string :=
  match fuel with
  | O => []
  | S fuel' =>
      match exec atoms s with
      | Some (captured, after) => nullish captured "" :: exec_all fuel' atoms after
      | None => []
      end
  end.

(** [s.replace(pattern, "")] for a global pattern. *)
Fixpoint remove_all (fuel : nat) (atoms : list atom) (s : string) : string :=
  match fuel with
  | O => s
  | S fuel' =>
      match match_here atoms s with
      | Some (_, after) => remove_all fuel' atoms after
      | None =>
          match s with
          | String c s' => String c (remove_all fuel' atoms s')
          | EmptyString => EmptyString
          end
      end
  end.

Definition any (c : ascii) : bool := true.
Definition except (x : ascii) (c : ascii) : bool := negb (Ascii.eqb c x).

(** [\s], on the characters the embedding has. *)
Definition space (c : ascii) : bool :=
  let n := nat_of_ascii c in
  ((9 <=? n) && (n <=? 13) || (n =? 32) || (n =? 160))%nat.

Fixpoint trim_start (s : string) : string :=
  match s with
  | String c s' => if space c then trim_start s' else s
  | EmptyString => EmptyString
  end.

(** [s.trim()] *)
Definition trim (s : string) : string :=
  String.rev (trim_start (String.rev (trim_start s))).

(** [s.split(sep)] for a one-character separator. *)
Fixpoint split (sep : ascii) (s : string) : list string :=
  match s with
  | EmptyString => [""]
  | String c s' =>
      match split sep s' with
      | first :: others =>
          if Ascii.eqb c sep then "" :: first :: others else String c first :: others
      | [] => [String c ""]
      end
  end.

(** [s.split(sep)] for a separator of one character or more: [skip]
    counts the characters of a matched separator still to pass over,
    [piece] is the piece being read. *)
Fixpoint split_on_from (sep : string) (skip : nat) (piece s : string) : list string :=
  match s with
  | EmptyString => [piece]
  | String c s' =>
      match skip with
      | S k => split_on_from sep k piece s'
      | O =>
          match strip_prefix sep s with
          | Some _ => piece :: split_on_from sep (String.length sep - 1) "" s'
          | None => split_on_from sep 0 (piece +:+ String c "") s'
          end
      end
  end.

Definition split_on (sep s : string) : list string := split_on_from sep 0 "" s.

(** The part of [s] before the first [sep], all of [s] when there is
    none. *)
Fixpoint upto (sep : ascii) (s : string) : string :=
  match s with
  | EmptyString => EmptyString
  | String c s' => if Ascii.eqb c sep then EmptyString else String c (upto sep s')
  end.

(** What follows the first [>] of [s], if there is one. *)
Fixpoint after_gt (s : string) : option string :=
  match s with
  | EmptyString => None
  | String c s' => if Ascii.eqb c ">" then Some s' else after_gt s'
  end.

End Regex.

(** ** The session list of [pexpect-cli --list] ([jina.ts]) *)

Module SessionList.

Import Regex.

(** [[a-f0-9]] under the [i] flag, and [\w]. *)
Definition hex (c : ascii) : bool :=
  let n := nat_of_ascii c in
  ((48 <=? n) && (n <=? 57) || (97 <=? n) && (n <=? 102) || (65 <=? n) && (n <=? 70))%nat.

Definition word (c : ascii) : bool :=
  let n := nat_of_ascii c in
  ((48 <=? n) && (n <=? 57) || (97 <=? n) && (n <=? 122) || (65 <=? n) && (n <=? 90)
   || (n =? 95))%nat.

(** The optional group at the end of the pattern: its capture when it
    matches. *)
Definition optional_name (s : string) : option string :=
  star_match true space
    (fun _ s1 =>
       match strip_prefix "(" s1 with
       | None => None
       | Some s2 =>
           star_match true (except ")")
             (fun name s3 =>
                if String.eqb name "" then None
                else match strip_prefix ")" s3 with
                     | Some _ => Some name
                     | None => None
                     end) "" s2
       end) "" s.

(** [line.match(/^([a-f0-9]+):\s*(\w+)(?:\s*\(([^)]+)\))?/i)] and the
    session built from its groups: every quantifier is greedy and gives
    back what it took when what follows does not match. *)
Definition match_session_line (line : string) : option Pexpect.Session :=
  star_match true hex
    (fun id s1 =>
       if String.eqb id "" then None
       else match strip_prefix ":" s1 with
            | None => None
            | Some s2 =>
                star_match true space
                  (fun _ s3 =>
                     star_match true word
                       (fun status s4 =>
                          if String.eqb status "" then None
                          else Some {| Pexpect.id := id; Pexpect.status := status;
                                       Pexpect.name := optional_name s4 |}) "" s3) "" s2
            end) "" line.

(** [parseSessionList] with the built-ins of the source. *)
Definition parseSessionList (output : string) : list Pexpect.Session :=
  Pexpect.parseSessionList trim (split (ascii_of_nat 10)) match_session_line output.

(** A line of [pexpect-cli --list], in the format the parser is written
    for: [session_id: status (optional_name)] or [session_id: status]. *)
Definition session_line (s : Pexpect.Session) : string :=
  Pexpect.id s +:+ ": " +:+ Pexpect.status s
  +:+ match Pexpect.name s with
      | Some n => " (" +:+ n +:+ ")"
      | None => ""
      end.

(** All characters of [s] are in [class]. *)
Definition all_in (class : ascii → bool) (s : string) : Prop :=
  Forall (fun c => class c = true) (list_ascii_of_string s).

(** A session as the tool can list it: a hexadecimal identifier, a
    status word, and a name (if any) without a closing parenthesis or a
    line feed; none of them empty. *)
Definition listable (s : Pexpect.Session) : Prop :=
  Pexpect.id s ≠ "" ∧ all_in hex (Pexpect.id s)
  ∧ Pexpect.status s ≠ "" ∧ all_in word (Pexpect.status s)
  ∧ match Pexpect.name s with
    | Some n => n ≠ "" ∧ all_in (fun c => except ")" c && except (ascii_of_nat 10) c) n
    | None => True
    end.

(** [s] starts with a character that is not white space. *)
Definition edge_ok (s : string) : bool :=
  match s with
  | String c _ => negb (space c)
  | EmptyString => false
  end.

End SessionList.

(** ** formatResults of [ast-grep.ts] *)

Module AstGrepFormat.

(** [AstGrepMatch], the fields [formatResults] reads; [metaVariables]
    as [Object.entries] lists it, each variable with its [text]. *)
Record AstGrepMatch := {
  file : string;
  start_line : Z;
  start_column : Z;
  lines : string;
  text : string;
  metaVariables : option (list (string * string))
}.

(** One round of the grouping loop on the [Map]: the match goes to the
    end of the array of its file, and a file not seen before gets a new
    entry after the others. *)
Fixpoint add_to_group (m : AstGrepMatch) (byFile : list (string * list AstGrepMatch))
    : list (string * list AstGrepMatch) :=
  match byFile with
  | [] => [(file m, [m])]
  | (f, ms) :: others =>
      if String.eqb f (file m) then (f, ms ++ [m]) :: others
      else (f, ms) :: add_to_group m others
  end.

(** The [Map] after the loop, in iteration order. *)
Definition group_by_file (matches : list AstGrepMatch) : list (string * list AstGrepMatch) :=
  fold_left (fun byFile m => add_to_group m byFile) matches [].

(** [s.trimEnd()] *)
Definition trimEnd (s : string) : string :=
  String.rev (Regex.trim_start (String.rev s)).

Definition format_match (showContext : bool) (m : AstGrepMatch) : string :=
  "**Line " +:+ String_Z (start_line m) +:+ ":" +:+ String_Z (start_column m) +:+ "**" +:+ LF
  +:+ "```" +:+ LF +:+ (if showContext then trimEnd (lines m) else text m) +:+ LF
  +:+ "```" +:+ LF
  +:+ match metaVariables m with
      | Some (v :: vs) =>
          "Captures: "
          +:+ String.concat ", " ((fun kv => kv.1 +:+ "=`" +:+ kv.2 +:+ "`") <$> v :: vs)
          +:+ LF
      | _ => ""
      end
  +:+ LF.

Definition format_file (showContext : bool) (entry : string * list AstGrepMatch) : string :=
  "### " +:+ entry.1 +:+ LF +:+ LF +:+ String.concat "" (format_match showContext <$> entry.2).

Definition formatResults (matches : list AstGrepMatch) (showContext : bool) : string :=
  match matches with
  | [] => "No matches found."
  | _ =>
      Regex.trim
        ("Found " +:+ String_nat (length matches) +:+ " match(es) in "
         +:+ String_nat (length (group_by_file matches)) +:+ " file(s):" +:+ LF +:+ LF
         +:+ String.concat "" (format_file showContext <$> group_by_file matches))
  end.

(** The matches of one file, in the order they came. *)
Definition matches_in (f : string) (matches : list AstGrepMatch) : list AstGrepMatch :=
  List.filter (fun m => String.eqb (file m) f) matches.

(** What a round of the loop keeps: the files are distinct, the entry
    of a file holds its matches so far, and there is an entry for each
    file that has a match. *)
Definition grouped (seen : list AstGrepMatch) (byFile : list (string * list AstGrepMatch))
    : Prop :=
  NoDup byFile.*1
  ∧ Forall (fun entry => entry.2 = matches_in entry.1 seen ∧ entry.2 ≠ []) byFile
  ∧ ∀ m, m ∈ seen → file m ∈ byFile.*1.

End AstGrepFormat.

(** ** The fragments of [github-search.ts], cleaned *)

Module GithubFragments.

(** The cleaning of a fragment with the built-ins of the source. *)
Definition clean (fragment : string) : string :=
  GithubSearch.clean_fragment Regex.trim (Regex.split (ascii_of_nat 10))
    {| GithubSearch.fragment := fragment |}.

(** A line as the cleaning leaves it: not empty, no white space at
    either end, no line feed inside. *)
Definition neat (line : string) : Prop :=
  SessionList.edge_ok line = true ∧ SessionList.edge_ok (String.rev line) = true
  ∧ ¬ In (ascii_of_nat 10) (list_ascii_of_string line).

End GithubFragments.

(** ** kagi_search ([kagi-search.ts]) *)

Module Kagi.

Record SearchResult := {
  title : string;
  url : string;
  snippet : string
}.

Record Reference := {
  ref_title : string;
  ref_url : string;
  contribution : string
}.

Record QuickAnswer := {
  markdown : string;
  references : list Reference
}.

(** The private fields of a [KagiClient]; [userAgent] never changes. *)
Record KagiClient := {
  cookies : list string;
  sessionCookie : string
}.

Definition new_KagiClient : KagiClient := {| cookies := []; sessionCookie := "" |}.

Definition userAgent : string := "Mozilla/5.0 (X11; Linux x86_64) AppleWebKit/537.36".

Definition header (name : string) (r : Request) : option string :=
  snd <$> List.find (fun h => String.eqb (fst h) name) (req_headers r).

(** [c.split(";")[0]]: what is captured of one set-cookie header. *)
Definition cookie_pair (set_cookie_header : string) : string :=
  hd "" (Regex.split ";" set_cookie_header).

Definition auth_request (token : string) : Request :=
  {| req_method := "GET"; req_url := "https://kagi.com/html/search?token=" +:+ token;
     req_headers := [("User-Agent", userAgent)]; req_redirect_manual := true |}.

(** [authenticate]: the fields are assigned before the redirect is
    looked at, so they change even when the method throws. *)
Definition authenticate (token : string) (fetch : Request → outcome Response)
    (this : KagiClient) : KagiClient * outcome unit :=
  match fetch (auth_request token) with
  | Thrown e => (this, Thrown e)
  | Returned response =>
      let cookies' := cookie_pair <$> set_cookie response in
      let this' :=
        {| cookies := cookies';
           sessionCookie :=
             match List.find (String.prefix "kagi_session=") cookies' with
             | Some cookie => nth 1 (Regex.split "=" cookie) ""
             | None => sessionCookie this
             end |} in
      if (300 <=? status response) && (status response <? 400)
         && match location response with
            | Some l => includes l "/signin" || includes l "/welcome"
            | None => false
            end
      then (this', Thrown "Authentication failed")
      else (this', Returned tt)
  end.

(** [KagiConfig], as [loadConfig] reads it from the configuration file. *)
Record KagiConfig := {
  password_command : option string;
  config_timeout : option Z
}.

(** [getSessionToken]: [execSync] runs the password command and returns
    what it printed, or throws when it fails. The command prints the
    session link or the token itself. *)
Definition getSessionToken (config : KagiConfig) (execSync : string → outcome string)
    : outcome string :=
  output ← execSync (nullish (password_command config) "rbw get kagi-session-link");
  let output := Regex.trim output in
  if includes output "token="
  then Returned (hd "" (Regex.split "&" (nth 1 (Regex.split_on "token=" output) "")))
  else Returned output.

(** A line of the stream that the scan of [getQuickAnswer] passes over:
    not a message line, or a message whose markdown is empty. *)
Definition passed_over (JSON_parse_message : string → option (string * string))
    (line : string) : Prop :=
  match Regex.strip_prefix "new_message.json:" line with
  | None => True
  | Some json => ∃ references_md, JSON_parse_message json = Some ("", references_md)
  end.

Section Client.

(** The JS built-ins and the regular expressions of [search] and
    [getQuickAnswer]: [resultPattern] gives the captured block of each
    successive match, the other patterns their first capture group when
    they match; [clean] is [.replace(/<[^>]*>/g, "").trim()];
    [JSON_parse_message] gives [data.md || ""] and
    [data.references_md || ""], or nothing when parsing or reading the
    fields throws; [refPattern] gives the three groups of each match. *)
Context (encodeURIComponent : string → string)
        (resultPattern : string → list string)
        (titlePattern urlPattern snippetPattern : string → option string)
        (clean : string → string)
        (JSON_parse_message : string → option (string * string))
        (refPattern : string → list (string * string * string)).

Definition search_request (this : KagiClient) (query : string) : Request :=
  {| req_method := "GET";
     req_url := "https://kagi.com/html/search?q=" +:+ encodeURIComponent query;
     req_headers := [("User-Agent", userAgent);
                     ("Cookie", String.concat "; " (cookies this));
                     ("Accept", "text/html")];
     req_redirect_manual := false |}.

(** The body of the [while] loop for one block: the result it pushes,
    if any. *)
Definition parse_block (block : string) : option SearchResult :=
  match titlePattern block, urlPattern block with
  | Some t, Some u =>
      Some {| title := clean t; url := u;
              snippet := match snippetPattern block with
                         | Some s => clean s
                         | None => ""
                         end |}
  | _, _ => None
  end.

(** The [while] loop: it goes on while there is a next match and
    [results.length < limit]. *)
Fixpoint collect (blocks : list string) (limit : Z) (results : list SearchResult)
    : list SearchResult :=
  match blocks with
  | [] => results
  | block :: later =>
      if Z.of_nat (length results) <? limit then
        match parse_block block with
        | Some r => collect later limit (results ++ [r])
        | None => collect later limit results
        end
      else results
  end.

Definition search (this : KagiClient) (query : string) (limit : Z)
    (fetch : Request → outcome Response) : outcome (list SearchResult) :=
  response ← fetch (search_request this query);
  html ← body response;
  Returned (collect (resultPattern html) limit []).

Definition quick_answer_request (this : KagiClient) (query : string) : Request :=
  {| req_method := "POST";
     req_url := "https://kagi.com/mother/context?q=" +:+ encodeURIComponent query;
     req_headers := [("User-Agent", userAgent);
                     ("Cookie", String.concat "; " (cookies this));
                     ("Accept", "application/vnd.kagi.stream");
                     ("X-Kagi-Authorization", sessionCookie this);
                     ("Content-Length", "0");
                     ("Origin", "https://kagi.com");
                     ("Referer", "https://kagi.com/search?q=" +:+ encodeURIComponent query)];
     req_redirect_manual := false |}.

(** The [for] loop of [getQuickAnswer]: the first message line with
    non-empty markdown; a line that does not parse ends it with [null]. *)
Fixpoint first_answer (lines : list string) : option QuickAnswer :=
  match lines with
  | [] => None
  | line :: later =>
      match Regex.strip_prefix "new_message.json:" line with
      | None => first_answer later
      | Some json =>
          match JSON_parse_message json with
          | None => None
          | Some (md, references_md) =>
              if String.eqb md "" then first_answer later
              else Some {| markdown := md;
                           references :=
                             (fun m => {| ref_title := m.1.1; ref_url := m.1.2;
                                          contribution := m.2 +:+ "%" |})
                               <$> refPattern references_md |}
          end
      end
  end.

(** [getQuickAnswer] catches everything and returns [null] instead. *)
Definition getQuickAnswer (this : KagiClient) (query : string)
    (fetch : Request → outcome Response) : option QuickAnswer :=
  match fetch (quick_answer_request this query) with
  | Thrown _ => None
  | Returned response =>
      match body response with
      | Thrown _ => None
      | Returned text => first_answer (Regex.split (ascii_of_nat 10) text)
      end
  end.

(** *** The tool *)

Record Params := {
  query : string;
  limit : option Z;
  quick_answer : option bool
}.

(** What the tool reads from its surroundings: the token that
    [getSessionToken(loadConfig())] yields, or the error either throws,
    and the network. *)
Record Env := {
  session_token : outcome string;
  fetch : Request → outcome Response
}.

(** [ensureClient]: the [client] variable afterwards and the client to
    use. The new client is stored before it is authenticated. *)
Definition ensureClient (client : option KagiClient) (env : Env)
    : option KagiClient * outcome KagiClient :=
  match client with
  | Some c => (Some c, Returned c)
  | None =>
      match session_token env with
      | Thrown e => (Some new_KagiClient, Thrown e)
      | Returned token =>
          let (c, authenticated) := authenticate token (fetch env) new_KagiClient in
          (Some c, _ ← authenticated; Returned c)
      end
  end.

Definition format_quick_answer (qa : QuickAnswer) : string :=
  "## Quick Answer" +:+ LF +:+ LF +:+ markdown qa +:+ LF +:+ LF
  +:+ match references qa with
      | [] => ""
      | refs =>
          "### References" +:+ LF
          +:+ String.concat ""
                ((fun r => "- [" +:+ ref_title r +:+ "](" +:+ ref_url r +:+ ") ("
                           +:+ contribution r +:+ ")" +:+ LF) <$> refs)
          +:+ LF
      end.

Definition format_result (i : nat) (r : SearchResult) : string :=
  String_nat (i + 1) +:+ ". **[" +:+ title r +:+ "](" +:+ url r +:+ ")**" +:+ LF
  +:+ (if String.eqb (snippet r) "" then "" else "   " +:+ snippet r +:+ LF)
  +:+ LF.

Definition format_output (results : list SearchResult) (qa : option QuickAnswer) : string :=
  match qa with Some a => format_quick_answer a | None => "" end
  +:+ "## Search Results" +:+ LF +:+ LF
  +:+ String.concat "" (imap format_result results).

(** [execute], with the [client] variable of the extension threaded
    through: the variable afterwards, the search requests sent, and the
    result. [Promise.all] starts the search and the quick answer
    together; only the search can reject. *)
Definition execute (params : Params) (env : Env) (client : option KagiClient)
    : option KagiClient * list Request * outcome ToolResult :=
  let (client1, ensured) := ensureClient client env in
  match ensured with
  | Thrown msg => (None, [], Returned (error_result ("Kagi search failed: " +:+ msg)))
  | Returned kagi =>
      let limit := nullish (limit params) 10 in
      let answer := if nullish (quick_answer params) true
                    then getQuickAnswer kagi (query params) (fetch env) else None in
      match search kagi (query params) limit (fetch env) with
      | Thrown msg =>
          (None, [search_request kagi (query params)],
           Returned (error_result ("Kagi search failed: " +:+ msg)))
      | Returned results =>
          (client1, [search_request kagi (query params)],
           Returned (ok_result (format_output results answer)))
      end
  end.

End Client.

(** *** The patterns themselves *)

Import Regex.

(** The double quote, written [\x22] in the patterns quoted below. *)
Definition quote : ascii := ascii_of_nat 34.
Definition QUOTE : string := String quote "".

(** [/<div[^>]*class=\x22[^\x22]*search-result[^\x22]*\x22[^>]*>([\s\S]*?)<\/div>\s*<\/div>\s*<\/div>/g] *)
Definition resultPattern : list atom :=
  [lit "<div"; star true (except ">"); lit ("class=" +:+ QUOTE); star true (except quote);
   lit "search-result"; star true (except quote); lit QUOTE; star true (except ">");
   lit ">"; capture false any; lit "</div>"; star true space; lit "</div>";
   star true space; lit "</div>"].

(** [/<a[^>]*class=\x22[^\x22]*__sri-title[^\x22]*\x22[^>]*>([\s\S]*?)<\/a>/] *)
Definition titlePattern : list atom :=
  [lit "<a"; star true (except ">"); lit ("class=" +:+ QUOTE); star true (except quote);
   lit "__sri-title"; star true (except quote); lit QUOTE; star true (except ">");
   lit ">"; capture false any; lit "</a>"].

(** [/<a[^>]*class=\x22[^\x22]*__sri-url[^\x22]*\x22[^>]*href=\x22([^\x22]{0,})\x22[^>]*>/], with [{0,}] for the star
    next to the closing parenthesis *)
Definition urlPattern : list atom :=
  [lit "<a"; star true (except ">"); lit ("class=" +:+ QUOTE); star true (except quote);
   lit "__sri-url"; star true (except quote); lit QUOTE; star true (except ">");
   lit ("href=" +:+ QUOTE); capture true (except quote); lit QUOTE; star true (except ">"); lit ">"].

(** [/<div[^>]*class=\x22[^\x22]*__sri-desc[^\x22]*\x22[^>]*>([\s\S]*?)<\/div>/] *)
Definition snippetPattern : list atom :=
  [lit "<div"; star true (except ">"); lit ("class=" +:+ QUOTE); star true (except quote);
   lit "__sri-desc"; star true (except quote); lit QUOTE; star true (except ">");
   lit ">"; capture false any; lit "</div>"].

(** [/<[^>]*>/g] *)
Definition tagPattern : list atom := [lit "<"; star true (except ">"); lit ">"].

Definition first_group (p : list atom) (s : string) : option string :=
  match exec p s with
  | Some (captured, _) => captured
  | None => None
  end.

Definition all_blocks (html : string) : list string :=
  exec_all (S (String.length html)) resultPattern html.

Definition remove_tags_trim (s : string) : string :=
  trim (remove_all (S (String.length s)) tagPattern s).

(** *** A page as the provider serves it *)

(** Two result blocks: the first complete, the second without a
    description. *)
Definition first_block : string :=
  "<a class=" +:+ QUOTE +:+ "__sri-title" +:+ QUOTE +:+ "> First <b>hit</b> </a>"
  +:+ "<a class=" +:+ QUOTE +:+ "__sri-url" +:+ QUOTE +:+ " href=" +:+ QUOTE
  +:+ "https://a.example" +:+ QUOTE +:+ ">a</a>"
  +:+ "<div class=" +:+ QUOTE +:+ "__sri-desc" +:+ QUOTE +:+ ">About <em>a</em></div>"
  +:+ "<div><div><div>x".

Definition second_block : string :=
  "<a class=" +:+ QUOTE +:+ "__sri-title" +:+ QUOTE +:+ ">Second</a>"
  +:+ "<a class=" +:+ QUOTE +:+ "__sri-url" +:+ QUOTE +:+ " href=" +:+ QUOTE
  +:+ "https://b.example" +:+ QUOTE +:+ ">b</a>"
  +:+ "<div><div><div>x".

Definition first_hit : string :=
  "<div class=" +:+ QUOTE +:+ "search-result" +:+ QUOTE +:+ ">" +:+ first_block
  +:+ "</div> </div>" +:+ LF +:+ "</div>".

Definition second_hit : string :=
  "<div id=" +:+ QUOTE +:+ "r2" +:+ QUOTE +:+ " class=" +:+ QUOTE
  +:+ "_0_SRI search-result" +:+ QUOTE +:+ ">" +:+ second_block +:+ "</div></div></div>".

Definition page : Response :=
  {| status := 200; statusText := "OK"; set_cookie := []; location := None;
     body := Returned (first_hit +:+ second_hit) |}.

Definition search_page (limit : Z) : outcome (list SearchResult) :=
  search (fun q => q) all_blocks (first_group titlePattern) (first_group urlPattern)
    (first_group snippetPattern) remove_tags_trim new_KagiClient "q" limit
    (fun _ => Returned page).

End Kagi.


(** ** The activity recorder ([recorder.ts]) *)

Module Recorder.

(** Max result size to store (50KB). *)
Definition MAX_RESULT_SIZE : nat := 50 * 1024.

Definition TRUNCATION_MARKER : string := LF +:+ "... [truncated at 50KB]".

(** The expression shared by [extractTextContent] and the [input] handler:
    [x.length > MAX_RESULT_SIZE ? x.substring(0, MAX_RESULT_SIZE) + marker : x]. *)
Definition truncate (content : string) : string :=
  if (MAX_RESULT_SIZE <? String.length content)%nat
  then substring 0 MAX_RESULT_SIZE content +:+ TRUNCATION_MARKER
  else content.

Record ContentItem := {
  item_type : string;
  item_text : option string
}.

(** [texts.join("\n")] over the items that are text and have truthy text. *)
Definition text_items (content : list ContentItem) : list string :=
  omap (fun item =>
          if String.eqb (item_type item) "text" && truthy_str (item_text item)
          then item_text item else None) content.

Definition extractTextContent (content : list ContentItem) : string :=
  truncate (String.concat LF (text_items content)).

(** *** Token counts in SQLite

    A token count is a JS number with an integer value. sql.js binds a
    number as a 32-bit integer when it is one and as a double otherwise;
    a column of INTEGER affinity stores a double as an integer when it
    is one that fits 64 bits. *)

Definition int32 (z : Z) : bool := (- 2 ^ 31 <=? z) && (z <? 2 ^ 31).
Definition int64 (z : Z) : bool := (- 2 ^ 63 <=? z) && (z <? 2 ^ 63).

(** The double nearest to an integer, ties to the even significand;
    every integer below [2^53] in size is a double. *)
Definition nearest_double (z : Z) : Z :=
  let m := Z.abs z in
  if m <? 2 ^ 53 then z
  else
    let ulp := 2 ^ (Z.log2 m - 52) in
    let q := m / ulp in
    let r := m mod ulp in
    let q' := if (ulp <? 2 * r) || ((2 * r =? ulp) && Z.odd q) then q + 1 else q in
    Z.sgn z * (q' * ulp).

(** [total + ?] as SQLite computes it for the stored [total] and the
    bound number [n]: integer addition when both are integers and the
    sum fits 64 bits, floating-point addition otherwise. *)
Definition sqlite_add (total n : Z) : Z :=
  if int64 total && int32 n && int64 (total + n) then total + n
  else nearest_double (nearest_double total + nearest_double n).

Section Store.

(** Costs are JS numbers (IEEE doubles) stored in REAL columns. The
    development only ever adds them, in the order the code does, so the
    type and its addition stay abstract: no law of arithmetic is used. *)
Context {cost : Type} (cost_add : cost -> cost -> cost) (cost_zero : cost).

(** *** Rows of the five tables (see [SCHEMA]) *)

Record session_row := {
  s_rowid : Z;                       (* implicit rowid of a TEXT-keyed table *)
  s_id : string;
  s_session_file : option string;
  s_cwd : string;
  s_started_at : Z;
  s_ended_at : option Z;
  s_model_provider : option string;
  s_model_id : option string;
  s_total_input_tokens : Z;
  s_total_output_tokens : Z;
  s_total_cost : cost
}.

Record turn_row := {
  t_id : Z;
  t_session_id : string;
  t_turn_index : Z;
  t_started_at : Z;
  t_ended_at : option Z;
  t_duration_ms : option Z;
  t_model_provider : option string;
  t_model_id : option string;
  t_input_tokens : Z;
  t_output_tokens : Z;
  t_cost : cost;
  t_stop_reason : option string
}.

Record tool_call_row := {
  tc_rowid : Z;
  tc_id : string;
  tc_session_id : string;
  tc_turn_id : option Z;
  tc_tool_name : string;
  tc_input_json : option string;
  tc_started_at : Z;
  tc_ended_at : option Z;
  tc_duration_ms : option Z;
  tc_is_error : Z;
  tc_result_text : option string
}.

Record message_row := {
  m_id : Z;
  m_session_id : string;
  m_role : string;
  m_content : option string;
  m_turn_id : option Z;
  m_timestamp : Z
}.

Record model_change_row := {
  mc_id : Z;
  mc_session_id : string;
  mc_timestamp : Z;
  mc_from_provider : option string;
  mc_from_model_id : option string;
  mc_to_provider : string;
  mc_to_model_id : string
}.

(** The SQLite database: the tables in rowid order, the AUTOINCREMENT
    counters of [sqlite_sequence], and the connection's
    [last_insert_rowid()]. *)
Record Database := {
  sessions : list session_row;
  turns : list turn_row;
  tool_calls : list tool_call_row;
  messages : list message_row;
  model_changes : list model_change_row;
  seq_turns : Z;
  seq_messages : Z;
  seq_model_changes : Z;
  last_insert_rowid : Z
}.

Definition empty_database : Database :=
  {| sessions := []; turns := []; tool_calls := []; messages := [];
     model_changes := []; seq_turns := 0; seq_messages := 0;
     seq_model_changes := 0; last_insert_rowid := 0 |}.

(** The largest rowid in use, 0 for an empty table. *)
Definition max_rowid (ids : list Z) : Z := foldr Z.max 0 ids.

(** Rowid of a new row: one more than the largest in the table, and with
    AUTOINCREMENT also more than the largest there ever was. *)
Definition next_rowid (seq : Z) (ids : list Z) : Z := Z.max seq (max_rowid ids) + 1.

(** *** The SQL statements the handlers run

    A statement maps the database to [Some] new database, or to [None]
    when SQLite raises (a constraint fails): [safeRun] then logs the
    error and leaves the database as it was. *)

(** [INSERT OR REPLACE INTO sessions (id, session_file, cwd, started_at,
    model_provider, model_id) VALUES (?, ?, ?, ?, ?, ?)]: a row with the
    same primary key is deleted first; the other columns take their
    defaults (NULL, and 0 for the totals). The handler binds what
    [getSessionFile()] returned as it is: sql.js binds strings, numbers
    and [null], and raises on [undefined] before the statement runs. The
    model columns are bound through [?? null]. *)
Definition insert_or_replace_session (id : string) (session_file : option string)
    (cwd : string) (started_at : Z) (model_provider model_id : option string)
    (d : Database) : option Database :=
  match session_file with
  | None => None
  | Some _ =>
      let rowid := next_rowid 0 (s_rowid <$> sessions d) in
      let row := {| s_rowid := rowid; s_id := id; s_session_file := session_file;
                    s_cwd := cwd; s_started_at := started_at; s_ended_at := None;
                    s_model_provider := model_provider; s_model_id := model_id;
                    s_total_input_tokens := 0; s_total_output_tokens := 0;
                    s_total_cost := cost_zero |} in
      Some {| sessions :=
                List.filter (fun r => negb (String.eqb (s_id r) id)) (sessions d) ++ [row];
              turns := turns d; tool_calls := tool_calls d; messages := messages d;
              model_changes := model_changes d; seq_turns := seq_turns d;
              seq_messages := seq_messages d; seq_model_changes := seq_model_changes d;
              last_insert_rowid := rowid |}
  end.

(** [UPDATE sessions SET ended_at = ? WHERE id = ?] *)
Definition update_session_ended (ended_at : Z) (id : string) (d : Database)
    : option Database :=
  Some {| sessions :=
            (fun r => if String.eqb (s_id r) id
                      then {| s_rowid := s_rowid r; s_id := s_id r;
                              s_session_file := s_session_file r; s_cwd := s_cwd r;
                              s_started_at := s_started_at r; s_ended_at := Some ended_at;
                              s_model_provider := s_model_provider r;
                              s_model_id := s_model_id r;
                              s_total_input_tokens := s_total_input_tokens r;
                              s_total_output_tokens := s_total_output_tokens r;
                              s_total_cost := s_total_cost r |}
                      else r) <$> sessions d;
          turns := turns d; tool_calls := tool_calls d; messages := messages d;
          model_changes := model_changes d; seq_turns := seq_turns d;
          seq_messages := seq_messages d; seq_model_changes := seq_model_changes d;
          last_insert_rowid := last_insert_rowid d |}.

(** [UPDATE sessions SET total_input_tokens = total_input_tokens + ?,
    total_output_tokens = total_output_tokens + ?, total_cost = total_cost + ?
    WHERE id = ?] *)
Definition update_session_totals (input_tokens output_tokens : Z) (c : cost)
    (id : string) (d : Database) : option Database :=
  Some {| sessions :=
            (fun r => if String.eqb (s_id r) id
                      then {| s_rowid := s_rowid r; s_id := s_id r;
                              s_session_file := s_session_file r; s_cwd := s_cwd r;
                              s_started_at := s_started_at r; s_ended_at := s_ended_at r;
                              s_model_provider := s_model_provider r;
                              s_model_id := s_model_id r;
                              s_total_input_tokens :=
                                sqlite_add (s_total_input_tokens r) input_tokens;
                              s_total_output_tokens :=
                                sqlite_add (s_total_output_tokens r) output_tokens;
                              s_total_cost := cost_add (s_total_cost r) c |}
                      else r) <$> sessions d;
          turns := turns d; tool_calls := tool_calls d; messages := messages d;
          model_changes := model_changes d; seq_turns := seq_turns d;
          seq_messages := seq_messages d; seq_model_changes := seq_model_changes d;
          last_insert_rowid := last_insert_rowid d |}.

(** [INSERT INTO turns (session_id, turn_index, started_at) VALUES (?, ?, ?)] *)
Definition insert_turn (session_id : string) (turn_index started_at : Z)
    (d : Database) : option Database :=
  let id := next_rowid (seq_turns d) (t_id <$> turns d) in
  let row := {| t_id := id; t_session_id := session_id; t_turn_index := turn_index;
                t_started_at := started_at; t_ended_at := None; t_duration_ms := None;
                t_model_provider := None; t_model_id := None;
                t_input_tokens := 0; t_output_tokens := 0; t_cost := cost_zero;
                t_stop_reason := None |} in
  Some {| sessions := sessions d; turns := turns d ++ [row];
          tool_calls := tool_calls d; messages := messages d;
          model_changes := model_changes d; seq_turns := id;
          seq_messages := seq_messages d; seq_model_changes := seq_model_changes d;
          last_insert_rowid := id |}.

(** [UPDATE turns SET ended_at = ?, duration_ms = ?, model_provider = ?,
    model_id = ?, input_tokens = ?, output_tokens = ?, cost = ?,
    stop_reason = ? WHERE id = ?] *)
Definition update_turn (ended_at duration_ms : Z) (model_provider model_id : option string)
    (input_tokens output_tokens : Z) (c : cost) (stop_reason : option string)
    (id : Z) (d : Database) : option Database :=
  Some {| sessions := sessions d;
          turns :=
            (fun r => if t_id r =? id
                      then {| t_id := t_id r; t_session_id := t_session_id r;
                              t_turn_index := t_turn_index r;
                              t_started_at := t_started_at r;
                              t_ended_at := Some ended_at;
                              t_duration_ms := Some duration_ms;
                              t_model_provider := model_provider;
                              t_model_id := model_id;
                              t_input_tokens := input_tokens;
                              t_output_tokens := output_tokens;
                              t_cost := c; t_stop_reason := stop_reason |}
                      else r) <$> turns d;
          tool_calls := tool_calls d; messages := messages d;
          model_changes := model_changes d; seq_turns := seq_turns d;
          seq_messages := seq_messages d; seq_model_changes := seq_model_changes d;
          last_insert_rowid := last_insert_rowid d |}.

(** [INSERT INTO messages (session_id, role, content, turn_id, timestamp)
    VALUES (?, ?, ?, ?, ?)]; the user message leaves [turn_id] out (NULL). *)
Definition insert_message (session_id role content : string) (turn_id : option Z)
    (timestamp : Z) (d : Database) : option Database :=
  let id := next_rowid (seq_messages d) (m_id <$> messages d) in
  let row := {| m_id := id; m_session_id := session_id; m_role := role;
                m_content := Some content; m_turn_id := turn_id;
                m_timestamp := timestamp |} in
  Some {| sessions := sessions d; turns := turns d; tool_calls := tool_calls d;
          messages := messages d ++ [row]; model_changes := model_changes d;
          seq_turns := seq_turns d; seq_messages := id;
          seq_model_changes := seq_model_changes d; last_insert_rowid := id |}.

(** [INSERT INTO tool_calls (id, session_id, turn_id, tool_name, input_json,
    started_at) VALUES (?, ?, ?, ?, ?, ?)]: raises on a primary key that
    is already there. *)
Definition insert_tool_call (id session_id : string) (turn_id : option Z)
    (tool_name input_json : string) (started_at : Z) (d : Database) : option Database :=
  if existsb (fun r => String.eqb (tc_id r) id) (tool_calls d) then None
  else
    let rowid := next_rowid 0 (tc_rowid <$> tool_calls d) in
    let row := {| tc_rowid := rowid; tc_id := id; tc_session_id := session_id;
                  tc_turn_id := turn_id; tc_tool_name := tool_name;
                  tc_input_json := Some input_json; tc_started_at := started_at;
                  tc_ended_at := None; tc_duration_ms := None; tc_is_error := 0;
                  tc_result_text := None |} in
    Some {| sessions := sessions d; turns := turns d;
            tool_calls := tool_calls d ++ [row]; messages := messages d;
            model_changes := model_changes d; seq_turns := seq_turns d;
            seq_messages := seq_messages d; seq_model_changes := seq_model_changes d;
            last_insert_rowid := rowid |}.

(** [UPDATE tool_calls SET ended_at = ?, duration_ms = ?, is_error = ?,
    result_text = ? WHERE id = ?] *)
Definition update_tool_call (ended_at duration_ms is_error : Z) (result_text id : string)
    (d : Database) : option Database :=
  Some {| sessions := sessions d; turns := turns d;
          tool_calls :=
            (fun r => if String.eqb (tc_id r) id
                      then {| tc_rowid := tc_rowid r; tc_id := tc_id r;
                              tc_session_id := tc_session_id r;
                              tc_turn_id := tc_turn_id r;
                              tc_tool_name := tc_tool_name r;
                              tc_input_json := tc_input_json r;
                              tc_started_at := tc_started_at r;
                              tc_ended_at := Some ended_at;
                              tc_duration_ms := Some duration_ms;
                              tc_is_error := is_error;
                              tc_result_text := Some result_text |}
                      else r) <$> tool_calls d;
          messages := messages d; model_changes := model_changes d;
          seq_turns := seq_turns d; seq_messages := seq_messages d;
          seq_model_changes := seq_model_changes d;
          last_insert_rowid := last_insert_rowid d |}.

(** [INSERT INTO model_changes (session_id, timestamp, from_provider,
    from_model_id, to_provider, to_model_id) VALUES (?, ?, ?, ?, ?, ?)] *)
Definition insert_model_change (session_id : string) (timestamp : Z)
    (from_provider from_model_id : option string) (to_provider to_model_id : string)
    (d : Database) : option Database :=
  let id := next_rowid (seq_model_changes d) (mc_id <$> model_changes d) in
  let row := {| mc_id := id; mc_session_id := session_id; mc_timestamp := timestamp;
                mc_from_provider := from_provider; mc_from_model_id := from_model_id;
                mc_to_provider := to_provider; mc_to_model_id := to_model_id |} in
  Some {| sessions := sessions d; turns := turns d; tool_calls := tool_calls d;
          messages := messages d; model_changes := model_changes d ++ [row];
          seq_turns := seq_turns d; seq_messages := seq_messages d;
          seq_model_changes := id; last_insert_rowid := id |}.

(** *** Events and their payloads *)

Record Model := { provider : string; id : string }.

(** [ctx] as the [session_start] handler reads it; [getSessionFile()] is
    [undefined] for a session that is not kept in a file. *)
Record ExtensionContext := {
  getSessionId : string;
  getSessionFile : option string;
  cwd : string;
  model : option Model
}.

Record InputEvent := { input_text : string }.

Record TurnStartEvent := { turnIndex : Z; timestamp : Z }.

Record Cost := { total : option cost }.

Record Usage := {
  input : option Z;
  output : option Z;
  usage_cost : option Cost
}.

(** [event.message] as the [turn_end] handler casts it. *)
Record Message := {
  msg_provider : option string;
  msg_model : option string;
  content : option (list ContentItem);
  usage : option Usage;
  stopReason : option string
}.

Record TurnEndEvent := { message : Message }.

(** [input_json] stands for [JSON.stringify(event.input)]. *)
Record ToolCallEvent := {
  tc_toolCallId : string;
  toolName : string;
  input_json : string
}.

Record ToolResultEvent := {
  tr_toolCallId : string;
  tr_content : list ContentItem;
  tr_isError : bool
}.

Record ModelSelectEvent := {
  ms_model : Model;
  previousModel : option Model
}.

(** One host event, with the [Date.now()] its handler reads. The session
    start also carries whether the dynamic [import("sql.js")] succeeds,
    should the handler attempt it. *)
Inductive Event :=
| session_start (ctx : ExtensionContext) (import_ok : bool) (now : Z)
| input_event (e : InputEvent) (now : Z)
| session_shutdown (now : Z)
| turn_start (e : TurnStartEvent)
| turn_end (e : TurnEndEvent) (now : Z)
| tool_call (e : ToolCallEvent) (now : Z)
| tool_result (e : ToolResultEvent) (now : Z)
| model_select (e : ModelSelectEvent) (now : Z).

(** *** Module state *)

Record State := {
  sessionId : option string;
  currentTurnId : option Z;
  currentTurnStartedAt : Z;
  toolCallStarts : gmap string Z
}.

(** The module-level variables and the database file on disk. *)
Record World := {
  db : option Database;
  SQL : bool;                 (* sql.js already loaded *)
  sqlJsAvailable : bool;
  dbPath : string;
  file : option Database;     (* contents of ~/.pi/agent/recorder.db *)
  state : State
}.

Definition initial_state : State :=
  {| sessionId := None; currentTurnId := None; currentTurnStartedAt := 0;
     toolCallStarts := ∅ |}.

(** A fresh process on a machine where the recorder never ran. *)
Definition initial_world : World :=
  {| db := None; SQL := false; sqlJsAvailable := true; dbPath := "";
     file := None; state := initial_state |}.

Definition RECORDER_DB : string := "~/.pi/agent/recorder.db".

Definition with_db (d : option Database) (w : World) : World :=
  {| db := d; SQL := SQL w; sqlJsAvailable := sqlJsAvailable w;
     dbPath := dbPath w; file := file w; state := state w |}.

Definition with_state (s : State) (w : World) : World :=
  {| db := db w; SQL := SQL w; sqlJsAvailable := sqlJsAvailable w;
     dbPath := dbPath w; file := file w; state := s |}.

(** *** Helpers *)

(** [loadSqlJs]: the world afterwards and whether it returned (rather
    than threw). *)
Definition loadSqlJs (import_ok : bool) (w : World) : World * bool :=
  if SQL w then (w, true)
  else if negb (sqlJsAvailable w) then (w, false)
  else if import_ok then
    ({| db := db w; SQL := true; sqlJsAvailable := sqlJsAvailable w;
        dbPath := dbPath w; file := file w; state := state w |}, true)
  else
    ({| db := db w; SQL := SQL w; sqlJsAvailable := false;
        dbPath := dbPath w; file := file w; state := state w |}, false).

(** [persistDatabase]: the whole database is exported and written. *)
Definition persistDatabase (w : World) : World :=
  match db w with
  | None => w
  | Some d =>
      if String.eqb (dbPath w) "" then w
      else {| db := db w; SQL := SQL w; sqlJsAvailable := sqlJsAvailable w;
              dbPath := dbPath w; file := Some d; state := state w |}
  end.

(** [new sqljs.Database(data)]: the rows and counters of the file on a
    new connection. *)
Definition open_database (data : Database) : Database :=
  {| sessions := sessions data; turns := turns data; tool_calls := tool_calls data;
     messages := messages data; model_changes := model_changes data;
     seq_turns := seq_turns data; seq_messages := seq_messages data;
     seq_model_changes := seq_model_changes data; last_insert_rowid := 0 |}.

(** [initDatabase]; [db.exec(SCHEMA)] only creates what is missing and
    changes no row. *)
Definition initDatabase (import_ok : bool) (w : World) : World * bool :=
  match db w with
  | Some _ => (w, true)
  | None =>
      let (w1, loaded) := loadSqlJs import_ok w in
      if loaded then
        let d := match file w1 with
                 | Some data => open_database data
                 | None => empty_database
                 end in
        (persistDatabase
           {| db := Some d; SQL := SQL w1; sqlJsAvailable := sqlJsAvailable w1;
              dbPath := RECORDER_DB; file := file w1; state := state w1 |}, true)
      else (w1, false)
  end.

(** [safeRun]: a statement that raises is logged and dropped. *)
Definition safeRun (stmt : Database -> option Database) (w : World) : World :=
  match db w with
  | None => w
  | Some d =>
      match stmt d with
      | Some d' => with_db (Some d') w
      | None => w
      end
  end.

Definition getLastInsertId (w : World) : option Z :=
  match db w with
  | None => None
  | Some d => Some (last_insert_rowid d)
  end.

(** The guard [if (!db || !state.sessionId) return;], returning the
    session identifier when the handler goes on. *)
Definition recording (w : World) : option string :=
  match db w with
  | None => None
  | Some _ => if truthy_str (sessionId (state w)) then sessionId (state w) else None
  end.

(** *** The handlers registered with [pi.on] *)

Definition on_session_start (ctx : ExtensionContext) (import_ok : bool) (now : Z)
    (w : World) : World :=
  let (w1, opened) := initDatabase import_ok w in
  if opened then
    let st := {| sessionId := Some (getSessionId ctx); currentTurnId := None;
                 currentTurnStartedAt := currentTurnStartedAt (state w1);
                 toolCallStarts := ∅ |} in
    let w2 := with_state st w1 in
    let w3 := safeRun (insert_or_replace_session (getSessionId ctx) (getSessionFile ctx)
                         (cwd ctx) now (provider <$> model ctx) (id <$> model ctx)) w2 in
    persistDatabase w3
  else w1.

Definition on_input (e : InputEvent) (now : Z) (w : World) : World :=
  match recording w with
  | None => w
  | Some sid =>
      let content := truncate (input_text e) in
      persistDatabase (safeRun (insert_message sid "user" content None now) w)
  end.

Definition on_session_shutdown (now : Z) (w : World) : World :=
  match recording w with
  | None => w
  | Some sid =>
      let w1 := persistDatabase (safeRun (update_session_ended now sid) w) in
      with_state {| sessionId := None; currentTurnId := currentTurnId (state w1);
                    currentTurnStartedAt := currentTurnStartedAt (state w1);
                    toolCallStarts := toolCallStarts (state w1) |}
                 (with_db None w1)
  end.

Definition on_turn_start (e : TurnStartEvent) (w : World) : World :=
  match recording w with
  | None => w
  | Some sid =>
      let w1 := with_state {| sessionId := sessionId (state w);
                              currentTurnId := currentTurnId (state w);
                              currentTurnStartedAt := timestamp e;
                              toolCallStarts := toolCallStarts (state w) |} w in
      let w2 := safeRun (insert_turn sid (turnIndex e) (timestamp e)) w1 in
      with_state {| sessionId := sessionId (state w2);
                    currentTurnId := getLastInsertId w2;
                    currentTurnStartedAt := currentTurnStartedAt (state w2);
                    toolCallStarts := toolCallStarts (state w2) |} w2
  end.

Definition on_turn_end (e : TurnEndEvent) (now : Z) (w : World) : World :=
  match recording w with
  | None => w
  | Some sid =>
      if negb (truthy_num (currentTurnId (state w))) then w
      else
        let turnId := nullish (currentTurnId (state w)) 0 in
        let endedAt := now in
        let durationMs := endedAt - currentTurnStartedAt (state w) in
        let msg := message e in
        let inputTokens := nullish (chain (usage msg) input) 0 in
        let outputTokens := nullish (chain (usage msg) output) 0 in
        let c := nullish (chain (chain (usage msg) usage_cost) total) cost_zero in
        let w1 := safeRun (update_turn endedAt durationMs (msg_provider msg) (msg_model msg)
                             inputTokens outputTokens c (stopReason msg) turnId) w in
        let w2 := safeRun (update_session_totals inputTokens outputTokens c sid) w1 in
        let w3 :=
          match content msg with
          | None => w2
          | Some items =>
              let assistantText := extractTextContent items in
              if String.eqb assistantText "" then w2
              else safeRun (insert_message sid "assistant" assistantText
                              (currentTurnId (state w2)) endedAt) w2
          end in
        persistDatabase w3
  end.

Definition on_tool_call (e : ToolCallEvent) (now : Z) (w : World) : World :=
  match recording w with
  | None => w
  | Some sid =>
      let startedAt := now in
      let w1 := with_state {| sessionId := sessionId (state w);
                              currentTurnId := currentTurnId (state w);
                              currentTurnStartedAt := currentTurnStartedAt (state w);
                              toolCallStarts :=
                                <[tc_toolCallId e := startedAt]> (toolCallStarts (state w)) |} w in
      safeRun (insert_tool_call (tc_toolCallId e) sid (currentTurnId (state w1))
                 (toolName e) (input_json e) startedAt) w1
  end.

Definition on_tool_result (e : ToolResultEvent) (now : Z) (w : World) : World :=
  match recording w with
  | None => w
  | Some sid =>
      let endedAt := now in
      let startedAt := nullish (toolCallStarts (state w) !! tr_toolCallId e) endedAt in
      let durationMs := endedAt - startedAt in
      let w1 := with_state {| sessionId := sessionId (state w);
                              currentTurnId := currentTurnId (state w);
                              currentTurnStartedAt := currentTurnStartedAt (state w);
                              toolCallStarts :=
                                delete (tr_toolCallId e) (toolCallStarts (state w)) |} w in
      let resultText := extractTextContent (tr_content e) in
      persistDatabase
        (safeRun (update_tool_call endedAt durationMs (if tr_isError e then 1 else 0)
                    resultText (tr_toolCallId e)) w1)
  end.

Definition on_model_select (e : ModelSelectEvent) (now : Z) (w : World) : World :=
  match recording w with
  | None => w
  | Some sid =>
      persistDatabase
        (safeRun (insert_model_change sid now (provider <$> previousModel e)
                    (id <$> previousModel e) (provider (ms_model e)) (id (ms_model e))) w)
  end.

(** The host delivers one event at a time and awaits the handler. *)
Definition handle (ev : Event) (w : World) : World :=
  match ev with
  | session_start ctx import_ok now => on_session_start ctx import_ok now w
  | input_event e now => on_input e now w
  | session_shutdown now => on_session_shutdown now w
  | turn_start e => on_turn_start e w
  | turn_end e now => on_turn_end e now w
  | tool_call e now => on_tool_call e now w
  | tool_result e now => on_tool_result e now w
  | model_select e now => on_model_select e now w
  end.

Definition run (evs : list Event) (w : World) : World :=
  fold_left (fun w ev => handle ev w) evs w.

(** *** Vocabulary of the properties *)

(** A running total as the code accumulates it: from the column default,
    one addition per row, in row order. *)
Definition sum_tokens (l : list Z) : Z := fold_left sqlite_add l 0.
Definition sum_cost (l : list cost) : cost := fold_left cost_add l cost_zero.

(** The rows of [sessions] a [WHERE id = ?] selects. *)
Definition sessions_with_id (sid : string) (d : Database) : list session_row :=
  List.filter (fun r => String.eqb (s_id r) sid) (sessions d).

(** The events that may come between turn boundaries: tool calls and
    results, user input and model changes. *)
Inductive Activity :=
| act_tool_call (e : ToolCallEvent) (now : Z)
| act_tool_result (e : ToolResultEvent) (now : Z)
| act_input (e : InputEvent) (now : Z)
| act_model_select (e : ModelSelectEvent) (now : Z).

Definition activity_event (a : Activity) : Event :=
  match a with
  | act_tool_call e now => tool_call e now
  | act_tool_result e now => tool_result e now
  | act_input e now => input_event e now
  | act_model_select e now => model_select e now
  end.

(** A completed turn: its start, what happens during it, its end, and
    what happens before the next turn starts. *)
Record Turn := {
  turn_started : TurnStartEvent;
  turn_during : list Activity;
  turn_ended : TurnEndEvent;
  turn_ended_now : Z;
  turn_after : list Activity
}.

Definition turn_events (t : Turn) : list Event :=
  turn_start (turn_started t)
    :: (activity_event <$> turn_during t)
    ++ turn_end (turn_ended t) (turn_ended_now t)
    :: (activity_event <$> turn_after t).

(** A session start followed by completed turns with interleaved
    activity. *)
Definition session_events (ctx : ExtensionContext) (import_ok : bool) (now : Z)
    (before : list Activity) (ts : list Turn) : list Event :=
  session_start ctx import_ok now
    :: (activity_event <$> before) ++ concat (turn_events <$> ts).

(** The usage the [turn_end] handler reads off the message. *)
Definition inputTokens (e : TurnEndEvent) : Z := nullish (chain (usage (message e)) input) 0.
Definition outputTokens (e : TurnEndEvent) : Z := nullish (chain (usage (message e)) output) 0.
Definition turnCost (e : TurnEndEvent) : cost :=
  nullish (chain (chain (usage (message e)) usage_cost) total) cost_zero.

(** The database a session start works on: the open one, else the one
    loaded from the file, else a new one. *)
Definition store_at (w : World) : Database :=
  match db w with
  | Some d => d
  | None => match file w with
            | Some data => open_database data
            | None => empty_database
            end
  end.

(** [initDatabase] returns rather than throws. *)
Definition store_opens (import_ok : bool) (w : World) : Prop :=
  snd (initDatabase import_ok w) = true.

(** The primary keys of [sessions] and [turns] are unique. *)
Definition wf_db (d : Database) : Prop :=
  NoDup (s_id <$> sessions d) ∧ NoDup (t_id <$> turns d).

(** What every reachable world satisfies: an open database has a path to
    persist to, primary keys are unique in the open database and in the
    file, and the remembered current turn is a row of the open database. *)
Definition wf_world (w : World) : Prop :=
  (∀ d, db w = Some d →
        dbPath w ≠ "" ∧ wf_db d ∧
        ∀ tid, currentTurnId (state w) = Some tid → tid ∈ (t_id <$> turns d))
  ∧ (∀ f, file w = Some f → wf_db f).

(** The usage columns of a turn row, and the usage a turn's end event
    carries. *)
Definition row_usage (r : turn_row) : Z * Z * cost :=
  (t_input_tokens r, t_output_tokens r, t_cost r).

Definition turn_usage (t : Turn) : Z * Z * cost :=
  (inputTokens (turn_ended t), outputTokens (turn_ended t), turnCost (turn_ended t)).

Definition totals_match (row : session_row) (rows : list turn_row) : Prop :=
  s_total_input_tokens row = sum_tokens (t_input_tokens <$> rows)
  ∧ s_total_output_tokens row = sum_tokens (t_output_tokens <$> rows)
  ∧ s_total_cost row = sum_cost (t_cost <$> rows).

(** Between two turns of session [sid]: the turns [done] so far have
    appended [rows] after the [old] rows, and the session row totals them. *)
Definition between_turns (sid : string) (old : list turn_row) (done : list Turn)
    (rows : list turn_row) (w : World) : Prop :=
  ∃ d f row,
    db w = Some d ∧ file w = Some f ∧ dbPath w ≠ "" ∧ recording w = Some sid
    ∧ sessions f = sessions d ∧ turns f = turns d
    ∧ turns d = old ++ rows ∧ NoDup (t_id <$> turns d)
    ∧ sessions_with_id sid d = [row] ∧ totals_match row rows
    ∧ row_usage <$> rows = turn_usage <$> done
    ∧ Forall (λ r, t_session_id r = sid) rows.

(** During a turn: its row [open] is the last one and the current turn. *)
Definition in_turn (sid : string) (old : list turn_row) (done : list Turn)
    (rows : list turn_row) (open : turn_row) (w : World) : Prop :=
  ∃ d row,
    db w = Some d ∧ dbPath w ≠ "" ∧ recording w = Some sid
    ∧ currentTurnId (state w) = Some (t_id open) ∧ t_id open ≠ 0
    ∧ t_session_id open = sid
    ∧ turns d = old ++ rows ++ [open] ∧ NoDup (t_id <$> turns d)
    ∧ sessions_with_id sid d = [row] ∧ totals_match row rows
    ∧ row_usage <$> rows = turn_usage <$> done
    ∧ Forall (λ r, t_session_id r = sid) rows.

(** The text content of a tool result or of a message: [texts] are the
    texts of the items of [content] that are of type text and carry a
    text that is not empty, in the order of the items. *)
Inductive text_content : list ContentItem → list string → Prop :=
| text_content_nil : text_content [] []
| text_content_text (t : string) (items : list ContentItem) (texts : list string) :
    t ≠ "" → text_content items texts →
    text_content ({| item_type := "text"; item_text := Some t |} :: items) (t :: texts)
| text_content_other (item : ContentItem) (items : list ContentItem) (texts : list string) :
    item_type item ≠ "text" ∨ item_text item = None ∨ item_text item = Some "" →
    text_content items texts → text_content (item :: items) texts.

(** [stored] is [original] capped at [MAX_RESULT_SIZE]: cut to its first
    [MAX_RESULT_SIZE] characters and marked when longer, untouched
    otherwise, and never longer than cap plus marker. *)
Definition capped (original stored : string) : Prop :=
  ((MAX_RESULT_SIZE < String.length original)%nat →
     stored = substring 0 MAX_RESULT_SIZE original +:+ TRUNCATION_MARKER
     ∧ String.length (substring 0 MAX_RESULT_SIZE original) = MAX_RESULT_SIZE
     ∧ String.prefix (substring 0 MAX_RESULT_SIZE original) original = true
     ∧ String.length stored = (MAX_RESULT_SIZE + String.length TRUNCATION_MARKER)%nat)
  ∧ ((String.length original <= MAX_RESULT_SIZE)%nat → stored = original)
  ∧ (String.length stored <= MAX_RESULT_SIZE + String.length TRUNCATION_MARKER)%nat.

(** The rows of [tool_calls] a [WHERE id = ?] selects. *)
Definition calls_with_id (cid : string) (d : Database) : list tool_call_row :=
  List.filter (fun r => String.eqb (tc_id r) cid) (tool_calls d).

(** An activity that is neither the call nor the result of tool call
    [cid]. *)
Definition other_call (cid : string) (a : Activity) : Prop :=
  match a with
  | act_tool_call e _ => tc_toolCallId e ≠ cid
  | act_tool_result e _ => tr_toolCallId e ≠ cid
  | act_input _ _ | act_model_select _ _ => True
  end.

(** The primary keys of the five tables are unique. *)
Definition keys_unique (d : Database) : Prop :=
  NoDup (s_id <$> sessions d) ∧ NoDup (t_id <$> turns d)
  ∧ NoDup (tc_id <$> tool_calls d) ∧ NoDup (m_id <$> messages d)
  ∧ NoDup (mc_id <$> model_changes d).

(** Every [session_id] of the rows of [d] is among [session_ids] and
    every [turn_id] that is not NULL among [turn_ids]. *)
Definition refers_to (session_ids : list string) (turn_ids : list Z) (d : Database) : Prop :=
  Forall (λ r, t_session_id r ∈ session_ids) (turns d)
  ∧ Forall (λ r, tc_session_id r ∈ session_ids
                 ∧ ∀ tid, tc_turn_id r = Some tid → tid ∈ turn_ids) (tool_calls d)
  ∧ Forall (λ r, m_session_id r ∈ session_ids
                 ∧ ∀ tid, m_turn_id r = Some tid → tid ∈ turn_ids) (messages d)
  ∧ Forall (λ r, mc_session_id r ∈ session_ids) (model_changes d).

(** The sessions that were started without a session file, whose row
    was therefore not written. *)
Definition orphans (evs : list Event) : list string :=
  omap (fun ev => match ev with
                  | session_start ctx _ _ =>
                      match getSessionFile ctx with
                      | None => Some (getSessionId ctx)
                      | Some _ => None
                      end
                  | _ => None
                  end) evs.

(** The sessions started without a session file by [ev] are among
    [known]. *)
Definition covered (known : list string) (ev : Event) : Prop :=
  match ev with
  | session_start ctx _ _ => getSessionFile ctx = None → getSessionId ctx ∈ known
  | _ => True
  end.

(** Every [session_id] names a row of [sessions] (the FOREIGN KEY of the
    schema, which SQLite does not enforce unless asked to) or one of the
    [known] sessions, and every [turn_id] that is not NULL names a row
    of [turns]. *)
Definition references_hold (known : list string) (d : Database) : Prop :=
  refers_to (known ++ (s_id <$> sessions d)) (t_id <$> turns d) d.

Definition consistent (known : list string) (d : Database) : Prop :=
  keys_unique d ∧ references_hold known d.

(** The file [f] lags the open database [d] by no more than turns and
    tool calls inserted since the last write. *)
Definition lags (f d : Database) : Prop :=
  sessions f = sessions d ∧ messages f = messages d
  ∧ model_changes f = model_changes d
  ∧ turns f `prefix_of` turns d ∧ tool_calls f `prefix_of` tool_calls d.

(** What every reachable world satisfies, besides [wf_world]: the open
    database and the file are consistent, the session the state
    remembers is a row of the open database or one of the [known]
    sessions, and the file lags the open database. *)
Definition consistent_world (known : list string) (w : World) : Prop :=
  (∀ d, db w = Some d →
        consistent known d
        ∧ (∀ sid, sessionId (state w) = Some sid → sid ∈ known ++ (s_id <$> sessions d))
        ∧ ∃ f, file w = Some f ∧ lags f d)
  ∧ (∀ f, file w = Some f → consistent known f).

(** *** Properties *)

Lemma max_rowid_ge (ids : list Z) (x : Z) : x ∈ ids → x <= max_rowid ids.
Proof.
  induction ids as [|y ids IH]; intros Hx.
  - inversion Hx.
  - apply elem_of_cons in Hx as [->|Hx]; unfold max_rowid in *; simpl; [lia|].
    specialize (IH Hx). lia.
Qed.

Lemma max_rowid_nonneg (ids : list Z) : 0 <= max_rowid ids.
Proof. unfold max_rowid. induction ids; simpl; lia. Qed.

Lemma next_rowid_fresh (seq : Z) (ids : list Z) : next_rowid seq ids ∉ ids.
Proof. intros H%max_rowid_ge. unfold next_rowid in H. lia. Qed.

Lemma next_rowid_pos (seq : Z) (ids : list Z) : 1 <= next_rowid seq ids.
Proof. pose proof (max_rowid_nonneg ids). unfold next_rowid. lia. Qed.

Lemma initial_world_wf : wf_world initial_world.
Proof. split; intros ? H; discriminate H. Qed.

Lemma NoDup_snoc_fresh (ids : list Z) (x : Z) : NoDup ids → x ∉ ids → NoDup (ids ++ [x]).
Proof.
  intros Hnd Hx. apply NoDup_app. split_and!; [done| |apply NoDup_singleton].
  intros y Hy ->%list_elem_of_singleton. done.
Qed.

Lemma update_turn_ids a b c d0 e f g h tid (d d' : Database) :
  update_turn a b c d0 e f g h tid d = Some d' → t_id <$> turns d' = t_id <$> turns d.
Proof.
  intros [= <-]. simpl. rewrite <- list_fmap_compose. apply list_fmap_ext.
  intros i r _. simpl. by destruct (t_id r =? tid).
Qed.

(** What each handler does to a recording world, field by field. *)

Ltac open_world w :=
  let wdb := fresh "wdb" in
  let wpath := fresh "wpath" in
  destruct w as [wdb ? ? wpath ? [? ? ? ?]];
  unfold store_opens, recording in *; simpl in *.

Ltac path_set :=
  match goal with
  | H : ?p ≠ "" |- context [String.eqb ?p ""] =>
      destruct (String.eqb_spec p ""); [done|]
  end.

Lemma recording_db (w : World) (sid : string) :
  recording w = Some sid → ∃ d, db w = Some d ∧ sessionId (state w) = Some sid ∧ sid ≠ "".
Proof.
  open_world w. destruct wdb; [|done].
  destruct sessionId0 as [[|c s]|]; simpl; intros [= <-]; eauto.
Qed.

Lemma on_session_start_stored ctx import_ok now (w : World) :
  (∀ d, db w = Some d → dbPath w ≠ "") →
  store_opens import_ok w →
  let w' := on_session_start ctx import_ok now w in
  let d' := default (store_at w)
              (insert_or_replace_session (getSessionId ctx) (getSessionFile ctx) (cwd ctx)
                 now (provider <$> model ctx) (id <$> model ctx) (store_at w)) in
  db w' = Some d' ∧ file w' = Some d' ∧ dbPath w' ≠ ""
  ∧ sessionId (state w') = Some (getSessionId ctx)
  ∧ currentTurnId (state w') = None.
Proof.
  open_world w. intros Hp Hopen. destruct ctx as [sid [sf|] dir m];
    unfold on_session_start, initDatabase, loadSqlJs, persistDatabase, safeRun, store_at in *;
    (destruct wdb as [d|]; simpl in *;
     [specialize (Hp d eq_refl); path_set; eauto 10
     |destruct SQL0, sqlJsAvailable0, import_ok, file0; simpl in *; try done; eauto 10]).
Qed.

Lemma on_session_start_opened ctx import_ok now (w : World) :
  (∀ d, db w = Some d → dbPath w ≠ "") →
  store_opens import_ok w →
  is_Some (getSessionFile ctx) →
  let w' := on_session_start ctx import_ok now w in
  ∃ d', insert_or_replace_session (getSessionId ctx) (getSessionFile ctx) (cwd ctx) now
          (provider <$> model ctx) (id <$> model ctx) (store_at w) = Some d'
        ∧ db w' = Some d' ∧ file w' = Some d' ∧ dbPath w' ≠ ""
        ∧ sessionId (state w') = Some (getSessionId ctx)
        ∧ currentTurnId (state w') = None.
Proof.
  intros Hp Hopen [sf Hsf]. pose proof (on_session_start_stored ctx import_ok now w Hp Hopen) as H.
  simpl in *. rewrite Hsf in *. simpl in H. eexists. split; [reflexivity|]. exact H.
Qed.

(** A session start without session file: the row is not written, and
    the recorder goes on with the store as it was. *)
Lemma on_session_start_no_file ctx import_ok now (w : World) :
  (∀ d, db w = Some d → dbPath w ≠ "") →
  store_opens import_ok w →
  getSessionFile ctx = None →
  let w' := on_session_start ctx import_ok now w in
  db w' = Some (store_at w) ∧ file w' = Some (store_at w) ∧ dbPath w' ≠ ""
  ∧ sessionId (state w') = Some (getSessionId ctx)
  ∧ currentTurnId (state w') = None.
Proof.
  intros Hp Hopen Hsf. pose proof (on_session_start_stored ctx import_ok now w Hp Hopen) as H.
  simpl in *. by rewrite Hsf in H.
Qed.

Lemma on_session_start_failed ctx import_ok now (w : World) :
  ¬ store_opens import_ok w →
  let w' := on_session_start ctx import_ok now w in
  db w' = None ∧ file w' = file w ∧ state w' = state w.
Proof.
  open_world w. intros Hopen.
  unfold on_session_start, initDatabase, loadSqlJs, persistDatabase, safeRun in *.
  destruct wdb as [d|]; simpl in *; [done|].
  destruct SQL0, sqlJsAvailable0, import_ok, file0; simpl in *; done.
Qed.

Lemma not_recording_idle (ev : Event) (w : World) :
  recording w = None → (∀ ctx ok now, ev ≠ session_start ctx ok now) → handle ev w = w.
Proof.
  intros Hrec Hev. destruct ev; simpl;
    unfold on_input, on_session_shutdown, on_turn_start, on_turn_end, on_tool_call,
      on_tool_result, on_model_select; rewrite ?Hrec; try done.
  by destruct (Hev ctx import_ok now).
Qed.

Lemma on_input_recorded e now (w : World) sid d :
  recording w = Some sid → db w = Some d → dbPath w ≠ "" →
  let w' := on_input e now w in
  ∃ d', insert_message sid "user" (truncate (input_text e)) None now d = Some d'
        ∧ db w' = Some d' ∧ file w' = Some d' ∧ dbPath w' = dbPath w ∧ state w' = state w.
Proof.
  intros Hrec Hd Hp. unfold on_input. rewrite Hrec.
  open_world w. subst wdb. unfold persistDatabase, safeRun. simpl. path_set. eauto 10.
Qed.

Lemma on_model_select_recorded e now (w : World) sid d :
  recording w = Some sid → db w = Some d → dbPath w ≠ "" →
  let w' := on_model_select e now w in
  ∃ d', insert_model_change sid now (provider <$> previousModel e) (id <$> previousModel e)
          (provider (ms_model e)) (id (ms_model e)) d = Some d'
        ∧ db w' = Some d' ∧ file w' = Some d' ∧ dbPath w' = dbPath w ∧ state w' = state w.
Proof.
  intros Hrec Hd Hp. unfold on_model_select. rewrite Hrec.
  open_world w. subst wdb. unfold persistDatabase, safeRun. simpl. path_set. eauto 10.
Qed.

Lemma on_session_shutdown_recorded now (w : World) sid d :
  recording w = Some sid → db w = Some d → dbPath w ≠ "" →
  let w' := on_session_shutdown now w in
  ∃ d', update_session_ended now sid d = Some d'
        ∧ db w' = None ∧ file w' = Some d' ∧ sessionId (state w') = None.
Proof.
  intros Hrec Hd Hp. unfold on_session_shutdown. rewrite Hrec.
  open_world w. subst wdb. unfold persistDatabase, safeRun. simpl. path_set. simpl. eauto 10.
Qed.

Lemma on_turn_start_recorded e (w : World) sid d :
  recording w = Some sid → db w = Some d →
  let w' := on_turn_start e w in
  ∃ d', insert_turn sid (turnIndex e) (timestamp e) d = Some d'
        ∧ db w' = Some d' ∧ file w' = file w ∧ dbPath w' = dbPath w
        ∧ sessionId (state w') = sessionId (state w)
        ∧ currentTurnId (state w') = Some (last_insert_rowid d')
        ∧ currentTurnStartedAt (state w') = timestamp e.
Proof.
  intros Hrec Hd. unfold on_turn_start. rewrite Hrec.
  open_world w. subst wdb. unfold safeRun, getLastInsertId. simpl. eauto 10.
Qed.

Lemma on_turn_end_no_turn e now (w : World) :
  truthy_num (currentTurnId (state w)) = false → on_turn_end e now w = w.
Proof. intros H. unfold on_turn_end. rewrite H. by destruct (recording w). Qed.

Lemma on_turn_end_recorded e now (w : World) sid d tid :
  recording w = Some sid → db w = Some d → dbPath w ≠ "" →
  currentTurnId (state w) = Some tid → tid ≠ 0 →
  let w' := on_turn_end e now w in
  ∃ d1 d2 d',
    update_turn now (now - currentTurnStartedAt (state w)) (msg_provider (message e))
      (msg_model (message e)) (inputTokens e) (outputTokens e) (turnCost e)
      (stopReason (message e)) tid d = Some d1
    ∧ update_session_totals (inputTokens e) (outputTokens e) (turnCost e) sid d1 = Some d2
    ∧ db w' = Some d' ∧ file w' = Some d' ∧ dbPath w' = dbPath w ∧ state w' = state w
    ∧ sessions d' = sessions d2 ∧ turns d' = turns d2 ∧ tool_calls d' = tool_calls d2.
Proof.
  intros Hrec Hd Hp Htid Hnz. unfold on_turn_end. rewrite Hrec, Htid.
  assert (truthy_num (Some tid) = true) as -> by (by destruct tid).
  open_world w. subst wdb. unfold persistDatabase, safeRun. simpl.
  fold (inputTokens e) (outputTokens e) (turnCost e).
  destruct (content (message e)) as [items|]; simpl.
  - destruct (String.eqb (extractTextContent items) ""); simpl; path_set;
      eexists _, _, _; split_and!; reflexivity.
  - path_set. eexists _, _, _; split_and!; reflexivity.
Qed.

Lemma on_tool_call_recorded e now (w : World) sid d :
  recording w = Some sid → db w = Some d →
  let w' := on_tool_call e now w in
  let d' := default d (insert_tool_call (tc_toolCallId e) sid (currentTurnId (state w))
                         (toolName e) (input_json e) now d) in
  db w' = Some d' ∧ file w' = file w ∧ dbPath w' = dbPath w
  ∧ sessionId (state w') = sessionId (state w)
  ∧ currentTurnId (state w') = currentTurnId (state w)
  ∧ currentTurnStartedAt (state w') = currentTurnStartedAt (state w).
Proof.
  intros Hrec Hd. unfold on_tool_call. rewrite Hrec.
  open_world w. subst wdb. unfold safeRun. simpl.
  destruct (insert_tool_call _ _ _ _ _ _ _); simpl; eauto 10.
Qed.

Lemma on_tool_result_recorded e now (w : World) sid d :
  recording w = Some sid → db w = Some d → dbPath w ≠ "" →
  let w' := on_tool_result e now w in
  ∃ d', update_tool_call now
          (now - nullish (toolCallStarts (state w) !! tr_toolCallId e) now)
          (if tr_isError e then 1 else 0) (extractTextContent (tr_content e))
          (tr_toolCallId e) d = Some d'
        ∧ db w' = Some d' ∧ file w' = Some d' ∧ dbPath w' = dbPath w
        ∧ sessionId (state w') = sessionId (state w)
        ∧ currentTurnId (state w') = currentTurnId (state w)
        ∧ currentTurnStartedAt (state w') = currentTurnStartedAt (state w).
Proof.
  intros Hrec Hd Hp. unfold on_tool_result. rewrite Hrec.
  open_world w. subst wdb. unfold persistDatabase, safeRun. simpl. path_set. eauto 10.
Qed.

Lemma store_at_wf (w : World) : wf_world w → wf_db (store_at w).
Proof.
  intros [Hdb Hfile]. unfold store_at.
  destruct (db w) as [d|]; [by destruct (Hdb d eq_refl) as (_ & ? & _)|].
  destruct (file w) as [f|]; [|split; constructor].
  destruct (Hfile f eq_refl) as [Hs Ht]. by split.
Qed.

Lemma store_at_turns_NoDup (w : World) : wf_world w → NoDup (t_id <$> turns (store_at w)).
Proof. by intros [_ ?]%store_at_wf. Qed.

Lemma wf_world_path (w : World) : wf_world w → ∀ d, db w = Some d → dbPath w ≠ "".
Proof. intros [Hdb _] d Hd. by destruct (Hdb d Hd). Qed.

Lemma insert_turn_ids sid idx ts (d d' : Database) :
  insert_turn sid idx ts d = Some d' →
  (t_id <$> turns d') = (t_id <$> turns d) ++ [last_insert_rowid d']
  ∧ (last_insert_rowid d' ∉ (t_id <$> turns d)) ∧ 1 <= last_insert_rowid d'.
Proof.
  intros [= <-]. simpl. rewrite fmap_app. split_and!; [done| |].
  - apply next_rowid_fresh.
  - apply next_rowid_pos.
Qed.

(** Each statement keeps the primary keys unique. *)

Lemma wf_db_ext (d d' : Database) :
  sessions d' = sessions d → turns d' = turns d → wf_db d → wf_db d'.
Proof. unfold wf_db. by intros -> ->. Qed.

Lemma filter_other_ids (sid : string) (l : list session_row) :
  NoDup (s_id <$> l) →
  NoDup (s_id <$> List.filter (fun r => negb (String.eqb (s_id r) sid)) l)
  ∧ sid ∉ (s_id <$> List.filter (fun r => negb (String.eqb (s_id r) sid)) l).
Proof.
  induction l as [|r l IH]; simpl; intros Hnd; [split; [constructor|by intros ?%elem_of_nil]|].
  apply NoDup_cons in Hnd as [Hr Hnd]. destruct (IH Hnd) as [IH1 IH2].
  destruct (String.eqb_spec (s_id r) sid) as [Heq|Hne]; simpl; [done|].
  split.
  - apply NoDup_cons. split; [|done].
    intros (r' & Heq & Hin)%list_elem_of_fmap. apply Hr.
    apply list_elem_of_fmap. exists r'. split; [done|].
    apply list_elem_of_In, List.filter_In in Hin as [Hin _]. by apply list_elem_of_In.
  - intros [Heq|Hin]%elem_of_cons; [done|by apply IH2].
Qed.

Lemma insert_or_replace_session_wf sid sf dir ts mp mi (d d' : Database) :
  insert_or_replace_session sid sf dir ts mp mi d = Some d' → wf_db d → wf_db d'.
Proof.
  destruct sf as [sf|]; [|done]. intros [= <-] [Hs Ht]. split; simpl; [|done].
  destruct (filter_other_ids sid _ Hs) as [Hnd Hfresh].
  rewrite fmap_app. simpl. apply NoDup_app. split_and!; [done| |apply NoDup_singleton].
  intros x Hx ->%list_elem_of_singleton. done.
Qed.

Lemma update_session_ended_ids ts sid (d d' : Database) :
  update_session_ended ts sid d = Some d' →
  s_id <$> sessions d' = s_id <$> sessions d.
Proof.
  intros [= <-]. simpl. rewrite <- list_fmap_compose. apply list_fmap_ext.
  intros i r _. simpl. by destruct (String.eqb (s_id r) sid).
Qed.

Lemma update_session_totals_ids i o (c : cost) sid (d d' : Database) :
  update_session_totals i o c sid d = Some d' →
  s_id <$> sessions d' = s_id <$> sessions d.
Proof.
  intros [= <-]. simpl. rewrite <- list_fmap_compose. apply list_fmap_ext.
  intros j r _. simpl. by destruct (String.eqb (s_id r) sid).
Qed.

Lemma handle_wf (ev : Event) (w : World) : wf_world w → wf_world (handle ev w).
Proof.
  intros Hwf. pose proof Hwf as [Hdb Hfile].
  destruct ev as [ctx ok now|e now|now|e|e now|e now|e now|e now].
  - simpl. destruct (snd (initDatabase ok w)) eqn:Hopen.
    + destruct (on_session_start_stored ctx ok now w (wf_world_path w Hwf) Hopen)
        as (Hdb' & Hf' & Hp' & _ & Hct).
      set (d' := default _ _) in *.
      assert (wf_db d') as Hwf'.
      { subst d'. destruct (insert_or_replace_session _ _ _ _ _ _ _) as [d'|] eqn:Hd'; simpl.
        - by apply (insert_or_replace_session_wf _ _ _ _ _ _ _ _ Hd'), store_at_wf.
        - by apply store_at_wf. }
      split; intros ? Heq; rewrite ?Hdb', ?Hf' in Heq; injection Heq as <-; [|done].
      split_and!; [done..|]. intros tid. rewrite Hct. done.
    + destruct (on_session_start_failed ctx ok now w) as (Hdb' & Hf' & _).
      { unfold store_opens. by rewrite Hopen. }
      split; intros ? Heq; rewrite ?Hdb', ?Hf' in Heq; [done|by apply Hfile].
  - destruct (recording w) as [sid|] eqn:Hrec; [|by rewrite not_recording_idle]. simpl.
    destruct (recording_db w sid Hrec) as (d & Hd & _).
    destruct (Hdb d Hd) as (Hp & Hwfd & Hct).
    destruct (on_input_recorded e now w sid d Hrec Hd Hp) as (d' & [= Hd'] & Hdb' & Hf' & Hp' & Hst).
    simpl in *. assert (wf_db d') as Hwf' by (by apply (wf_db_ext d); rewrite <- ?Hd').
    split; intros ? Heq; rewrite ?Hdb', ?Hf', ?Hp', ?Hst in *; injection Heq as <-; [|done].
    split_and!; [done..|]. by rewrite <- Hd'.
  - destruct (recording w) as [sid|] eqn:Hrec; [|by rewrite not_recording_idle]. simpl.
    destruct (recording_db w sid Hrec) as (d & Hd & _).
    destruct (Hdb d Hd) as (Hp & [Hs Ht] & Hct).
    destruct (on_session_shutdown_recorded now w sid d Hrec Hd Hp) as (d' & Hd' & Hdb' & Hf' & _).
    simpl in *. pose proof (update_session_ended_ids _ _ _ _ Hd') as Hids.
    injection Hd' as Hd'.
    split; intros ? Heq; rewrite ?Hdb', ?Hf' in *; [done|]. injection Heq as <-.
    split; [by rewrite Hids|by rewrite <- Hd'].
  - destruct (recording w) as [sid|] eqn:Hrec; [|by rewrite not_recording_idle]. simpl.
    destruct (recording_db w sid Hrec) as (d & Hd & _).
    destruct (Hdb d Hd) as (Hp & [Hs Ht] & Hct).
    destruct (on_turn_start_recorded e w sid d Hrec Hd) as (d' & Hd' & Hdb' & Hf' & Hp' & _ & Hct' & _).
    simpl in *. pose proof (insert_turn_ids _ _ _ _ _ Hd') as (Hids & Hfresh & _).
    injection Hd' as Hd'.
    split; intros ? Heq; rewrite ?Hdb', ?Hf', ?Hp' in *; [|by apply Hfile].
    injection Heq as <-. split_and!; [done| |].
    + split; [by rewrite <- Hd'|]. rewrite Hids. by apply NoDup_snoc_fresh.
    + intros tid. rewrite Hct', Hids. intros [= <-].
      apply elem_of_app. right. by apply list_elem_of_singleton.
  - destruct (recording w) as [sid|] eqn:Hrec;
      [|by rewrite not_recording_idle]. simpl.
    destruct (truthy_num (currentTurnId (state w))) eqn:Htr;
      [|by rewrite on_turn_end_no_turn].
    destruct (currentTurnId (state w)) as [tid|] eqn:Htid; [|done].
    assert (tid ≠ 0) as Hnz by (by intros ->).
    destruct (recording_db w sid Hrec) as (d & Hd & _).
    destruct (Hdb d Hd) as (Hp & [Hs Ht] & Hct).
    destruct (on_turn_end_recorded e now w sid d tid Hrec Hd Hp Htid Hnz)
      as (d1 & d2 & d' & Hd1 & Hd2 & Hdb' & Hf' & Hp' & Hst & Hs' & Ht' & _).
    simpl in *.
    pose proof (update_turn_ids _ _ _ _ _ _ _ _ _ _ _ Hd1) as Hids1.
    pose proof (update_session_totals_ids _ _ _ _ _ _ Hd2) as Hids2.
    injection Hd1 as Hd1. injection Hd2 as Hd2.
    assert (t_id <$> turns d' = t_id <$> turns d) as Hids.
    { rewrite Ht', <- Hd2. simpl. done. }
    assert (s_id <$> sessions d' = s_id <$> sessions d) as Hsids.
    { rewrite Hs', Hids2, <- Hd1. done. }
    assert (wf_db d') as Hwf' by (unfold wf_db; by rewrite Hids, Hsids).
    split; intros ? Heq; rewrite ?Hdb', ?Hf', ?Hp', ?Hst in *; injection Heq as <-; [|done].
    rewrite Hids. split_and!; [done..|].
    intros tid'. rewrite Htid. intros [= <-]. by apply Hct.
  - destruct (recording w) as [sid|] eqn:Hrec;
      [|by rewrite not_recording_idle]. simpl.
    destruct (recording_db w sid Hrec) as (d & Hd & _).
    destruct (Hdb d Hd) as (Hp & Hwfd & Hct).
    destruct (on_tool_call_recorded e now w sid d Hrec Hd) as (Hdb' & Hf' & Hp' & _ & Hct' & _).
    simpl in *.
    set (d' := default d (insert_tool_call (tc_toolCallId e) sid (currentTurnId (state w))
                            (toolName e) (input_json e) now d)) in *.
    assert (sessions d' = sessions d ∧ turns d' = turns d) as [Hs' Ht'].
    { subst d'. unfold insert_tool_call. by destruct (existsb _ _). }
    split; intros ? Heq; rewrite ?Hdb', ?Hf', ?Hp', ?Hct' in *; [|by apply Hfile].
    injection Heq as <-. rewrite Ht'. split_and!; [done| |done].
    by apply (wf_db_ext d).
  - destruct (recording w) as [sid|] eqn:Hrec;
      [|by rewrite not_recording_idle]. simpl.
    destruct (recording_db w sid Hrec) as (d & Hd & _).
    destruct (Hdb d Hd) as (Hp & Hwfd & Hct).
    destruct (on_tool_result_recorded e now w sid d Hrec Hd Hp)
      as (d' & [= Hd'] & Hdb' & Hf' & Hp' & _ & Hct' & _).
    simpl in *. assert (wf_db d') as Hwf' by (by apply (wf_db_ext d); rewrite <- ?Hd').
    split; intros ? Heq; rewrite ?Hdb', ?Hf', ?Hp', ?Hct' in *; injection Heq as <-; [|done].
    split_and!; [done..|]. by rewrite <- Hd'.
  - destruct (recording w) as [sid|] eqn:Hrec;
      [|by rewrite not_recording_idle]. simpl.
    destruct (recording_db w sid Hrec) as (d & Hd & _).
    destruct (Hdb d Hd) as (Hp & Hwfd & Hct).
    destruct (on_model_select_recorded e now w sid d Hrec Hd Hp)
      as (d' & [= Hd'] & Hdb' & Hf' & Hp' & Hst).
    simpl in *. assert (wf_db d') as Hwf' by (by apply (wf_db_ext d); rewrite <- ?Hd').
    split; intros ? Heq; rewrite ?Hdb', ?Hf', ?Hp', ?Hst in *; injection Heq as <-; [|done].
    split_and!; [done..|]. by rewrite <- Hd'.
Qed.

Lemma run_app (evs1 evs2 : list Event) (w : World) :
  run (evs1 ++ evs2) w = run evs2 (run evs1 w).
Proof. apply fold_left_app. Qed.

Lemma run_wf (evs : list Event) (w : World) : wf_world w → wf_world (run evs w).
Proof.
  revert w. induction evs as [|ev evs IH]; intros w Hwf; [done|].
  simpl. apply IH. by apply handle_wf.
Qed.

(** Every world the recorder can be in, whatever events came before. *)
Lemma reachable_wf (history : list Event) : wf_world (run history initial_world).
Proof. apply run_wf, initial_world_wf. Qed.

Lemma state_safeRun (stmt : Database → option Database) (w : World) :
  state (safeRun stmt w) = state w.
Proof. unfold safeRun. destruct (db w) as [d|]; [|done]. by destruct (stmt d). Qed.

Lemma state_persistDatabase (w : World) : state (persistDatabase w) = state w.
Proof.
  unfold persistDatabase. destruct (db w); [|done]. by destruct (String.eqb (dbPath w) "").
Qed.

(** The current turn is a row identifier, which AUTOINCREMENT makes
    positive: the guard [!state.currentTurnId] of the [turn_end]
    handler only tells whether a current turn is set. *)
Lemma handle_current_turn (ev : Event) (w : World) :
  wf_world w →
  (∀ tid, currentTurnId (state w) = Some tid → 1 <= tid) →
  ∀ tid, currentTurnId (state (handle ev w)) = Some tid → 1 <= tid.
Proof.
  intros Hwf Hpos. pose proof Hwf as [Hdb _].
  destruct ev as [ctx ok now|e now|now|e|e now|e now|e now|e now]; simpl.
  - destruct (snd (initDatabase ok w)) eqn:Hopen.
    + destruct (on_session_start_stored ctx ok now w (wf_world_path w Hwf) Hopen)
        as (_ & _ & _ & _ & Hct).
      intros tid. by rewrite Hct.
    + destruct (on_session_start_failed ctx ok now w) as (_ & _ & Hst).
      { unfold store_opens. by rewrite Hopen. }
      intros tid. rewrite Hst. apply Hpos.
  - unfold on_input. destruct (recording w); [|done].
    by rewrite state_persistDatabase, state_safeRun.
  - unfold on_session_shutdown. destruct (recording w); [|done]. simpl.
    by rewrite state_persistDatabase, state_safeRun.
  - destruct (recording w) as [sid|] eqn:Hrec;
      [|unfold on_turn_start; by rewrite Hrec].
    destruct (recording_db w sid Hrec) as (d & Hd & _).
    destruct (on_turn_start_recorded e w sid d Hrec Hd) as (d' & Hd' & _ & _ & _ & _ & Hct & _).
    destruct (insert_turn_ids _ _ _ _ _ Hd') as (_ & _ & Hone).
    intros tid. rewrite Hct. by intros [= <-].
  - unfold on_turn_end. destruct (recording w); [|done].
    destruct (negb _); [done|]. rewrite state_persistDatabase.
    destruct (content (message e)) as [items|]; [|by rewrite !state_safeRun].
    destruct (String.eqb _ ""); by rewrite !state_safeRun.
  - unfold on_tool_call. destruct (recording w); [|done]. by rewrite state_safeRun.
  - unfold on_tool_result. destruct (recording w); [|done].
    by rewrite state_persistDatabase, state_safeRun.
  - unfold on_model_select. destruct (recording w); [|done].
    by rewrite state_persistDatabase, state_safeRun.
Qed.

Lemma current_turn_set (history : list Event) (tid : Z) :
  currentTurnId (state (run history initial_world)) = Some tid → tid ≠ 0.
Proof.
  assert (∀ (evs : list Event) (w : World),
            wf_world w →
            (∀ tid, currentTurnId (state w) = Some tid → 1 <= tid) →
            ∀ tid, currentTurnId (state (run evs w)) = Some tid → 1 <= tid) as Hrun.
  { induction evs as [|ev evs IH]; intros w Hwf Hpos; [done|].
    simpl. apply IH; [by apply handle_wf|by apply handle_current_turn]. }
  intros Htid. apply (Hrun history initial_world initial_world_wf) in Htid; [lia|done].
Qed.

(** *** Session start is an upsert *)

Lemma filter_replaced (sid : string) (l : list session_row) (row : session_row) :
  s_id row = sid →
  List.filter (fun r => String.eqb (s_id r) sid)
    (List.filter (fun r => negb (String.eqb (s_id r) sid)) l ++ [row]) = [row].
Proof.
  intros Hrow. rewrite List.filter_app. simpl. rewrite Hrow, String.eqb_refl.
  replace (List.filter _ (List.filter _ l)) with (@nil session_row); [done|].
  induction l as [|r l IH]; simpl; [done|].
  destruct (String.eqb (s_id r) sid) eqn:E; simpl; [done|]. by rewrite E.
Qed.

Lemma session_start_row ctx import_ok now (w : World) :
  (∀ d, db w = Some d → dbPath w ≠ "") →
  store_opens import_ok w →
  is_Some (getSessionFile ctx) →
  let w' := on_session_start ctx import_ok now w in
  ∃ d' row,
    db w' = Some d' ∧ file w' = Some d' ∧ dbPath w' ≠ ""
    ∧ sessionId (state w') = Some (getSessionId ctx)
    ∧ currentTurnId (state w') = None
    ∧ turns d' = turns (store_at w)
    ∧ sessions_with_id (getSessionId ctx) d' = [row]
    ∧ s_session_file row = getSessionFile ctx ∧ s_cwd row = cwd ctx
    ∧ s_started_at row = now ∧ s_ended_at row = None
    ∧ s_model_provider row = (provider <$> model ctx)
    ∧ s_model_id row = (id <$> model ctx)
    ∧ s_total_input_tokens row = 0 ∧ s_total_output_tokens row = 0
    ∧ s_total_cost row = cost_zero.
Proof.
  intros Hp Hopen Hsf.
  destruct (on_session_start_opened ctx import_ok now w Hp Hopen Hsf)
    as (d' & Hd' & Hdb' & Hf' & Hp' & Hsid & Hct).
  destruct Hsf as [sf Hsf]. unfold insert_or_replace_session in Hd'. rewrite Hsf in *.
  injection Hd' as Hd'. simpl. eexists d', _.
  split_and!; try done;
    [by rewrite <- Hd'
    |unfold sessions_with_id; rewrite <- Hd'; simpl; by apply filter_replaced
    |done..].
Qed.

Lemma store_opens_again ctx ok1 now ok2 (w : World) :
  store_opens ok2 (on_session_start ctx ok1 now w) → store_opens ok1 w.
Proof.
  open_world w.
  unfold on_session_start, initDatabase, loadSqlJs, persistDatabase, safeRun.
  destruct wdb as [d|]; simpl; [done|].
  destruct SQL0, sqlJsAvailable0, ok1; simpl; try done.
Qed.

Lemma at_most_one_with_id (sid : string) (l : list session_row) :
  NoDup (s_id <$> l) →
  (length (List.filter (fun r => String.eqb (s_id r) sid) l) <= 1)%nat.
Proof.
  induction l as [|r l IH]; simpl; intros Hnd; [lia|].
  apply NoDup_cons in Hnd as [Hr Hnd].
  destruct (String.eqb_spec (s_id r) sid) as [Heq|Hne]; [|by apply IH].
  replace (List.filter _ l) with (@nil session_row); [simpl; lia|].
  clear IH Hnd. induction l as [|r' l IH]; simpl; [done|].
  apply not_elem_of_cons in Hr as [Hne Hr].
  destruct (String.eqb_spec (s_id r') sid) as [Heq'|]; [congruence|by apply IH].
Qed.

(** Replaying a session start with the same identifier replaces the
    session row rather than adding one: whatever happened before, the
    persisted database never holds two [sessions] rows with that
    identifier; and when the store opens and both starts come with a
    session file, there is exactly one such row once the first start
    has been processed, and exactly one after the second, in the open
    database and in the file, carrying the values of the second start
    with the column defaults everywhere else. *)
Theorem session_start_replay_replaces
    (history : list Event) (ctx1 ctx2 : ExtensionContext) (ok1 ok2 : bool) (now1 now2 : Z) :
  getSessionId ctx2 = getSessionId ctx1 →
  let w1 := run (history ++ [session_start ctx1 ok1 now1]) initial_world in
  let w2 := handle (session_start ctx2 ok2 now2) w1 in
  (∀ d, file w2 = Some d → (length (sessions_with_id (getSessionId ctx1) d) <= 1)%nat)
  ∧ (store_opens ok2 w1 →
     is_Some (getSessionFile ctx1) → is_Some (getSessionFile ctx2) →
     (∃ d1 row1, db w1 = Some d1 ∧ sessions_with_id (getSessionId ctx1) d1 = [row1])
     ∧ ∃ d2 row2,
         db w2 = Some d2 ∧ file w2 = Some d2
         ∧ sessions_with_id (getSessionId ctx1) d2 = [row2]
         ∧ s_session_file row2 = getSessionFile ctx2 ∧ s_cwd row2 = cwd ctx2
         ∧ s_started_at row2 = now2 ∧ s_ended_at row2 = None
         ∧ s_total_input_tokens row2 = 0 ∧ s_total_output_tokens row2 = 0
         ∧ s_total_cost row2 = cost_zero).
Proof.
  intros Hid w1 w2. subst w1 w2. rewrite run_app in *. simpl in *.
  set (w0 := run history initial_world) in *.
  pose proof (reachable_wf history) as Hwf0. fold w0 in Hwf0.
  pose proof (handle_wf (session_start ctx1 ok1 now1) w0 Hwf0) as Hwf1. simpl in Hwf1.
  pose proof (handle_wf (session_start ctx2 ok2 now2) _ Hwf1) as Hwf2. simpl in Hwf2.
  split.
  - intros d Hd. destruct Hwf2 as [_ Hfile]. destruct (Hfile d Hd) as [Hs _].
    by apply at_most_one_with_id.
  - intros Hopen2 Hsf1 Hsf2. split.
    + apply store_opens_again in Hopen2.
      destruct (session_start_row ctx1 ok1 now1 w0 (wf_world_path w0 Hwf0) Hopen2 Hsf1)
        as (d1 & row1 & Hdb & _ & _ & _ & _ & _ & Hone & _).
      eauto.
    + destruct (session_start_row ctx2 ok2 now2 _ (wf_world_path _ Hwf1) Hopen2 Hsf2)
        as (d2 & row2 & Hdb & Hf & _ & _ & _ & _ & Hone & ? & ? & ? & ? & _ & _ & ? & ? & ?).
      rewrite Hid in Hone. eexists d2, row2. split_and!; done.
Qed.

(** *** An end event completes the row its start event created *)

Lemma update_turn_In a b c d0 e f g h tid (d d' : Database) (r : turn_row) :
  update_turn a b c d0 e f g h tid d = Some d' →
  r ∈ turns d' → t_id r = tid → t_ended_at r = Some a
  ∧ ∃ r0, r0 ∈ turns d ∧ t_id r0 = tid ∧ t_started_at r = t_started_at r0
          ∧ t_session_id r = t_session_id r0.
Proof.
  intros [= <-]. simpl. intros (r0 & -> & Hr0)%list_elem_of_fmap Hid.
  destruct (t_id r0 =? tid) eqn:E; simpl in *.
  - split; [done|]. exists r0. split_and!; try done.
  - lia.
Qed.

Lemma update_tool_call_In a b c res cid (d d' : Database) (r : tool_call_row) :
  update_tool_call a b c res cid d = Some d' →
  r ∈ tool_calls d' → tc_id r = cid → tc_ended_at r = Some a ∧ tc_result_text r = Some res
  ∧ ∃ r0, r0 ∈ tool_calls d ∧ tc_id r0 = cid ∧ tc_started_at r = tc_started_at r0.
Proof.
  intros [= <-]. simpl. intros (r0 & -> & Hr0)%list_elem_of_fmap Hid.
  destruct (String.eqb_spec (tc_id r0) cid); simpl in *.
  - split_and!; [done..|]. exists r0. split_and!; done.
  - done.
Qed.

Lemma update_tool_call_ids a b c res cid (d d' : Database) :
  update_tool_call a b c res cid d = Some d' →
  tc_id <$> tool_calls d' = tc_id <$> tool_calls d.
Proof.
  intros [= <-]. simpl. rewrite <- list_fmap_compose. apply list_fmap_ext.
  intros i r _. simpl. by destruct (String.eqb (tc_id r) cid).
Qed.

(** C2, amended. In every world the recorder can reach in which it is
    recording (the store is open and a session identifier is set),
    processing a turn end while a current turn is set, respectively the
    result event of a tool call that has a row, leaves no row for the
    current turn or for that call with a start but no end: such a row
    exists, and every one has [ended_at] set to the time of the end
    event next to the [started_at] it had, in the open database and in
    the file. *)
Theorem end_event_fills_end_fields (history : list Event) (sid : string) (d : Database) :
  let w := run history initial_world in
  recording w = Some sid →
  db w = Some d →
  (∀ (e : TurnEndEvent) (now tid : Z),
      currentTurnId (state w) = Some tid →
      ∃ d', db (handle (turn_end e now) w) = Some d'
            ∧ file (handle (turn_end e now) w) = Some d'
            ∧ (∃ r, r ∈ turns d' ∧ t_id r = tid)
            ∧ ∀ r, r ∈ turns d' → t_id r = tid →
                   t_ended_at r = Some now
                   ∧ ∃ r0, r0 ∈ turns d ∧ t_id r0 = tid ∧ t_started_at r = t_started_at r0)
  ∧ (∀ (e : ToolResultEvent) (now : Z) (r0 : tool_call_row),
      r0 ∈ tool_calls d → tc_id r0 = tr_toolCallId e →
      ∃ d', db (handle (tool_result e now) w) = Some d'
            ∧ file (handle (tool_result e now) w) = Some d'
            ∧ (∃ r, r ∈ tool_calls d' ∧ tc_id r = tr_toolCallId e)
            ∧ ∀ r, r ∈ tool_calls d' → tc_id r = tr_toolCallId e →
                   tc_ended_at r = Some now
                   ∧ ∃ r1, r1 ∈ tool_calls d ∧ tc_id r1 = tr_toolCallId e
                           ∧ tc_started_at r = tc_started_at r1).
Proof.
  intros w Hrec Hd.
  pose proof (reachable_wf history) as Hwf. fold w in Hwf.
  destruct Hwf as [Hdb _]. destruct (Hdb d Hd) as (Hp & _ & Hct).
  split.
  - intros e now tid Htid. simpl. pose proof (current_turn_set history tid Htid) as Hnz.
    destruct (on_turn_end_recorded e now w sid d tid Hrec Hd Hp Htid Hnz)
      as (d1 & d2 & d' & Hd1 & [= Hd2] & Hdb' & Hf' & _ & _ & _ & Ht & _).
    simpl in *. exists d'. split_and!; [done..| |].
    + assert (tid ∈ (t_id <$> turns d')) as (r & -> & Hr)%list_elem_of_fmap; [|by eauto].
      rewrite Ht, <- Hd2. simpl. rewrite (update_turn_ids _ _ _ _ _ _ _ _ _ _ _ Hd1).
      by apply Hct.
    + intros r Hr Hid. rewrite Ht, <- Hd2 in Hr. simpl in Hr.
      destruct (update_turn_In _ _ _ _ _ _ _ _ _ _ _ _ Hd1 Hr Hid) as (? & r0 & ? & ? & ? & _).
      eauto.
  - intros e now r0 Hr0 Hid0. simpl.
    destruct (on_tool_result_recorded e now w sid d Hrec Hd Hp)
      as (d' & Hd' & Hdb' & Hf' & _).
    simpl in *. exists d'. split_and!; [done..| |].
    + assert (tr_toolCallId e ∈ (tc_id <$> tool_calls d'))
        as (r & -> & Hr)%list_elem_of_fmap; [|by eauto].
      rewrite (update_tool_call_ids _ _ _ _ _ _ _ Hd'), <- Hid0.
      by apply list_elem_of_fmap_2.
    + intros r Hr Hid.
      destruct (update_tool_call_In _ _ _ _ _ _ _ _ Hd' Hr Hid) as (? & _ & r1 & ? & ? & ?).
      eauto.
Qed.

(** *** Running totals *)

Lemma recording_intro (w : World) (d : Database) (sid : string) :
  db w = Some d → sessionId (state w) = Some sid → sid ≠ "" → recording w = Some sid.
Proof.
  unfold recording. intros -> -> Hne. by destruct sid.
Qed.

Lemma activity_frame (a : Activity) (w : World) (sid : string) (d : Database) :
  recording w = Some sid → db w = Some d → dbPath w ≠ "" →
  let w' := handle (activity_event a) w in
  ∃ d', db w' = Some d' ∧ dbPath w' = dbPath w ∧ recording w' = Some sid
        ∧ currentTurnId (state w') = currentTurnId (state w)
        ∧ currentTurnStartedAt (state w') = currentTurnStartedAt (state w)
        ∧ sessions d' = sessions d ∧ turns d' = turns d
        ∧ (file w' = Some d' ∨ file w' = file w).
Proof.
  intros Hrec Hd Hp. destruct (recording_db w sid Hrec) as (? & _ & Hsid & Hne).
  destruct a as [e now|e now|e now|e now]; simpl.
  - destruct (on_tool_call_recorded e now w sid d Hrec Hd) as (Hdb' & Hf' & Hp' & Hs' & Hct' & Hcs').
    simpl in *. eexists. split_and!; [done|done| |done|done| | |by right].
    + eapply recording_intro; [done|by rewrite Hs'|done].
    + unfold insert_tool_call. by destruct (existsb _ _).
    + unfold insert_tool_call. by destruct (existsb _ _).
  - destruct (on_tool_result_recorded e now w sid d Hrec Hd Hp)
      as (d' & [= Hd'] & Hdb' & Hf' & Hp' & Hs' & Hct' & Hcs').
    simpl in *. exists d'. split_and!; [done|done| |done|done| | |by left].
    + eapply recording_intro; [done|by rewrite Hs'|done].
    + by rewrite <- Hd'.
    + by rewrite <- Hd'.
  - destruct (on_input_recorded e now w sid d Hrec Hd Hp) as (d' & [= Hd'] & Hdb' & Hf' & Hp' & Hst).
    simpl in *. exists d'. rewrite Hst. split_and!; [done|done| |done|done| | |by left].
    + eapply recording_intro; [done|by rewrite Hst|done].
    + by rewrite <- Hd'.
    + by rewrite <- Hd'.
  - destruct (on_model_select_recorded e now w sid d Hrec Hd Hp)
      as (d' & [= Hd'] & Hdb' & Hf' & Hp' & Hst).
    simpl in *. exists d'. rewrite Hst. split_and!; [done|done| |done|done| | |by left].
    + eapply recording_intro; [done|by rewrite Hst|done].
    + by rewrite <- Hd'.
    + by rewrite <- Hd'.
Qed.

Lemma activity_between sid old done rows (a : Activity) (w : World) :
  between_turns sid old done rows w →
  between_turns sid old done rows (handle (activity_event a) w).
Proof.
  intros (d & f & row & Hd & Hf & Hp & Hrec & Hsf & Htf & Ht & Hnd & Hone & Htot & Hus & Hall).
  destruct (activity_frame a w sid d Hrec Hd Hp)
    as (d' & Hd' & Hp' & Hrec' & _ & _ & Hs & Htt & Hfile).
  assert (sessions_with_id sid d' = [row]) as Hone'.
  { unfold sessions_with_id in *. by rewrite Hs. }
  destruct Hfile as [Hfile|Hfile].
  - exists d', d', row. rewrite Hp', Htt. split_and!; done.
  - exists d', f, row. rewrite Hp', Htt, Hs, Hfile. split_and!; done.
Qed.

Lemma activity_in_turn sid old done rows open (a : Activity) (w : World) :
  in_turn sid old done rows open w →
  in_turn sid old done rows open (handle (activity_event a) w).
Proof.
  intros (d & row & Hd & Hp & Hrec & Hct & Hnz & Hos & Ht & Hnd & Hone & Htot & Hus & Hall).
  destruct (activity_frame a w sid d Hrec Hd Hp)
    as (d' & Hd' & Hp' & Hrec' & Hct' & _ & Hs & Htt & _).
  exists d', row. rewrite Hp', Hct', Htt. unfold sessions_with_id in *. rewrite Hs.
  split_and!; done.
Qed.

Lemma activities_between sid old done rows (acts : list Activity) (w : World) :
  between_turns sid old done rows w →
  between_turns sid old done rows (run (activity_event <$> acts) w).
Proof.
  revert w. induction acts as [|a acts IH]; intros w Hw; [done|].
  simpl. by apply IH, activity_between.
Qed.

Lemma activities_in_turn sid old done rows open (acts : list Activity) (w : World) :
  in_turn sid old done rows open w →
  in_turn sid old done rows open (run (activity_event <$> acts) w).
Proof.
  revert w. induction acts as [|a acts IH]; intros w Hw; [done|].
  simpl. by apply IH, activity_in_turn.
Qed.

Lemma sum_tokens_snoc (l : list Z) (x : Z) :
  sum_tokens (l ++ [x]) = sqlite_add (sum_tokens l) x.
Proof. unfold sum_tokens. by rewrite fold_left_app. Qed.

Lemma sum_cost_snoc (l : list cost) (x : cost) :
  sum_cost (l ++ [x]) = cost_add (sum_cost l) x.
Proof. unfold sum_cost. by rewrite fold_left_app. Qed.

Lemma turn_start_opens sid old done rows (e : TurnStartEvent) (w : World) :
  between_turns sid old done rows w →
  ∃ open, in_turn sid old done rows open (handle (turn_start e) w).
Proof.
  intros (d & f & row & Hd & Hf & Hp & Hrec & Hsf & Htf & Ht & Hnd & Hone & Htot & Hus & Hall).
  destruct (recording_db w sid Hrec) as (? & _ & Hsid & Hne).
  destruct (on_turn_start_recorded e w sid d Hrec Hd) as (d' & Hd' & Hdb' & Hf' & Hp' & Hs' & Hct' & _).
  simpl in *. pose proof (insert_turn_ids _ _ _ _ _ Hd') as (Hids & Hfresh & Hpos).
  injection Hd' as Hd'.
  set (open := {| t_id := next_rowid (seq_turns d) (t_id <$> turns d); t_session_id := sid;
                  t_turn_index := turnIndex e; t_started_at := timestamp e;
                  t_ended_at := None; t_duration_ms := None; t_model_provider := None;
                  t_model_id := None; t_input_tokens := 0; t_output_tokens := 0;
                  t_cost := cost_zero; t_stop_reason := None |}) in *.
  assert (last_insert_rowid d' = t_id open) as Hlast by (by rewrite <- Hd').
  exists open, d', row. rewrite Hp', Hct', Hlast. split_and!; try done.
  - eapply recording_intro; [done|by rewrite Hs'|done].
  - rewrite <- Hlast. lia.
  - rewrite <- Hd'. simpl. by rewrite Ht, <- app_assoc.
  - rewrite Hids. by apply NoDup_snoc_fresh.
  - unfold sessions_with_id in *. by rewrite <- Hd'.
Qed.

Lemma update_turn_elsewhere a b c d0 e f g h tid (l : list turn_row) :
  tid ∉ (t_id <$> l) →
  (fun r => if t_id r =? tid
            then {| t_id := t_id r; t_session_id := t_session_id r;
                    t_turn_index := t_turn_index r; t_started_at := t_started_at r;
                    t_ended_at := Some a; t_duration_ms := Some b;
                    t_model_provider := c; t_model_id := d0;
                    t_input_tokens := e; t_output_tokens := f;
                    t_cost := g; t_stop_reason := h |}
            else r) <$> l = l.
Proof.
  induction l as [|r l IH]; intros Hnot; [done|].
  rewrite fmap_cons in *. apply not_elem_of_cons in Hnot as [Hne Hnot].
  rewrite IH by done. by destruct (Z.eqb_spec (t_id r) tid).
Qed.

Lemma totals_added (sid : string) (l : list session_row) (row : session_row) i o (c : cost) :
  List.filter (fun r => String.eqb (s_id r) sid) l = [row] →
  ∃ row', List.filter (fun r => String.eqb (s_id r) sid)
            ((fun r => if String.eqb (s_id r) sid
                       then {| s_rowid := s_rowid r; s_id := s_id r;
                               s_session_file := s_session_file r; s_cwd := s_cwd r;
                               s_started_at := s_started_at r; s_ended_at := s_ended_at r;
                               s_model_provider := s_model_provider r;
                               s_model_id := s_model_id r;
                               s_total_input_tokens := sqlite_add (s_total_input_tokens r) i;
                               s_total_output_tokens := sqlite_add (s_total_output_tokens r) o;
                               s_total_cost := cost_add (s_total_cost r) c |}
                       else r) <$> l) = [row']
          ∧ s_total_input_tokens row' = sqlite_add (s_total_input_tokens row) i
          ∧ s_total_output_tokens row' = sqlite_add (s_total_output_tokens row) o
          ∧ s_total_cost row' = cost_add (s_total_cost row) c.
Proof.
  revert row. induction l as [|r l IH]; simpl; intros row Hone; [done|].
  destruct (String.eqb (s_id r) sid) eqn:E; simpl; rewrite E.
  - injection Hone as -> Hnil. eexists. split; [f_equal|done].
    clear IH. induction l as [|r l IH]; simpl in *; [done|].
    destruct (String.eqb (s_id r) sid) eqn:E'; [done|]. simpl. rewrite E'. by apply IH.
  - by apply IH.
Qed.

Lemma turn_end_closes sid old done rows open (t : Turn) (w : World) :
  in_turn sid old done rows open w →
  ∃ closed, between_turns sid old (done ++ [t]) (rows ++ [closed])
              (handle (turn_end (turn_ended t) (turn_ended_now t)) w).
Proof.
  intros (d & row & Hd & Hp & Hrec & Hct & Hnz & Hos & Ht & Hnd & Hone & Htot & Hus & Hall).
  destruct (on_turn_end_recorded (turn_ended t) (turn_ended_now t) w sid d (t_id open)
              Hrec Hd Hp Hct Hnz)
    as (d1 & d2 & d' & [= Hd1] & [= Hd2] & Hdb' & Hf' & Hp' & Hst & Hs' & Ht' & _).
  simpl in *.
  set (closed := {| t_id := t_id open; t_session_id := t_session_id open;
                    t_turn_index := t_turn_index open; t_started_at := t_started_at open;
                    t_ended_at := Some (turn_ended_now t);
                    t_duration_ms := Some (turn_ended_now t - currentTurnStartedAt (state w));
                    t_model_provider := msg_provider (message (turn_ended t));
                    t_model_id := msg_model (message (turn_ended t));
                    t_input_tokens := inputTokens (turn_ended t);
                    t_output_tokens := outputTokens (turn_ended t);
                    t_cost := turnCost (turn_ended t);
                    t_stop_reason := stopReason (message (turn_ended t)) |}).
  assert (turns d' = old ++ rows ++ [closed]) as Hturns.
  { rewrite Ht', <- Hd2. simpl. rewrite <- Hd1. simpl. rewrite Ht.
    rewrite Ht, app_assoc, fmap_app in Hnd. apply NoDup_app in Hnd as (_ & Hfresh & _).
    rewrite app_assoc, fmap_app. simpl. rewrite Z.eqb_refl.
    rewrite update_turn_elsewhere; [by rewrite <- app_assoc|].
    intros Hin. apply (Hfresh _ Hin). simpl. apply list_elem_of_singleton. done. }
  destruct (totals_added sid (sessions d1) row (inputTokens (turn_ended t))
              (outputTokens (turn_ended t)) (turnCost (turn_ended t)))
    as (row' & Hone' & Hi & Ho & Hc).
  { unfold sessions_with_id in Hone. by rewrite <- Hd1. }
  exists closed, d', d', row'. rewrite Hp'. split_and!; try done.
  - eapply recording_intro; [done| |].
    + rewrite Hst. by destruct (recording_db w sid Hrec) as (? & _ & ? & _).
    + by destruct (recording_db w sid Hrec) as (? & _ & _ & ?).
  - rewrite Hturns, !fmap_app. rewrite Ht, !fmap_app in Hnd. done.
  - unfold sessions_with_id. rewrite Hs', <- Hd2. done.
  - destruct Htot as (Hti & Hto & Htc). unfold totals_match.
    rewrite !fmap_app. simpl. rewrite !sum_tokens_snoc, sum_cost_snoc.
    rewrite Hi, Ho, Hc, Hti, Hto, Htc. done.
  - rewrite !fmap_app. by rewrite Hus.
  - apply Forall_app. split; [done|]. by repeat constructor.
Qed.

Lemma turn_between sid old done rows (t : Turn) (w : World) :
  between_turns sid old done rows w →
  ∃ closed, between_turns sid old (done ++ [t]) (rows ++ [closed]) (run (turn_events t) w).
Proof.
  intros Hw. unfold turn_events. simpl.
  destruct (turn_start_opens sid old done rows (turn_started t) w Hw) as (open & Hopen).
  rewrite run_app. simpl.
  apply (activities_in_turn _ _ _ _ _ (turn_during t)) in Hopen.
  destruct (turn_end_closes sid old done rows open t _ Hopen) as (closed & Hclosed).
  exists closed. by apply activities_between.
Qed.

Lemma turns_between sid old (ts : list Turn) : ∀ done rows (w : World),
  between_turns sid old done rows w →
  ∃ rows', between_turns sid old (done ++ ts) (rows ++ rows')
             (run (concat (turn_events <$> ts)) w).
Proof.
  induction ts as [|t ts IH]; intros done rows w Hw; simpl.
  - exists []. by rewrite !app_nil_r.
  - rewrite run_app.
    destruct (turn_between sid old done rows t w Hw) as (closed & Hclosed).
    destruct (IH _ _ _ Hclosed) as (rows' & Hrows').
    exists (closed :: rows'). by rewrite <- !app_assoc in Hrows'.
Qed.

Lemma session_start_between ctx import_ok now (w : World) :
  wf_world w → getSessionId ctx ≠ "" → store_opens import_ok w →
  is_Some (getSessionFile ctx) →
  between_turns (getSessionId ctx) (turns (store_at w)) [] []
    (handle (session_start ctx import_ok now) w).
Proof.
  intros Hwf Hne Hopen Hsf. simpl.
  destruct (session_start_row ctx import_ok now w (wf_world_path w Hwf) Hopen Hsf)
    as (d' & row & Hdb & Hf & Hp & Hsid & _ & Ht & Hone & _ & _ & _ & _ & _ & _ & Hi & Ho & Hc).
  exists d', d', row. rewrite app_nil_r. split_and!; try done.
  - by eapply recording_intro.
  - rewrite Ht. by apply store_at_turns_NoDup.
Qed.

Lemma run_idle (evs : list Event) (w : World) :
  recording w = None →
  Forall (λ ev, ∀ ctx ok now, ev ≠ session_start ctx ok now) evs →
  run evs w = w.
Proof.
  intros Hrec Hevs. induction Hevs as [|ev evs Hev _ IH]; [done|].
  simpl. by rewrite not_recording_idle.
Qed.

Lemma no_start_after_start (before : list Activity) (ts : list Turn) :
  Forall (λ ev, ∀ ctx ok now, ev ≠ session_start ctx ok now)
    ((activity_event <$> before) ++ concat (turn_events <$> ts)).
Proof.
  assert (∀ acts : list Activity,
            Forall (λ ev, ∀ ctx ok now, ev ≠ session_start ctx ok now)
              (activity_event <$> acts)) as Hacts.
  { intros acts. apply Forall_fmap, Forall_true. by intros []. }
  apply Forall_app. split; [apply Hacts|].
  induction ts as [|t ts IH]; simpl; [constructor|].
  constructor; [done|]. apply Forall_app. split; [|exact IH].
  apply Forall_app. split; [apply Hacts|].
  constructor; [done|apply Hacts].
Qed.

Lemma sqlite_add_exact (total n : Z) :
  0 <= total < 2 ^ 62 → 0 <= n < 2 ^ 31 → sqlite_add total n = total + n.
Proof.
  intros Ht Hn. unfold sqlite_add.
  assert (int64 total && int32 n && int64 (total + n) = true) as ->; [|done].
  unfold int64, int32. rewrite !andb_true_iff, !Z.leb_le, !Z.ltb_lt. lia.
Qed.

(** Token counts that are 32-bit integers are added exactly, for as many
    turns as a session can have. *)
Lemma sum_tokens_exact (l : list Z) :
  Forall (λ n, 0 <= n < 2 ^ 31) l → Z.of_nat (length l) <= 2 ^ 31 →
  sum_tokens l = fold_left Z.add l 0
  ∧ 0 <= sum_tokens l <= Z.of_nat (length l) * 2 ^ 31.
Proof.
  induction l as [|n l IH] using rev_ind; intros Hall Hlen; [by simpl|].
  apply Forall_app in Hall as [Hall [Hn _]%Forall_cons].
  rewrite length_app in *. simpl in *.
  destruct IH as [IH Hsum]; [done|lia|].
  rewrite sum_tokens_snoc, fold_left_app, sqlite_add_exact by nia. simpl.
  rewrite <- IH. split; [done|nia].
Qed.

(** With a session file, the running totals are the sums of the turns:
    whatever the recorder went through before, after a session start
    that opens the store and comes with a session file, and [N]
    completed turns, with tool calls, tool results, user input and
    model changes interleaved anywhere, the persisted database has
    exactly one row for the session; the rows the turns appended to
    [turns] all belong to that session, and each running total of the
    session row is the matching usage column of these rows added up as
    SQLite adds, from 0 in row order: exactly the sum when the token
    counts are 32-bit integers. Unless the session identifier is the
    empty string, which the handlers take for no session, there are [N]
    such rows and they hold the usage of the [N] turn ends, in order. *)
Theorem session_totals_sum_turn_usage
    (history : list Event) (ctx : ExtensionContext) (import_ok : bool) (now : Z)
    (before : list Activity) (ts : list Turn) :
  let w0 := run history initial_world in
  let w := run (session_events ctx import_ok now before ts) w0 in
  store_opens import_ok w0 →
  is_Some (getSessionFile ctx) →
  ∃ d row rows,
    file w = Some d
    ∧ sessions_with_id (getSessionId ctx) d = [row]
    ∧ turns d = turns (store_at w0) ++ rows
    ∧ Forall (λ r, t_session_id r = getSessionId ctx) rows
    ∧ s_total_input_tokens row = sum_tokens (t_input_tokens <$> rows)
    ∧ s_total_output_tokens row = sum_tokens (t_output_tokens <$> rows)
    ∧ s_total_cost row = sum_cost (t_cost <$> rows)
    ∧ (Forall (λ r, 0 <= t_input_tokens r < 2 ^ 31 ∧ 0 <= t_output_tokens r < 2 ^ 31) rows →
       Z.of_nat (length rows) <= 2 ^ 31 →
       s_total_input_tokens row = fold_left Z.add (t_input_tokens <$> rows) 0
       ∧ s_total_output_tokens row = fold_left Z.add (t_output_tokens <$> rows) 0)
    ∧ (getSessionId ctx ≠ "" →
       length rows = length ts ∧ row_usage <$> rows = turn_usage <$> ts).
Proof.
  intros w0 w Hopen Hfile. subst w. unfold session_events.
  change (run (?ev :: ?evs) ?x) with (run evs (handle ev x)).
  assert (∀ (row : session_row) (rows : list turn_row),
            s_total_input_tokens row = sum_tokens (t_input_tokens <$> rows) →
            s_total_output_tokens row = sum_tokens (t_output_tokens <$> rows) →
            Forall (λ r, 0 <= t_input_tokens r < 2 ^ 31 ∧ 0 <= t_output_tokens r < 2 ^ 31)
              rows →
            Z.of_nat (length rows) <= 2 ^ 31 →
            s_total_input_tokens row = fold_left Z.add (t_input_tokens <$> rows) 0
            ∧ s_total_output_tokens row = fold_left Z.add (t_output_tokens <$> rows) 0)
    as Hexact.
  { intros row rows -> -> Hall Hlen. split.
    - apply sum_tokens_exact; [|by rewrite length_fmap].
      apply Forall_fmap. eapply Forall_impl; [exact Hall|]. by intros r [? _].
    - apply sum_tokens_exact; [|by rewrite length_fmap].
      apply Forall_fmap. eapply Forall_impl; [exact Hall|]. by intros r [_ ?]. }
  destruct (decide (getSessionId ctx = "")) as [Hempty|Hne].
  - destruct (session_start_row ctx import_ok now w0
                (wf_world_path w0 (reachable_wf history)) Hopen Hfile)
      as (d & row & Hdb & Hf & _ & Hsid & _ & Ht & Hone & _ & _ & _ & _ & _ & _ & Hi & Ho & Hc).
    rewrite run_idle; [|unfold recording; simpl; rewrite Hdb, Hsid, Hempty; done
                       |apply no_start_after_start].
    exists d, row, []. simpl. rewrite app_nil_r. split_and!; done.
  - rewrite run_app.
    pose proof (session_start_between ctx import_ok now w0 (reachable_wf history) Hne Hopen
                  Hfile) as Hstart.
    apply (activities_between _ _ _ _ before) in Hstart.
    destruct (turns_between _ _ ts _ _ _ Hstart)
      as (rows & d & f & row & _ & Hf & _ & _ & Hsf & Htf & Ht & _ & Hone & Htot & Hus & Hall).
    simpl in *. destruct Htot as (Hi & Ho & Hc).
    exists f, row, rows. split_and!; try done.
    + unfold sessions_with_id in *. by rewrite Hsf.
    + by rewrite Htf.
    + by apply Hexact.
    + intros _. split; [|done].
      rewrite <- (length_fmap row_usage), Hus. by rewrite length_fmap.
Qed.

Lemma length_append (a b : string) :
  String.length (a +:+ b) = (String.length a + String.length b)%nat.
Proof. induction a as [|c a IH]; simpl; [done|]. by rewrite IH. Qed.

Lemma length_substring_0 (n : nat) (s : string) :
  (n <= String.length s)%nat → String.length (substring 0 n s) = n.
Proof.
  revert s. induction n as [|n IH]; intros [|c s]; simpl; intros Hn; try done; try lia.
  f_equal. apply IH. lia.
Qed.

Lemma substring_0_prefix (n : nat) (s : string) : String.prefix (substring 0 n s) s = true.
Proof.
  revert s. induction n as [|n IH]; intros [|c s]; simpl; try done.
  destruct (ascii_dec c c); [apply IH|done].
Qed.

Lemma truncate_capped (s : string) : capped s (truncate s).
Proof.
  unfold capped, truncate.
  destruct (Nat.ltb_spec MAX_RESULT_SIZE (String.length s)) as [Hlong|Hshort].
  - split_and!; [|lia|].
    + intros _. split_and!; [done| | |].
      * apply length_substring_0. lia.
      * apply substring_0_prefix.
      * rewrite length_append, length_substring_0 by lia. done.
    + rewrite length_append, length_substring_0 by lia. done.
  - split_and!; [lia|done|lia].
Qed.

Lemma truncate_empty (s : string) : truncate s = "" → s = "".
Proof.
  unfold truncate.
  destruct (Nat.ltb_spec MAX_RESULT_SIZE (String.length s)) as [Hlong|Hshort]; [|done].
  intros Heq. apply (f_equal String.length) in Heq. rewrite length_append in Heq.
  simpl in Heq. lia.
Qed.

Lemma on_turn_end_message e now (w : World) sid d tid items :
  recording w = Some sid → db w = Some d →
  currentTurnId (state w) = Some tid → tid ≠ 0 →
  content (message e) = Some items → extractTextContent items ≠ "" →
  ∃ d', db (on_turn_end e now w) = Some d'
        ∧ messages d' = messages d ++
            [{| m_id := next_rowid (seq_messages d) (m_id <$> messages d);
                m_session_id := sid; m_role := "assistant";
                m_content := Some (extractTextContent items);
                m_turn_id := Some tid; m_timestamp := now |}].
Proof.
  intros Hrec Hd Htid Hnz Hitems Htext. unfold on_turn_end. rewrite Hrec, Htid, Hitems.
  assert (truthy_num (Some tid) = true) as -> by (by destruct tid).
  destruct (String.eqb_spec (extractTextContent items) ""); [done|].
  open_world w. subst wdb currentTurnId0. unfold persistDatabase, safeRun. simpl.
  destruct (String.eqb wpath ""); simpl; eauto.
Qed.

Lemma text_items_content (items : list ContentItem) (texts : list string) :
  text_content items texts → text_items items = texts.
Proof.
  induction 1 as [|t items texts Ht _ IH|item items texts Hitem _ IH].
  - done.
  - rewrite <- IH. destruct t as [|c t]; [done|]. reflexivity.
  - rewrite <- IH. destruct item as [type text]. simpl in Hitem.
    assert (String.eqb type "text" && truthy_str text = false) as Hskip.
    { destruct Hitem as [Htype|[->| ->]]; [|by rewrite andb_false_r..].
      by destruct (String.eqb_spec type "text"). }
    unfold text_items. cbn [omap list_omap item_type item_text]. by rewrite Hskip.
Qed.

(** C3. What the recorder stores of a user message, of a tool result and
    of an assistant message is the text capped at 50 KB: when the text
    is longer than [MAX_RESULT_SIZE] the stored content is its first
    [MAX_RESULT_SIZE] characters followed by the truncation marker,
    otherwise it is the text itself, and in no case is it longer than
    cap plus marker. For a tool result and an assistant message the text
    is the texts of the text items, joined by line feeds. *)
Theorem stored_content_is_capped (history : list Event) (sid : string) (d : Database) :
  let w := run history initial_world in
  recording w = Some sid →
  db w = Some d →
  (∀ (e : InputEvent) (now : Z),
      ∃ d' row stored,
        db (handle (input_event e now) w) = Some d'
        ∧ file (handle (input_event e now) w) = Some d'
        ∧ messages d' = messages d ++ [row]
        ∧ m_role row = "user" ∧ m_content row = Some stored
        ∧ capped (input_text e) stored)
  ∧ (∀ (e : ToolResultEvent) (now : Z) (r0 : tool_call_row) (texts : list string),
      r0 ∈ tool_calls d → tc_id r0 = tr_toolCallId e →
      text_content (tr_content e) texts →
      ∃ d' stored,
        db (handle (tool_result e now) w) = Some d'
        ∧ file (handle (tool_result e now) w) = Some d'
        ∧ (∃ r, r ∈ tool_calls d' ∧ tc_id r = tr_toolCallId e)
        ∧ (∀ r, r ∈ tool_calls d' → tc_id r = tr_toolCallId e →
                tc_result_text r = Some stored)
        ∧ capped (String.concat LF texts) stored)
  ∧ (∀ (e : TurnEndEvent) (now tid : Z) (items : list ContentItem) (texts : list string),
      currentTurnId (state w) = Some tid →
      content (message e) = Some items →
      text_content items texts →
      String.concat LF texts ≠ "" →
      ∃ d' row stored,
        db (handle (turn_end e now) w) = Some d'
        ∧ file (handle (turn_end e now) w) = Some d'
        ∧ messages d' = messages d ++ [row]
        ∧ m_role row = "assistant" ∧ m_content row = Some stored
        ∧ capped (String.concat LF texts) stored).
Proof.
  intros w Hrec Hd.
  pose proof (reachable_wf history) as Hwf. fold w in Hwf.
  destruct Hwf as [Hdb _]. destruct (Hdb d Hd) as (Hp & _ & _).
  split_and!.
  - intros e now. simpl.
    destruct (on_input_recorded e now w sid d Hrec Hd Hp) as (d' & [= Hd'] & Hdb' & Hf' & _).
    simpl in *. eexists d', _, _. split_and!; [done|done|by rewrite <- Hd'|done|done|].
    apply truncate_capped.
  - intros e now r0 texts Hr0 Hid0 Htexts.
    destruct (on_tool_result_recorded e now w sid d Hrec Hd Hp) as (d' & Hd' & Hdb' & Hf' & _).
    simpl in *. exists d', (extractTextContent (tr_content e)).
    split_and!; [done|done| | |].
    + assert (tr_toolCallId e ∈ (tc_id <$> tool_calls d'))
        as (r & -> & Hr)%list_elem_of_fmap; [|by eauto].
      rewrite (update_tool_call_ids _ _ _ _ _ _ _ Hd'), <- Hid0.
      by apply list_elem_of_fmap_2.
    + intros r Hr Hid.
      by destruct (update_tool_call_In _ _ _ _ _ _ _ _ Hd' Hr Hid) as (_ & ? & _).
    + unfold extractTextContent. rewrite (text_items_content _ _ Htexts).
      apply truncate_capped.
  - intros e now tid items texts Htid Hitems Htexts Htext.
    pose proof (current_turn_set history tid Htid) as Hnz.
    assert (extractTextContent items ≠ "") as Htext'.
    { unfold extractTextContent. rewrite (text_items_content _ _ Htexts).
      intros H%truncate_empty. done. }
    destruct (on_turn_end_message e now w sid d tid items Hrec Hd Htid Hnz Hitems Htext')
      as (d' & Hdb' & Hm).
    destruct (on_turn_end_recorded e now w sid d tid Hrec Hd Hp Htid Hnz)
      as (_ & _ & d'' & _ & _ & Hdb'' & Hf'' & _).
    simpl in *. rewrite Hdb' in Hdb''. injection Hdb'' as <-.
    eexists d', _, _. split_and!; [done|done|done|done|done|].
    unfold extractTextContent. rewrite (text_items_content _ _ Htexts).
    apply truncate_capped.
Qed.

(** *** A closed recorder stays closed *)

Lemma shutdown_stops_recording (now : Z) (w : World) :
  recording (on_session_shutdown now w) = None.
Proof. unfold on_session_shutdown. by destruct (recording w) eqn:Hrec. Qed.

(** Once a session has been shut down, no event changes the database
    file, the open database or the state until the next session start:
    the world after any such events is the world the shutdown left. *)
Theorem nothing_is_recorded_after_shutdown (history later : list Event) (now : Z) :
  Forall (λ ev, ∀ ctx ok t, ev ≠ session_start ctx ok t) later →
  run (history ++ session_shutdown now :: later) initial_world
  = run (history ++ [session_shutdown now]) initial_world.
Proof.
  intros Hlater. rewrite !run_app. simpl.
  apply run_idle; [apply shutdown_stops_recording|done].
Qed.

Lemma disabled_idle (ev : Event) (w : World) :
  db w = None → SQL w = false → sqlJsAvailable w = false → handle ev w = w.
Proof.
  intros Hdb Hsql Hav.
  destruct ev as [ctx ok now| | | | | | |];
    try (apply not_recording_idle; [unfold recording; by rewrite Hdb|done]).
  simpl. unfold on_session_start, initDatabase, loadSqlJs. by rewrite Hdb, Hsql, Hav.
Qed.

(** When the first session start of a process fails to load sql.js, the
    recorder is disabled for good: whatever follows, later session
    starts whose import would succeed included, no database is opened
    and no file is written. *)
Theorem failed_import_disables_recorder (ctx : ExtensionContext) (now : Z)
    (later : list Event) :
  let w := run (session_start ctx false now :: later) initial_world in
  w = handle (session_start ctx false now) initial_world
  ∧ db w = None ∧ file w = None ∧ sqlJsAvailable w = false.
Proof.
  simpl. set (w1 := on_session_start ctx false now initial_world).
  assert (db w1 = None ∧ SQL w1 = false ∧ sqlJsAvailable w1 = false ∧ file w1 = None)
    as (Hdb & Hsql & Hav & Hfile) by done.
  assert (run later w1 = w1) as ->; [|done].
  induction later as [|ev later IH]; [done|].
  simpl. by rewrite disabled_idle.
Qed.

(** *** The cap applied twice *)

Lemma substring_0_append (n : nat) (a b : string) :
  String.length a = n → substring 0 n (a +:+ b) = a.
Proof.
  revert n. induction a as [|c a IH]; intros n <-; simpl.
  - by destruct b.
  - by rewrite IH.
Qed.

(** Capping is idempotent: a text that was stored, read back and capped
    again is the stored text, although the stored text of a long
    message is itself longer than the cap. *)
Theorem truncate_idempotent (s : string) : truncate (truncate s) = truncate s.
Proof.
  unfold truncate at 2.
  destruct (Nat.ltb_spec MAX_RESULT_SIZE (String.length s)) as [Hlong|Hshort].
  - pose proof (length_substring_0 MAX_RESULT_SIZE s ltac:(lia)) as Hlen.
    unfold truncate. rewrite length_append, Hlen.
    assert ((MAX_RESULT_SIZE <? MAX_RESULT_SIZE + String.length TRUNCATION_MARKER)%nat = true)
      as -> by (apply Nat.ltb_lt, Nat.lt_add_pos_r; simpl; lia).
    rewrite substring_0_append by done.
    by destruct (Nat.ltb_spec MAX_RESULT_SIZE (String.length s)); [|lia].
  - unfold truncate. by destruct (Nat.ltb_spec MAX_RESULT_SIZE (String.length s)); [lia|].
Qed.


(** *** The row of a completed turn *)

Lemma activities_frame (acts : list Activity) : ∀ (w : World) (sid : string) (d : Database),
  recording w = Some sid → db w = Some d → dbPath w ≠ "" →
  let w' := run (activity_event <$> acts) w in
  ∃ d', db w' = Some d' ∧ dbPath w' = dbPath w ∧ recording w' = Some sid
        ∧ currentTurnId (state w') = currentTurnId (state w)
        ∧ currentTurnStartedAt (state w') = currentTurnStartedAt (state w)
        ∧ sessions d' = sessions d ∧ turns d' = turns d.
Proof.
  induction acts as [|a acts IH]; intros w sid d Hrec Hd Hp.
  - exists d. split_and!; done.
  - rewrite fmap_cons.
    destruct (activity_frame a w sid d Hrec Hd Hp)
      as (d1 & Hd1 & Hp1 & Hrec1 & Hct1 & Hcs1 & Hs1 & Ht1 & _).
    destruct (IH _ sid d1 Hrec1 Hd1) as (d' & Hd' & Hp' & Hrec' & Hct' & Hcs' & Hs' & Ht').
    { by rewrite Hp1. }
    cbv zeta in *. exists d'.
    change (run (?ev :: ?evs) ?x) with (run evs (handle ev x)).
    split_and!; [done|congruence..].
Qed.

(** From its start event to its end event, with tool calls, tool
    results, user input and model changes in between, a turn leaves one
    new row in the persisted [turns] table, after the rows that were
    there: it belongs to the session, starts at the start event's
    timestamp, ends at the time of the end event, lasts the difference
    of the two, and carries the model, the usage and the stop reason of
    the end event's message. *)
Theorem completed_turn_row (history : list Event) (sid : string) (d : Database)
    (started : TurnStartEvent) (during : list Activity) (ended : TurnEndEvent) (now : Z) :
  let w := run history initial_world in
  recording w = Some sid →
  db w = Some d →
  let w' := run (turn_start started :: (activity_event <$> during) ++ [turn_end ended now]) w in
  ∃ f row,
    file w' = Some f ∧ db w' = Some f
    ∧ turns f = turns d ++ [row]
    ∧ (t_id row ∉ (t_id <$> turns d))
    ∧ t_session_id row = sid
    ∧ t_turn_index row = turnIndex started
    ∧ t_started_at row = timestamp started
    ∧ t_ended_at row = Some now
    ∧ t_duration_ms row = Some (now - timestamp started)
    ∧ t_model_provider row = msg_provider (message ended)
    ∧ t_model_id row = msg_model (message ended)
    ∧ t_input_tokens row = inputTokens ended
    ∧ t_output_tokens row = outputTokens ended
    ∧ t_cost row = turnCost ended
    ∧ t_stop_reason row = stopReason (message ended).
Proof.
  intros w Hrec Hd w'. subst w'.
  pose proof (wf_world_path w (reachable_wf history) d Hd) as Hp.
  destruct (recording_db w sid Hrec) as (? & _ & Hsid & Hne).
  change (run (?ev :: ?evs) ?x) with (run evs (handle ev x)). rewrite run_app.
  destruct (on_turn_start_recorded started w sid d Hrec Hd)
    as (d1 & Hd1 & Hdb1 & _ & Hp1 & Hs1 & Hct1 & Hcs1).
  simpl in Hdb1, Hp1, Hs1, Hct1, Hcs1.
  pose proof (insert_turn_ids _ _ _ _ _ Hd1) as (_ & Hfresh & Hpos).
  assert (recording (handle (turn_start started) w) = Some sid) as Hrec1.
  { eapply recording_intro; [done|simpl; by rewrite Hs1|done]. }
  destruct (activities_frame during _ sid d1 Hrec1 Hdb1)
    as (d2 & Hdb2 & Hp2 & Hrec2 & Hct2 & Hcs2 & _ & Ht2).
  { simpl. by rewrite Hp1. }
  simpl in Hdb2, Hp2, Hrec2, Hct2, Hcs2.
  set (w2 := run (activity_event <$> during) (on_turn_start started w)) in *.
  destruct (on_turn_end_recorded ended now w2 sid d2 (last_insert_rowid d1))
    as (d3 & d4 & d' & [= Hd3] & [= Hd4] & Hdb' & Hf' & _ & _ & _ & Ht' & _);
    [done|done|by rewrite Hp2, Hp1|by rewrite Hct2|lia|].
  simpl in Hdb', Hf'. injection Hd1 as Hd1.
  eexists d', _. split; [exact Hf'|]. split; [exact Hdb'|].
  assert (turns d' =
            turns d ++
            [{| t_id := last_insert_rowid d1; t_session_id := sid;
                t_turn_index := turnIndex started; t_started_at := timestamp started;
                t_ended_at := Some now;
                t_duration_ms := Some (now - timestamp started);
                t_model_provider := msg_provider (message ended);
                t_model_id := msg_model (message ended);
                t_input_tokens := inputTokens ended;
                t_output_tokens := outputTokens ended;
                t_cost := turnCost ended;
                t_stop_reason := stopReason (message ended) |}]) as Hturns.
  { rewrite Ht', <- Hd4. simpl. rewrite <- Hd3. simpl. rewrite Ht2, Hcs2, Hcs1.
    rewrite <- Hd1 in *. simpl in *. rewrite fmap_app. simpl. rewrite Z.eqb_refl.
    by rewrite update_turn_elsewhere. }
  split; [exact Hturns|]. simpl. split_and!; done.
Qed.


(** *** The row of a completed tool call *)

Lemma no_call_with_id (cid : string) (l : list tool_call_row) :
  cid ∉ (tc_id <$> l) →
  existsb (fun r => String.eqb (tc_id r) cid) l = false
  ∧ List.filter (fun r => String.eqb (tc_id r) cid) l = [].
Proof.
  induction l as [|r l IH]; [done|].
  rewrite fmap_cons. intros [Hne Hnot]%not_elem_of_cons. simpl.
  destruct (String.eqb_spec (tc_id r) cid) as [Heq|_]; [congruence|].
  by apply IH.
Qed.

Lemma update_tool_call_elsewhere a b c res cid (l : list tool_call_row) :
  cid ∉ (tc_id <$> l) →
  (fun r => if String.eqb (tc_id r) cid
            then {| tc_rowid := tc_rowid r; tc_id := tc_id r;
                    tc_session_id := tc_session_id r; tc_turn_id := tc_turn_id r;
                    tc_tool_name := tc_tool_name r; tc_input_json := tc_input_json r;
                    tc_started_at := tc_started_at r; tc_ended_at := Some a;
                    tc_duration_ms := Some b; tc_is_error := c;
                    tc_result_text := Some res |}
            else r) <$> l = l.
Proof.
  induction l as [|r l IH]; intros Hnot; [done|].
  rewrite fmap_cons in *. apply not_elem_of_cons in Hnot as [Hne Hnot].
  rewrite IH by done. destruct (String.eqb_spec (tc_id r) cid); [congruence|done].
Qed.

(** What an update of call [other] does to the rows of call [cid]. *)
Lemma update_tool_call_filter a b c res other cid (l : list tool_call_row) :
  List.filter (fun r => String.eqb (tc_id r) cid)
    ((fun r => if String.eqb (tc_id r) other
               then {| tc_rowid := tc_rowid r; tc_id := tc_id r;
                       tc_session_id := tc_session_id r; tc_turn_id := tc_turn_id r;
                       tc_tool_name := tc_tool_name r; tc_input_json := tc_input_json r;
                       tc_started_at := tc_started_at r; tc_ended_at := Some a;
                       tc_duration_ms := Some b; tc_is_error := c;
                       tc_result_text := Some res |}
               else r) <$> l)
  = (fun r => if String.eqb cid other
              then {| tc_rowid := tc_rowid r; tc_id := tc_id r;
                      tc_session_id := tc_session_id r; tc_turn_id := tc_turn_id r;
                      tc_tool_name := tc_tool_name r; tc_input_json := tc_input_json r;
                      tc_started_at := tc_started_at r; tc_ended_at := Some a;
                      tc_duration_ms := Some b; tc_is_error := c;
                      tc_result_text := Some res |}
              else r) <$> List.filter (fun r => String.eqb (tc_id r) cid) l.
Proof.
  induction l as [|r l IH]; [done|].
  rewrite fmap_cons. simpl.
  destruct (String.eqb_spec (tc_id r) other) as [Ho|Ho]; simpl;
    destruct (String.eqb_spec (tc_id r) cid) as [Hc|Hc]; rewrite ?fmap_cons, IH; try done.
  - subst. by rewrite String.eqb_refl.
  - destruct (String.eqb_spec cid other); [congruence|done].
Qed.

Lemma list_fmap_id_ext {A} (f : A → A) (l : list A) : (∀ x, f x = x) → f <$> l = l.
Proof. intros Hf. induction l as [|x l IH]; [done|]. by rewrite fmap_cons, Hf, IH. Qed.

Lemma activity_keeps_call (cid : string) (a : Activity) (w : World) (sid : string)
    (d : Database) :
  other_call cid a →
  recording w = Some sid → db w = Some d → dbPath w ≠ "" →
  let w' := handle (activity_event a) w in
  ∃ d', db w' = Some d' ∧ dbPath w' = dbPath w ∧ recording w' = Some sid
        ∧ toolCallStarts (state w') !! cid = toolCallStarts (state w) !! cid
        ∧ calls_with_id cid d' = calls_with_id cid d.
Proof.
  intros Hother Hrec Hd Hp.
  destruct (activity_frame a w sid d Hrec Hd Hp) as (d' & Hd' & Hp' & Hrec' & _).
  cbv zeta in *. exists d'. split_and!; [done..| |].
  - destruct a as [e now|e now|e now|e now]; simpl in *.
    + unfold on_tool_call. rewrite Hrec. unfold safeRun. simpl. rewrite Hd.
      destruct (insert_tool_call _ _ _ _ _ _ _); simpl; by rewrite lookup_insert_ne.
    + unfold on_tool_result. rewrite Hrec. unfold persistDatabase, safeRun. simpl.
      rewrite Hd. simpl. destruct (String.eqb (dbPath w) ""); simpl;
        by rewrite lookup_delete_ne.
    + by destruct (on_input_recorded e now w sid d Hrec Hd Hp) as (_ & _ & _ & _ & _ & ->).
    + by destruct (on_model_select_recorded e now w sid d Hrec Hd Hp)
        as (_ & _ & _ & _ & _ & ->).
  - unfold calls_with_id. destruct a as [e now|e now|e now|e now]; simpl in *.
    + destruct (on_tool_call_recorded e now w sid d Hrec Hd) as (Hdb' & _).
      simpl in Hdb'. rewrite Hd' in Hdb'. injection Hdb' as ->.
      unfold insert_tool_call. destruct (existsb _ _); simpl; [done|].
      rewrite List.filter_app. simpl.
      destruct (String.eqb_spec (tc_toolCallId e) cid); [done|by rewrite app_nil_r].
    + destruct (on_tool_result_recorded e now w sid d Hrec Hd Hp) as (d1 & [= Hd1] & Hdb' & _).
      simpl in Hdb'. rewrite Hd' in Hdb'. injection Hdb' as ->. rewrite <- Hd1. simpl.
      rewrite update_tool_call_filter.
      destruct (String.eqb_spec cid (tr_toolCallId e)); [congruence|].
      by apply list_fmap_id_ext.
    + destruct (on_input_recorded e now w sid d Hrec Hd Hp) as (d1 & [= Hd1] & Hdb' & _).
      simpl in Hdb'. rewrite Hd' in Hdb'. injection Hdb' as ->. by rewrite <- Hd1.
    + destruct (on_model_select_recorded e now w sid d Hrec Hd Hp) as (d1 & [= Hd1] & Hdb' & _).
      simpl in Hdb'. rewrite Hd' in Hdb'. injection Hdb' as ->. by rewrite <- Hd1.
Qed.

Lemma activities_keep_call (cid : string) (acts : list Activity) :
  ∀ (w : World) (sid : string) (d : Database),
  Forall (other_call cid) acts →
  recording w = Some sid → db w = Some d → dbPath w ≠ "" →
  let w' := run (activity_event <$> acts) w in
  ∃ d', db w' = Some d' ∧ dbPath w' = dbPath w ∧ recording w' = Some sid
        ∧ toolCallStarts (state w') !! cid = toolCallStarts (state w) !! cid
        ∧ calls_with_id cid d' = calls_with_id cid d.
Proof.
  induction acts as [|a acts IH]; intros w sid d Hacts Hrec Hd Hp.
  - exists d. split_and!; done.
  - rewrite fmap_cons. apply Forall_cons in Hacts as [Ha Hacts].
    destruct (activity_keeps_call cid a w sid d Ha Hrec Hd Hp)
      as (d1 & Hd1 & Hp1 & Hrec1 & Hst1 & Hc1).
    destruct (IH _ sid d1 Hacts Hrec1 Hd1) as (d' & Hd' & Hp' & Hrec' & Hst' & Hc').
    { by rewrite Hp1. }
    cbv zeta in *. exists d'.
    change (run (?ev :: ?evs) ?x) with (run evs (handle ev x)).
    split_and!; [done|congruence..].
Qed.

(** From its call event to its result event, with other tool calls and
    results, user input and model changes in between, a tool call whose
    identifier is new to the store leaves exactly one row with that
    identifier in the persisted [tool_calls] table: it belongs to the
    session and to the turn that was current at the call, starts at the
    time of the call, ends at the time of the result, lasts the
    difference of the two, and carries the error flag and the capped
    text of the result. *)
Theorem completed_tool_call_row (history : list Event) (sid : string) (d : Database)
    (call : ToolCallEvent) (called : Z) (between : list Activity)
    (result : ToolResultEvent) (returned : Z) :
  let w := run history initial_world in
  recording w = Some sid →
  db w = Some d →
  tc_toolCallId call ∉ (tc_id <$> tool_calls d) →
  tr_toolCallId result = tc_toolCallId call →
  Forall (other_call (tc_toolCallId call)) between →
  let w' := run (tool_call call called
                   :: (activity_event <$> between) ++ [tool_result result returned]) w in
  ∃ f row,
    file w' = Some f ∧ db w' = Some f
    ∧ calls_with_id (tc_toolCallId call) f = [row]
    ∧ tc_session_id row = sid
    ∧ tc_turn_id row = currentTurnId (state w)
    ∧ tc_tool_name row = toolName call
    ∧ tc_input_json row = Some (input_json call)
    ∧ tc_started_at row = called
    ∧ tc_ended_at row = Some returned
    ∧ tc_duration_ms row = Some (returned - called)
    ∧ tc_is_error row = (if tr_isError result then 1 else 0)
    ∧ tc_result_text row = Some (extractTextContent (tr_content result)).
Proof.
  intros w Hrec Hd Hnew Hid Hbetween w'. subst w'.
  pose proof (wf_world_path w (reachable_wf history) d Hd) as Hp.
  destruct (recording_db w sid Hrec) as (? & _ & Hsid & Hne).
  change (run (?ev :: ?evs) ?x) with (run evs (handle ev x)). rewrite run_app.
  destruct (no_call_with_id _ _ Hnew) as [Hex Hnone].
  set (w1 := handle (tool_call call called) w).
  set (row0 := {| tc_rowid := next_rowid 0 (tc_rowid <$> tool_calls d);
                  tc_id := tc_toolCallId call; tc_session_id := sid;
                  tc_turn_id := currentTurnId (state w); tc_tool_name := toolName call;
                  tc_input_json := Some (input_json call); tc_started_at := called;
                  tc_ended_at := None; tc_duration_ms := None; tc_is_error := 0;
                  tc_result_text := None |}).
  assert (∃ d1, db w1 = Some d1 ∧ dbPath w1 = dbPath w ∧ recording w1 = Some sid
                ∧ toolCallStarts (state w1) !! tc_toolCallId call = Some called
                ∧ calls_with_id (tc_toolCallId call) d1 = [row0])
    as (d1 & Hd1 & Hp1 & Hrec1 & Hst1 & Hc1).
  { subst w1. simpl. unfold on_tool_call. rewrite Hrec. unfold safeRun. simpl. rewrite Hd.
    unfold insert_tool_call. rewrite Hex. simpl. eexists. split_and!; [done|done| | |].
    - unfold recording. simpl. rewrite Hsid. by destruct sid.
    - by rewrite lookup_insert_eq.
    - unfold calls_with_id. simpl. rewrite List.filter_app, Hnone. simpl.
      by rewrite String.eqb_refl. }
  destruct (activities_keep_call _ between w1 sid d1 Hbetween Hrec1 Hd1)
    as (d2 & Hd2 & Hp2 & Hrec2 & Hst2 & Hc2).
  { by rewrite Hp1. }
  cbv zeta in *. set (w2 := run (activity_event <$> between) w1) in *.
  destruct (on_tool_result_recorded result returned w2 sid d2 Hrec2 Hd2)
    as (d' & [= Hd'] & Hdb' & Hf' & _).
  { by rewrite Hp2, Hp1. }
  simpl in Hdb', Hf'. eexists d', _. split; [exact Hf'|]. split; [exact Hdb'|].
  assert (calls_with_id (tc_toolCallId call) d' =
            [{| tc_rowid := tc_rowid row0; tc_id := tc_toolCallId call; tc_session_id := sid;
                tc_turn_id := currentTurnId (state w); tc_tool_name := toolName call;
                tc_input_json := Some (input_json call); tc_started_at := called;
                tc_ended_at := Some returned; tc_duration_ms := Some (returned - called);
                tc_is_error := if tr_isError result then 1 else 0;
                tc_result_text := Some (extractTextContent (tr_content result)) |}])
    as Hrow.
  { unfold calls_with_id in *. rewrite <- Hd'. simpl.
    rewrite update_tool_call_filter, Hc2, Hc1, Hid, String.eqb_refl. simpl.
    by rewrite Hst2, Hst1. }
  split; [exact Hrow|]. simpl. split_and!; done.
Qed.

(** A tool result whose call was never recorded creates no row and
    changes none: the database is the one before, written to the file. *)
Theorem unmatched_tool_result_changes_no_row (history : list Event) (sid : string)
    (d : Database) (e : ToolResultEvent) (now : Z) :
  let w := run history initial_world in
  recording w = Some sid →
  db w = Some d →
  tr_toolCallId e ∉ (tc_id <$> tool_calls d) →
  db (handle (tool_result e now) w) = Some d
  ∧ file (handle (tool_result e now) w) = Some d.
Proof.
  intros w Hrec Hd Hnew.
  pose proof (wf_world_path w (reachable_wf history) d Hd) as Hp.
  destruct (on_tool_result_recorded e now w sid d Hrec Hd Hp) as (d' & [= Hd'] & Hdb' & Hf' & _).
  simpl in *. rewrite update_tool_call_elsewhere in Hd' by done.
  assert (d' = d) as -> by (rewrite <- Hd'; by destruct d).
  done.
Qed.

(** A second call event with an identifier that already has a row is
    refused by the primary key: no table changes and nothing is
    written; only the start time kept in memory for that identifier
    moves to the time of the second event. *)
Theorem repeated_tool_call_keeps_first_row (history : list Event) (sid : string)
    (d : Database) (e : ToolCallEvent) (now : Z) :
  let w := run history initial_world in
  recording w = Some sid →
  db w = Some d →
  tc_toolCallId e ∈ (tc_id <$> tool_calls d) →
  let w' := handle (tool_call e now) w in
  db w' = Some d ∧ file w' = file w
  ∧ toolCallStarts (state w') !! tc_toolCallId e = Some now.
Proof.
  intros w Hrec Hd Hin w'. subst w'. simpl. unfold on_tool_call. rewrite Hrec.
  unfold safeRun. simpl. rewrite Hd. unfold insert_tool_call.
  assert (existsb (fun r => String.eqb (tc_id r) (tc_toolCallId e)) (tool_calls d) = true)
    as ->.
  { apply existsb_exists. apply list_elem_of_fmap in Hin as (r & Hr & Hin).
    exists r. split; [by apply list_elem_of_In|]. rewrite Hr. apply String.eqb_refl. }
  simpl. split_and!; [done|done|]. by rewrite lookup_insert_eq.
Qed.

(** *** A turn without text *)

(** When the message of a turn end has no content, or content without a
    text item that is not empty (tool use only, say), the turn row and
    the totals are updated as for any turn but no message row is
    written. *)
Theorem turn_without_text_stores_no_message (history : list Event) (sid : string)
    (d : Database) (e : TurnEndEvent) (now tid : Z) :
  let w := run history initial_world in
  recording w = Some sid →
  db w = Some d →
  currentTurnId (state w) = Some tid → tid ≠ 0 →
  (∀ items, content (message e) = Some items → text_items items = []) →
  ∃ d', db (handle (turn_end e now) w) = Some d'
        ∧ file (handle (turn_end e now) w) = Some d'
        ∧ messages d' = messages d
        ∧ ∀ r, r ∈ turns d' → t_id r = tid → t_ended_at r = Some now.
Proof.
  intros w Hrec Hd Htid Hnz Hnotext.
  pose proof (wf_world_path w (reachable_wf history) d Hd) as Hp.
  destruct (on_turn_end_recorded e now w sid d tid Hrec Hd Hp Htid Hnz)
    as (d1 & d2 & d' & Hd1 & [= Hd2] & Hdb' & Hf' & _ & _ & _ & Ht & _).
  simpl in *. exists d'. split_and!; [done|done| |].
  - revert Hdb'. unfold on_turn_end. rewrite Hrec, Htid.
    assert (truthy_num (Some tid) = true) as -> by (by destruct tid).
    unfold persistDatabase, safeRun. simpl. rewrite Hd. simpl.
    destruct (content (message e)) as [items|] eqn:Hitems; simpl.
    + unfold extractTextContent. rewrite (Hnotext items eq_refl). simpl.
      destruct (String.eqb (dbPath w) ""); simpl; by intros [= <-].
    + destruct (String.eqb (dbPath w) ""); simpl; by intros [= <-].
  - intros r Hr Hid. rewrite Ht, <- Hd2 in Hr. simpl in Hr.
    by destruct (update_turn_In _ _ _ _ _ _ _ _ _ _ _ _ Hd1 Hr Hid) as (? & _).
Qed.


(** *** Keys and references in every reachable store *)

Section Known.

(** Sessions whose row may be missing. *)
Context (known : list string).

Lemma refers_to_mono (S S' : list string) (T T' : list Z) (d : Database) :
  (∀ x, x ∈ S → x ∈ S') → (∀ t, t ∈ T → t ∈ T') → refers_to S T d → refers_to S' T' d.
Proof.
  intros HS HT (H1 & H2 & H3 & H4). split_and!.
  - eapply Forall_impl; [exact H1|]. intros r Hr. by apply HS.
  - eapply Forall_impl; [exact H2|]. intros r [Hr Hr']. split; [by apply HS|].
    intros tid Htid. by apply HT, Hr'.
  - eapply Forall_impl; [exact H3|]. intros r [Hr Hr']. split; [by apply HS|].
    intros tid Htid. by apply HT, Hr'.
  - eapply Forall_impl; [exact H4|]. intros r Hr. by apply HS.
Qed.

Lemma consistent_empty : consistent known empty_database.
Proof. repeat split; simpl; constructor. Qed.

Lemma consistent_open (f : Database) : consistent known f → consistent known (open_database f).
Proof. done. Qed.

(** A statement that leaves the keys and the references as they are. *)
Lemma consistent_same_keys (d d' : Database) :
  s_id <$> sessions d' = s_id <$> sessions d →
  turns d' = turns d → tool_calls d' = tool_calls d →
  messages d' = messages d → model_changes d' = model_changes d →
  consistent known d → consistent known d'.
Proof.
  unfold consistent, keys_unique, references_hold, refers_to. by intros -> -> -> -> ->.
Qed.

Lemma replaced_keeps_ids (sid : string) (l : list session_row) (row : session_row) (x : string) :
  s_id row = sid →
  x ∈ (s_id <$> l) →
  x ∈ (s_id <$> List.filter (fun r => negb (String.eqb (s_id r) sid)) l ++ [row]).
Proof.
  intros Hrow (r & -> & Hr)%list_elem_of_fmap. rewrite fmap_app. apply elem_of_app.
  destruct (String.eqb_spec (s_id r) sid) as [Heq|Hne].
  - right. simpl. apply list_elem_of_singleton. congruence.
  - left. apply list_elem_of_fmap. exists r. split; [done|].
    apply list_elem_of_In, List.filter_In. split; [by apply list_elem_of_In|].
    by destruct (String.eqb_spec (s_id r) sid).
Qed.

Lemma insert_or_replace_session_consistent sid sf dir ts mp mi (d d' : Database) :
  insert_or_replace_session sid sf dir ts mp mi d = Some d' →
  consistent known d → consistent known d' ∧ sid ∈ (s_id <$> sessions d').
Proof.
  destruct sf as [sf|]; [|done]. intros [= <-] [(Hs & Ht & Hc & Hm & Hmc) Href].
  destruct (filter_other_ids sid _ Hs) as [Hnd Hfresh].
  split; [split|].
  - split_and!; simpl; try done.
    rewrite fmap_app. simpl. apply NoDup_app. split_and!; [done| |apply NoDup_singleton].
    intros x Hx ->%list_elem_of_singleton. done.
  - unfold references_hold in *. simpl.
    eapply (refers_to_mono (known ++ (s_id <$> sessions d)) _ (t_id <$> turns d));
      [|done|exact Href].
    intros x [Hx|Hx]%elem_of_app; apply elem_of_app; [by left|right].
    by apply replaced_keeps_ids.
  - simpl. rewrite fmap_app. apply elem_of_app. right. by apply list_elem_of_singleton.
Qed.

Lemma insert_turn_consistent sid idx ts (d d' : Database) :
  insert_turn sid idx ts d = Some d' →
  sid ∈ known ++ (s_id <$> sessions d) → consistent known d → consistent known d'.
Proof.
  intros [= <-] Hsid [(Hs & Ht & Hc & Hm & Hmc) (H1 & H2 & H3 & H4)]. split.
  - split_and!; simpl; try done.
    rewrite fmap_app. simpl. apply NoDup_snoc_fresh; [done|apply next_rowid_fresh].
  - unfold references_hold, refers_to. simpl. rewrite fmap_app. split_and!; [|..|done].
    + apply Forall_app. split; [done|]. by repeat constructor.
    + eapply Forall_impl; [exact H2|]. intros r [? Hr]. split; [done|].
      intros tid Htid. apply elem_of_app. left. by apply Hr.
    + eapply Forall_impl; [exact H3|]. intros r [? Hr]. split; [done|].
      intros tid Htid. apply elem_of_app. left. by apply Hr.
Qed.

Lemma update_turn_consistent a b c d0 e f g h tid (d d' : Database) :
  update_turn a b c d0 e f g h tid d = Some d' → consistent known d → consistent known d'.
Proof.
  intros Hup [(Hs & Ht & Hc & Hm & Hmc) (H1 & H2 & H3 & H4)].
  pose proof (update_turn_ids _ _ _ _ _ _ _ _ _ _ _ Hup) as Hids.
  injection Hup as <-. simpl in Hids. split.
  - split_and!; simpl; try done. by rewrite Hids.
  - unfold references_hold, refers_to. simpl. rewrite Hids. split_and!; [|done..].
    apply Forall_fmap. eapply Forall_impl; [exact H1|].
    intros r Hr. simpl. by destruct (t_id r =? tid).
Qed.

Lemma insert_message_consistent sid role text turn_id ts (d d' : Database) :
  insert_message sid role text turn_id ts d = Some d' →
  sid ∈ known ++ (s_id <$> sessions d) →
  (∀ tid, turn_id = Some tid → tid ∈ (t_id <$> turns d)) →
  consistent known d → consistent known d'.
Proof.
  intros [= <-] Hsid Htid [(Hs & Ht & Hc & Hm & Hmc) (H1 & H2 & H3 & H4)]. split.
  - split_and!; simpl; try done.
    rewrite fmap_app. simpl. apply NoDup_snoc_fresh; [done|apply next_rowid_fresh].
  - unfold references_hold, refers_to. simpl. split_and!; [done|done| |done].
    apply Forall_app. split; [done|]. by repeat constructor.
Qed.

Lemma call_is_new (cid : string) (l : list tool_call_row) :
  existsb (fun r => String.eqb (tc_id r) cid) l = false → cid ∉ (tc_id <$> l).
Proof.
  intros Hex (r & -> & Hr)%list_elem_of_fmap.
  assert (existsb (fun r0 => String.eqb (tc_id r0) (tc_id r)) l = true) as Htrue.
  { apply existsb_exists. exists r. split; [by apply list_elem_of_In|apply String.eqb_refl]. }
  congruence.
Qed.

Lemma insert_tool_call_consistent cid sid turn_id tool json ts (d d' : Database) :
  insert_tool_call cid sid turn_id tool json ts d = Some d' →
  sid ∈ known ++ (s_id <$> sessions d) →
  (∀ tid, turn_id = Some tid → tid ∈ (t_id <$> turns d)) →
  consistent known d → consistent known d'.
Proof.
  unfold insert_tool_call. destruct (existsb _ _) eqn:Hex; [done|].
  apply call_is_new in Hex.
  intros [= <-] Hsid Htid [(Hs & Ht & Hc & Hm & Hmc) (H1 & H2 & H3 & H4)]. split.
  - split_and!; simpl; try done.
    rewrite fmap_app. simpl. apply NoDup_app. split_and!; [done| |apply NoDup_singleton].
    intros x Hx ->%list_elem_of_singleton. done.
  - unfold references_hold, refers_to. simpl. split_and!; [done| |done|done].
    apply Forall_app. split; [done|]. by repeat constructor.
Qed.

Lemma update_tool_call_consistent a b c res cid (d d' : Database) :
  update_tool_call a b c res cid d = Some d' → consistent known d → consistent known d'.
Proof.
  intros Hup [(Hs & Ht & Hc & Hm & Hmc) (H1 & H2 & H3 & H4)].
  pose proof (update_tool_call_ids _ _ _ _ _ _ _ Hup) as Hids.
  injection Hup as <-. simpl in Hids. split.
  - split_and!; simpl; try done. by rewrite Hids.
  - unfold references_hold, refers_to. simpl. split_and!; [done| |done|done].
    apply Forall_fmap. eapply Forall_impl; [exact H2|].
    intros r Hr. simpl. by destruct (String.eqb (tc_id r) cid).
Qed.

Lemma insert_model_change_consistent sid ts fp fm tp tm (d d' : Database) :
  insert_model_change sid ts fp fm tp tm d = Some d' →
  sid ∈ known ++ (s_id <$> sessions d) → consistent known d → consistent known d'.
Proof.
  intros [= <-] Hsid [(Hs & Ht & Hc & Hm & Hmc) (H1 & H2 & H3 & H4)]. split.
  - split_and!; simpl; try done.
    rewrite fmap_app. simpl. apply NoDup_snoc_fresh; [done|apply next_rowid_fresh].
  - unfold references_hold, refers_to. simpl. split_and!; [done|done|done|].
    apply Forall_app. split; [done|]. by repeat constructor.
Qed.

Lemma lags_refl (d : Database) : lags d d.
Proof. by repeat split. Qed.

Lemma on_turn_end_statements e now (w : World) sid d tid :
  recording w = Some sid → db w = Some d → dbPath w ≠ "" →
  currentTurnId (state w) = Some tid → tid ≠ 0 →
  let w' := on_turn_end e now w in
  ∃ d1 d2 d',
    update_turn now (now - currentTurnStartedAt (state w)) (msg_provider (message e))
      (msg_model (message e)) (inputTokens e) (outputTokens e) (turnCost e)
      (stopReason (message e)) tid d = Some d1
    ∧ update_session_totals (inputTokens e) (outputTokens e) (turnCost e) sid d1 = Some d2
    ∧ (d' = d2 ∨ ∃ text, insert_message sid "assistant" text (Some tid) now d2 = Some d')
    ∧ db w' = Some d' ∧ file w' = Some d' ∧ state w' = state w.
Proof.
  intros Hrec Hd Hp Htid Hnz. unfold on_turn_end. rewrite Hrec, Htid.
  assert (truthy_num (Some tid) = true) as -> by (by destruct tid).
  open_world w. subst wdb. unfold persistDatabase, safeRun. simpl.
  fold (inputTokens e) (outputTokens e) (turnCost e).
  destruct (content (message e)) as [items|]; simpl.
  - destruct (String.eqb (extractTextContent items) ""); simpl; path_set;
      eexists _, _, _; split_and!; try reflexivity; [by left|right; subst; eauto].
  - path_set. eexists _, _, _; split_and!; try reflexivity. by left.
Qed.


Lemma store_at_consistent (w : World) : consistent_world known w → consistent known (store_at w).
Proof.
  intros [Hdb Hfile]. unfold store_at.
  destruct (db w) as [d|]; [by destruct (Hdb d eq_refl)|].
  destruct (file w) as [f|]; [|apply consistent_empty].
  apply consistent_open. by apply Hfile.
Qed.

Lemma consistent_world_open (w : World) (d f : Database) :
  db w = Some d → file w = Some f → consistent known d → consistent known f →
  (∀ sid, sessionId (state w) = Some sid → sid ∈ known ++ (s_id <$> sessions d)) →
  lags f d → consistent_world known w.
Proof.
  intros Hd Hf Hcd Hcf Hsid Hlag.
  split; intros ? Heq; rewrite ?Hd, ?Hf in Heq; injection Heq as <-; [|done].
  split_and!; [done..|]. by exists f.
Qed.

Lemma consistent_world_closed (w : World) :
  db w = None → (∀ f, file w = Some f → consistent known f) → consistent_world known w.
Proof. intros Hd Hf. split; [|done]. intros d Heq. by rewrite Hd in Heq. Qed.

Lemma handle_consistent (ev : Event) (w : World) :
  wf_world w → covered known ev → consistent_world known w →
  consistent_world known (handle ev w).
Proof.
  intros Hwf Hcov Hcw. pose proof Hcw as [Hdb Hfile]. pose proof Hwf as [Hwdb _].
  assert (∀ sid, recording w = Some sid →
            ∃ d f, db w = Some d ∧ dbPath w ≠ "" ∧ consistent known d
                   ∧ sid ∈ known ++ (s_id <$> sessions d)
                   ∧ (∀ tid, currentTurnId (state w) = Some tid → tid ∈ (t_id <$> turns d))
                   ∧ file w = Some f ∧ lags f d ∧ consistent known f) as Hopen.
  { intros sid Hrec. destruct (recording_db w sid Hrec) as (d & Hd & Hsid & _).
    destruct (Hdb d Hd) as (Hc & Hs & f & Hf & Hlag).
    destruct (Hwdb d Hd) as (Hp & _ & Hct).
    exists d, f. split_and!; try done; [by apply Hs|by apply Hfile]. }
  destruct ev as [ctx ok now|e now|now|e|e now|e now|e now|e now].
  - simpl. destruct (snd (initDatabase ok w)) eqn:Hstore.
    + destruct (on_session_start_stored ctx ok now w (wf_world_path w Hwf) Hstore)
        as (Hdb' & Hf' & _ & Hsid & _).
      set (d' := default _ _) in *.
      assert (consistent known d' ∧ getSessionId ctx ∈ known ++ (s_id <$> sessions d'))
        as [Hc' Hin].
      { subst d'. destruct (getSessionFile ctx) as [sf|] eqn:Hsf; simpl.
        - destruct (insert_or_replace_session_consistent (getSessionId ctx) (Some sf)
                      (cwd ctx) now (provider <$> model ctx) (id <$> model ctx) (store_at w) _
                      eq_refl (store_at_consistent w Hcw)) as [Hc' Hin].
          split; [done|]. apply elem_of_app. by right.
        - split; [by apply store_at_consistent|]. apply elem_of_app. left. by apply Hcov. }
      apply (consistent_world_open _ d' d'); [done|done|done|done| |apply lags_refl].
      intros sid. rewrite Hsid. by intros [= <-].
    + destruct (on_session_start_failed ctx ok now w) as (Hdb' & Hf' & _).
      { unfold store_opens. by rewrite Hstore. }
      apply consistent_world_closed; [done|]. by rewrite Hf'.
  - destruct (recording w) as [sid|] eqn:Hrec; [|by rewrite not_recording_idle]. simpl.
    destruct (Hopen sid eq_refl) as (d & f & Hd & Hp & Hc & Hsid & Hct & Hf & Hlag & Hcf).
    destruct (on_input_recorded e now w sid d Hrec Hd Hp) as (d' & Hd' & Hdb' & Hf' & _ & Hst).
    simpl in *. assert (consistent known d') as Hc'.
    { by apply (insert_message_consistent _ _ _ _ _ _ _ Hd'). }
    injection Hd' as Hd'.
    apply (consistent_world_open _ d' d'); [done|done|done|done| |apply lags_refl].
    rewrite Hst, <- Hd'. simpl. destruct (Hdb d Hd) as (_ & Hs & _). exact Hs.
  - destruct (recording w) as [sid|] eqn:Hrec; [|by rewrite not_recording_idle]. simpl.
    destruct (Hopen sid eq_refl) as (d & f & Hd & Hp & Hc & Hsid & Hct & Hf & Hlag & Hcf).
    destruct (on_session_shutdown_recorded now w sid d Hrec Hd Hp)
      as (d' & Hd' & Hdb' & Hf' & _).
    simpl in *. pose proof (update_session_ended_ids _ _ _ _ Hd') as Hids.
    injection Hd' as Hd'.
    apply consistent_world_closed; [done|]. rewrite Hf'. intros ? [= <-].
    apply (consistent_same_keys d); try done; by rewrite <- Hd'.
  - destruct (recording w) as [sid|] eqn:Hrec; [|by rewrite not_recording_idle]. simpl.
    destruct (Hopen sid eq_refl) as (d & f & Hd & Hp & Hc & Hsid & Hct & Hf & Hlag & Hcf).
    destruct (on_turn_start_recorded e w sid d Hrec Hd)
      as (d' & Hd' & Hdb' & Hf' & _ & Hs' & _).
    simpl in *. assert (consistent known d') as Hc'.
    { by apply (insert_turn_consistent _ _ _ _ _ Hd'). }
    injection Hd' as Hd'.
    apply (consistent_world_open _ d' f); [done|by rewrite Hf'|done|done| |].
    + rewrite Hs', <- Hd'. simpl. destruct (Hdb d Hd) as (_ & Hs & _). exact Hs.
    + destruct Hlag as (? & ? & ? & ? & ?). rewrite <- Hd'.
      split_and!; simpl; try done. by apply prefix_app_r.
  - destruct (recording w) as [sid|] eqn:Hrec; [|by rewrite not_recording_idle]. simpl.
    destruct (truthy_num (currentTurnId (state w))) eqn:Htr;
      [|by rewrite on_turn_end_no_turn].
    destruct (currentTurnId (state w)) as [tid|] eqn:Htid; [|done].
    assert (tid ≠ 0) as Hnz by (by intros ->).
    destruct (Hopen sid eq_refl) as (d & f & Hd & Hp & Hc & Hsid & Hct & Hf & Hlag & Hcf).
    destruct (on_turn_end_statements e now w sid d tid Hrec Hd Hp Htid Hnz)
      as (d1 & d2 & d' & Hd1 & Hd2 & Hmsg & Hdb' & Hf' & Hst).
    simpl in *.
    pose proof (update_turn_consistent _ _ _ _ _ _ _ _ _ _ _ Hd1 Hc) as Hc1.
    pose proof (update_turn_ids _ _ _ _ _ _ _ _ _ _ _ Hd1) as Hids1.
    pose proof (update_session_totals_ids _ _ _ _ _ _ Hd2) as Hids2.
    injection Hd1 as Hd1. injection Hd2 as Hd2.
    assert (consistent known d2) as Hc2.
    { apply (consistent_same_keys d1); try done; by rewrite <- Hd2. }
    assert (s_id <$> sessions d2 = s_id <$> sessions d) as Hs2.
    { rewrite Hids2, <- Hd1. done. }
    assert (t_id <$> turns d2 = t_id <$> turns d) as Ht2.
    { rewrite <- Hd2. simpl. done. }
    assert (consistent known d' ∧ s_id <$> sessions d' = s_id <$> sessions d) as [Hc' Hs'].
    { destruct Hmsg as [->|(text & Hins)]; [done|]. split.
      - apply (insert_message_consistent _ _ _ _ _ _ _ Hins); [by rewrite Hs2| |done].
        intros ? [= <-]. rewrite Ht2. by apply Hct.
      - injection Hins as <-. done. }
    apply (consistent_world_open _ d' d'); [done|done|done|done| |apply lags_refl].
    rewrite Hst, Hs'. destruct (Hdb d Hd) as (_ & Hs & _). exact Hs.
  - destruct (recording w) as [sid|] eqn:Hrec; [|by rewrite not_recording_idle]. simpl.
    destruct (Hopen sid eq_refl) as (d & f & Hd & Hp & Hc & Hsid & Hct & Hf & Hlag & Hcf).
    destruct (on_tool_call_recorded e now w sid d Hrec Hd) as (Hdb' & Hf' & _ & Hs' & _).
    simpl in *.
    destruct (insert_tool_call (tc_toolCallId e) sid (currentTurnId (state w))
                (toolName e) (input_json e) now d) as [d'|] eqn:Hins; simpl in *.
    + assert (consistent known d') as Hc'.
      { by apply (insert_tool_call_consistent _ _ _ _ _ _ _ _ Hins). }
      unfold insert_tool_call in Hins. destruct (existsb _ _); [done|].
      injection Hins as Hins.
      apply (consistent_world_open _ d' f); [done|by rewrite Hf'|done|done| |].
      * rewrite Hs', <- Hins. simpl. destruct (Hdb d Hd) as (_ & Hs & _). exact Hs.
      * destruct Hlag as (? & ? & ? & ? & ?). rewrite <- Hins.
        split_and!; simpl; try done. by apply prefix_app_r.
    + apply (consistent_world_open _ d f); [done|by rewrite Hf'|done|done| |done].
      rewrite Hs'. destruct (Hdb d Hd) as (_ & Hs & _). exact Hs.
  - destruct (recording w) as [sid|] eqn:Hrec; [|by rewrite not_recording_idle]. simpl.
    destruct (Hopen sid eq_refl) as (d & f & Hd & Hp & Hc & Hsid & Hct & Hf & Hlag & Hcf).
    destruct (on_tool_result_recorded e now w sid d Hrec Hd Hp)
      as (d' & Hd' & Hdb' & Hf' & _ & Hs' & _).
    simpl in *.
    pose proof (update_tool_call_consistent _ _ _ _ _ _ _ Hd' Hc) as Hc'.
    injection Hd' as Hd'.
    apply (consistent_world_open _ d' d'); [done|done|done|done| |apply lags_refl].
    rewrite Hs', <- Hd'. simpl. destruct (Hdb d Hd) as (_ & Hs & _). exact Hs.
  - destruct (recording w) as [sid|] eqn:Hrec; [|by rewrite not_recording_idle]. simpl.
    destruct (Hopen sid eq_refl) as (d & f & Hd & Hp & Hc & Hsid & Hct & Hf & Hlag & Hcf).
    destruct (on_model_select_recorded e now w sid d Hrec Hd Hp)
      as (d' & Hd' & Hdb' & Hf' & _ & Hst).
    simpl in *. assert (consistent known d') as Hc'.
    { by apply (insert_model_change_consistent _ _ _ _ _ _ _ _ Hd'). }
    injection Hd' as Hd'.
    apply (consistent_world_open _ d' d'); [done|done|done|done| |apply lags_refl].
    rewrite Hst, <- Hd'. simpl. destruct (Hdb d Hd) as (_ & Hs & _). exact Hs.
Qed.

Lemma run_consistent (evs : list Event) : ∀ w : World,
  Forall (covered known) evs →
  wf_world w → consistent_world known w → consistent_world known (run evs w).
Proof.
  induction evs as [|ev evs IH]; intros w Hcov Hwf Hcw; [done|].
  apply Forall_cons in Hcov as [Hev Hcov].
  simpl. apply IH; [done|by apply handle_wf|by apply handle_consistent].
Qed.

End Known.

Lemma covered_orphans (evs : list Event) (known : list string) :
  (∀ sid, sid ∈ orphans evs → sid ∈ known) → Forall (covered known) evs.
Proof.
  induction evs as [|ev evs IH]; intros Hall; [constructor|].
  constructor.
  - destruct ev as [ctx ok now| | | | | | |]; try done. simpl. intros Hsf. apply Hall.
    unfold orphans. simpl. rewrite Hsf. apply list_elem_of_here.
  - apply IH. intros sid Hsid. apply Hall.
    unfold orphans in *. simpl. destruct ev as [ctx ok now| | | | | | |]; try done.
    destruct (getSessionFile ctx); [done|]. by apply list_elem_of_further.
Qed.

(** Every world the recorder can be in is consistent, up to the
    sessions that were started without a session file. *)
Lemma reachable_consistent (history : list Event) :
  consistent_world (orphans history) (run history initial_world).
Proof.
  apply run_consistent; [by apply covered_orphans|apply initial_world_wf|].
  split; intros ? H; discriminate H.
Qed.

(** Whatever events the recorder has processed, in whatever order, the
    primary keys of the five tables of the database file are unique:
    no two sessions, turns, tool calls, messages or model changes share
    an identifier. *)
Theorem stored_keys_are_unique (history : list Event) (f : Database) :
  file (run history initial_world) = Some f →
  NoDup (s_id <$> sessions f) ∧ NoDup (t_id <$> turns f)
  ∧ NoDup (tc_id <$> tool_calls f) ∧ NoDup (m_id <$> messages f)
  ∧ NoDup (mc_id <$> model_changes f).
Proof.
  intros Hf. destruct (reachable_consistent history) as [_ Hfile].
  by destruct (Hfile f Hf) as [Hkeys _].
Qed.

(** Whatever events the recorder has processed, the [turn_id] of every
    tool call and message of the database file is NULL or the
    identifier of a [turns] row, and the [session_id] of every turn,
    tool call, message and model change is the identifier of a
    [sessions] row or that of a session that was started without a
    session file (whose row was not written): when every session start
    came with a session file, every reference of the file resolves. *)
Theorem stored_references_resolve (history : list Event) (f : Database) :
  file (run history initial_world) = Some f →
  refers_to (orphans history ++ (s_id <$> sessions f)) (t_id <$> turns f) f
  ∧ (orphans history = [] → refers_to (s_id <$> sessions f) (t_id <$> turns f) f).
Proof.
  intros Hf. destruct (reachable_consistent history) as [_ Hfile].
  destruct (Hfile f Hf) as [_ Hrefs]. split; [done|].
  intros Hnone. unfold references_hold in Hrefs. by rewrite Hnone in Hrefs.
Qed.

(** While a database is open, the file holds all of it except the turn
    rows and tool-call rows inserted since the last write (a turn start
    and a tool call do not write the file): the sessions, messages and
    model changes of the file are those of the open database, and its
    turns and tool calls are an initial part of those of the open
    database. *)
Theorem file_lags_by_unwritten_rows (history : list Event) (d : Database) :
  db (run history initial_world) = Some d →
  ∃ f, file (run history initial_world) = Some f
       ∧ sessions f = sessions d ∧ messages f = messages d
       ∧ model_changes f = model_changes d
       ∧ turns f `prefix_of` turns d ∧ tool_calls f `prefix_of` tool_calls d.
Proof.
  intros Hd. destruct (reachable_consistent history) as [Hdb _].
  destruct (Hdb d Hd) as (_ & _ & f & Hf & Hlag). by exists f.
Qed.

(** *** Session shutdown *)

Lemma exactly_one_with_id (sid : string) (l : list session_row) :
  NoDup (s_id <$> l) → sid ∈ (s_id <$> l) →
  ∃ row, List.filter (fun r => String.eqb (s_id r) sid) l = [row].
Proof.
  intros Hnd (r & -> & Hr)%list_elem_of_fmap.
  pose proof (at_most_one_with_id (s_id r) l Hnd) as Hle.
  assert (r ∈ List.filter (fun r0 => String.eqb (s_id r0) (s_id r)) l) as Hin.
  { apply list_elem_of_In, List.filter_In. split; [by apply list_elem_of_In|].
    apply String.eqb_refl. }
  destruct (List.filter _ l) as [|row [|row' rest]]; simpl in *; [|by eauto|lia].
  by apply elem_of_nil in Hin.
Qed.

Lemma ended_stamped (sid : string) (now : Z) (l : list session_row) :
  List.filter (fun r => String.eqb (s_id r) sid)
    ((fun r => if String.eqb (s_id r) sid
               then {| s_rowid := s_rowid r; s_id := s_id r;
                       s_session_file := s_session_file r; s_cwd := s_cwd r;
                       s_started_at := s_started_at r; s_ended_at := Some now;
                       s_model_provider := s_model_provider r;
                       s_model_id := s_model_id r;
                       s_total_input_tokens := s_total_input_tokens r;
                       s_total_output_tokens := s_total_output_tokens r;
                       s_total_cost := s_total_cost r |}
               else r) <$> l)
  = (fun r => {| s_rowid := s_rowid r; s_id := s_id r;
                 s_session_file := s_session_file r; s_cwd := s_cwd r;
                 s_started_at := s_started_at r; s_ended_at := Some now;
                 s_model_provider := s_model_provider r;
                 s_model_id := s_model_id r;
                 s_total_input_tokens := s_total_input_tokens r;
                 s_total_output_tokens := s_total_output_tokens r;
                 s_total_cost := s_total_cost r |})
      <$> List.filter (fun r => String.eqb (s_id r) sid) l.
Proof.
  induction l as [|r l IH]; [done|].
  rewrite fmap_cons. simpl.
  destruct (String.eqb (s_id r) sid) eqn:E; simpl; rewrite E, ?fmap_cons, IH; done.
Qed.

Lemma ended_elsewhere (sid : string) (now : Z) (l : list session_row) :
  List.filter (fun r => String.eqb (s_id r) sid) l = [] →
  (fun r => if String.eqb (s_id r) sid
            then {| s_rowid := s_rowid r; s_id := s_id r;
                    s_session_file := s_session_file r; s_cwd := s_cwd r;
                    s_started_at := s_started_at r; s_ended_at := Some now;
                    s_model_provider := s_model_provider r;
                    s_model_id := s_model_id r;
                    s_total_input_tokens := s_total_input_tokens r;
                    s_total_output_tokens := s_total_output_tokens r;
                    s_total_cost := s_total_cost r |}
            else r) <$> l = l.
Proof.
  induction l as [|r l IH]; [done|]. rewrite fmap_cons. simpl.
  destruct (String.eqb (s_id r) sid) eqn:E; [done|]. intros Hnone. by rewrite IH.
Qed.

(** A session shutdown that arrives while the recorder is recording
    stamps the end time on the row of the session, leaves its start
    time and its totals as they are, writes the file with every other
    table unchanged, and closes the recorder: no database stays open
    and no session identifier is kept. The session has one row unless
    it was started without a session file; when it has none, no row is
    stamped and the sessions table stays as it is. *)
Theorem shutdown_stamps_the_session (history : list Event) (sid : string) (d : Database)
    (now : Z) :
  let w := run history initial_world in
  recording w = Some sid →
  db w = Some d →
  let w' := handle (session_shutdown now) w in
  db w' = None ∧ sessionId (state w') = None
  ∧ ∃ f,
      file w' = Some f
      ∧ (sid ∉ orphans history → ∃ row, sessions_with_id sid d = [row])
      ∧ (∀ row, sessions_with_id sid d = [row] →
           ∃ row', sessions_with_id sid f = [row']
                   ∧ s_ended_at row' = Some now
                   ∧ s_started_at row' = s_started_at row
                   ∧ s_total_input_tokens row' = s_total_input_tokens row
                   ∧ s_total_output_tokens row' = s_total_output_tokens row
                   ∧ s_total_cost row' = s_total_cost row)
      ∧ (sessions_with_id sid d = [] → sessions f = sessions d)
      ∧ turns f = turns d ∧ tool_calls f = tool_calls d
      ∧ messages f = messages d ∧ model_changes f = model_changes d.
Proof.
  intros w Hrec Hd w'. subst w'. simpl.
  pose proof (wf_world_path w (reachable_wf history) d Hd) as Hp.
  destruct (recording_db w sid Hrec) as (? & _ & Hsid & _).
  destruct (reachable_consistent history) as [Hdb _]. fold w in Hdb.
  destruct (Hdb d Hd) as ([(Hnd & _) _] & Hs & _).
  destruct (on_session_shutdown_recorded now w sid d Hrec Hd Hp)
    as (f & [= Hf] & Hdb' & Hf' & Hsid').
  simpl in *. split; [done|]. split; [done|].
  exists f. split; [done|]. split_and!.
  - intros Hfile. apply exactly_one_with_id; [done|].
    pose proof (Hs sid Hsid) as Hin. by apply elem_of_app in Hin as [?|?].
  - intros row Hrow. eexists. split.
    + unfold sessions_with_id in *. rewrite <- Hf. simpl.
      rewrite ended_stamped, Hrow. reflexivity.
    + done.
  - intros Hnone. rewrite <- Hf. simpl. by apply ended_elsewhere.
  - by rewrite <- Hf.
  - by rewrite <- Hf.
  - by rewrite <- Hf.
  - by rewrite <- Hf.
Qed.


End Store.


(** *** The theorems at concrete events, with integer costs *)

(** A session with one turn that runs one tool: 120 input tokens, 30
    output tokens and a cost of 7 are recorded for the turn and for the
    session. *)
Lemma session_totals_sum_turn_usage_witness :
  let ctx := {| getSessionId := "s1"; getSessionFile := Some "s1.jsonl"; cwd := "/work";
                model := Some {| provider := "anthropic"; id := "m" |} |} in
  let t := {| turn_started := {| turnIndex := 0; timestamp := 1000 |};
              turn_during :=
                [act_tool_call {| tc_toolCallId := "c1"; toolName := "bash";
                                  input_json := "{}" |} 1010;
                 act_tool_result {| tr_toolCallId := "c1";
                                    tr_content := [{| item_type := "text";
                                                      item_text := Some "ok" |}];
                                    tr_isError := false |} 1020];
              turn_ended :=
                {| message := {| msg_provider := Some "anthropic"; msg_model := Some "m";
                                 content := Some [{| item_type := "text";
                                                     item_text := Some "done" |}];
                                 usage := Some {| input := Some 120; output := Some 30;
                                                  usage_cost := Some {| total := Some 7 |} |};
                                 stopReason := Some "stop" |} |};
              turn_ended_now := 1500; turn_after := [] |} in
  let w := run Z.add 0 (session_events ctx true 900 [act_input {| input_text := "hi" |} 950] [t])
             (run Z.add 0 [] initial_world) in
  store_opens true (run Z.add 0 [] initial_world)
  ∧ is_Some (getSessionFile ctx)
  ∧ ∃ d row rows,
      file w = Some d
      ∧ sessions_with_id "s1" d = [row]
      ∧ turns d = rows
      ∧ length rows = 1%nat
      ∧ row_usage <$> rows = [(120, 30, 7)]
      ∧ s_total_input_tokens row = sum_tokens (t_input_tokens <$> rows)
      ∧ s_total_output_tokens row = sum_tokens (t_output_tokens <$> rows)
      ∧ s_total_cost row = sum_cost Z.add 0 (t_cost <$> rows).
Proof.
  intros ctx t w.
  assert (getSessionId ctx ≠ "") as Hne by discriminate.
  assert (store_opens true (run Z.add 0 [] initial_world)) as Hopen
    by (vm_compute; reflexivity).
  assert (is_Some (getSessionFile ctx)) as Hfile by (by eexists).
  split; [exact Hopen|]. split; [exact Hfile|].
  destruct (session_totals_sum_turn_usage Z.add 0 [] ctx true 900
              [act_input {| input_text := "hi" |} 950] [t] Hopen Hfile)
    as (d & row & rows & Hf & Hone & Ht & _ & Hi & Ho & Hc & _ & Hn).
  destruct (Hn Hne) as [Hlen Hus].
  exists d, row, rows. split_and!; assumption.
Defined.

(** C1. A session that is started without a session file has no row to
    total its turns in: the insert of the session row binds the
    [undefined] that [getSessionFile()] returned and is refused, the
    recorder goes on, and the turn is stored with its usage while the
    sessions table stays empty. *)
Lemma session_without_file_has_no_totals :
  let ctx := {| getSessionId := "s1"; getSessionFile := None; cwd := "/work";
                model := Some {| provider := "anthropic"; id := "m" |} |} in
  let ended := {| message := {| msg_provider := None; msg_model := None; content := None;
                                usage := Some {| input := Some 120; output := Some 30;
                                                 usage_cost := Some {| total := Some 7 |} |};
                                stopReason := None |} |} in
  let w := run Z.add 0 [session_start ctx true 900;
                        turn_start {| turnIndex := 0; timestamp := 1000 |};
                        turn_end ended 1500] initial_world in
  recording w = Some "s1"
  ∧ (fun d => (s_id <$> sessions d,
               (fun r => (t_id r, t_session_id r, t_ended_at r,
                          t_input_tokens r, t_output_tokens r, t_cost r)) <$> turns d))
      <$> file w
    = Some ([], [(1, "s1", Some 1500, 120, 30, 7)]).
Proof. split; vm_compute; reflexivity. Qed.

Lemma end_event_fills_end_fields_witness :
  let history :=
    [session_start {| getSessionId := "s1"; getSessionFile := Some "s1.jsonl";
                      cwd := "/work"; model := None |} true 900;
     turn_start {| turnIndex := 0; timestamp := 1000 |};
     tool_call {| tc_toolCallId := "c1"; toolName := "bash"; input_json := "{}" |} 1010] in
  let w := run Z.add 0 history initial_world in
  ∃ d, recording w = Some "s1" ∧ db w = Some d
       ∧ currentTurnId (state w) = Some 1
       ∧ (∀ e now, ∃ d', db (handle Z.add 0 (turn_end e now) w) = Some d'
                         ∧ ∀ r, r ∈ turns d' → t_id r = 1 → t_ended_at r = Some now)
       ∧ (∀ e now, tr_toolCallId e = "c1" →
                   ∃ d', db (handle Z.add 0 (tool_result e now) w) = Some d'
                         ∧ ∀ r, r ∈ tool_calls d' → tc_id r = "c1" →
                                tc_ended_at r = Some now).
Proof.
  intros history w.
  assert (recording w = Some "s1") as Hrec by (vm_compute; reflexivity).
  assert (currentTurnId (state w) = Some 1) as Htid by (vm_compute; reflexivity).
  assert (∃ d, db w = Some d ∧ ∃ r0, r0 ∈ tool_calls d ∧ tc_id r0 = "c1") as (d & Hd & r0 & Hr0 & Hid0).
  { eexists. split; [vm_compute; reflexivity|].
    eexists. split; [apply list_elem_of_here|reflexivity]. }
  exists d. split; [exact Hrec|]. split; [exact Hd|]. split; [exact Htid|].
  destruct (end_event_fills_end_fields Z.add 0 history "s1" d Hrec Hd) as [Hturn Htool].
  split.
  - intros e now. destruct (Hturn e now 1 Htid) as (d' & Hd' & _ & _ & Hrows).
    exists d'. split; [exact Hd'|]. intros r Hr Hid. by destruct (Hrows r Hr Hid).
  - intros e now He.
    destruct (Htool e now r0 Hr0) as (d' & Hd' & _ & _ & Hrows).
    + by rewrite He.
    + exists d'. split; [exact Hd'|]. intros r Hr Hid. rewrite <- He in Hid.
      by destruct (Hrows r Hr Hid).
Defined.

(** C2 as stated fails in three ways. End events that arrive once the
    store is closed are dropped at the guard of their handler, so the
    rows of a turn that was open and of a tool call that was recorded
    when the session shut down keep their start without an end. A
    session start forgets the current turn, so a turn end that follows
    it is dropped although the recorder is recording. And the recorder
    remembers one turn only: when a second turn starts before the first
    has ended, both turn ends stamp the second row and the first stays
    open. *)
Lemma end_events_leave_rows_open :
  let ctx := {| getSessionId := "s1"; getSessionFile := Some "s1.jsonl"; cwd := "/work";
                model := None |} in
  let ended := {| message := {| msg_provider := None; msg_model := None; content := None;
                                usage := None; stopReason := None |} |} in
  let rows := fun d : Database =>
    ((fun r => (t_id r, t_started_at r, t_ended_at r)) <$> turns d,
     (fun r => (tc_id r, tc_started_at r, tc_ended_at r)) <$> tool_calls d) in
  let shut := run Z.add 0 [session_start ctx true 900;
                           turn_start {| turnIndex := 0; timestamp := 1000 |};
                           tool_call {| tc_toolCallId := "c1"; toolName := "bash";
                                        input_json := "{}" |} 1010;
                           session_shutdown 1020] initial_world in
  let after_shutdown :=
    run Z.add 0 [tool_result {| tr_toolCallId := "c1"; tr_content := [];
                                tr_isError := false |} 1030;
                 turn_end ended 1040] shut in
  let restarted := run Z.add 0 [session_start ctx true 900;
                                turn_start {| turnIndex := 0; timestamp := 1000 |};
                                session_start ctx true 1010] initial_world in
  let after_restart := handle Z.add 0 (turn_end ended 1020) restarted in
  let overlapping := run Z.add 0 [session_start ctx true 900;
                                  turn_start {| turnIndex := 0; timestamp := 1000 |};
                                  turn_start {| turnIndex := 1; timestamp := 1010 |};
                                  turn_end ended 1020;
                                  turn_end ended 1030] initial_world in
  (currentTurnId (state shut) = Some 1
   ∧ rows <$> file shut = Some ([(1, 1000, None)], [("c1", 1010, None)])
   ∧ rows <$> file after_shutdown = Some ([(1, 1000, None)], [("c1", 1010, None)]))
  ∧ (recording restarted = Some "s1"
     ∧ currentTurnId (state restarted) = None
     ∧ rows <$> db after_restart = Some ([(1, 1000, None)], [])
     ∧ rows <$> file after_restart = Some ([(1, 1000, None)], []))
  ∧ (recording overlapping = Some "s1"
     ∧ rows <$> db overlapping = Some ([(1, 1000, None); (2, 1010, Some 1030)], [])
     ∧ rows <$> file overlapping = Some ([(1, 1000, None); (2, 1010, Some 1030)], [])).
Proof. split_and!; vm_compute; reflexivity. Qed.

(** A text of 51201 characters as user input and as the first text item
    of a tool result, and an assistant message of two short texts. *)
Lemma stored_content_is_capped_witness :
  let long := string_of_list_ascii (repeat "a"%char (50 * 1024 + 1)) in
  let history :=
    [session_start {| getSessionId := "s1"; getSessionFile := Some "s1.jsonl";
                      cwd := "/work"; model := None |} true 900;
     turn_start {| turnIndex := 0; timestamp := 1000 |};
     tool_call {| tc_toolCallId := "c1"; toolName := "bash"; input_json := "{}" |} 1010] in
  let w := run Z.add 0 history initial_world in
  let result := {| tr_toolCallId := "c1";
                   tr_content := [{| item_type := "text"; item_text := Some long |};
                                  {| item_type := "image"; item_text := None |};
                                  {| item_type := "text"; item_text := Some "" |};
                                  {| item_type := "text"; item_text := Some "tail" |}];
                   tr_isError := false |} in
  let ended := {| message := {| msg_provider := None; msg_model := None;
                                content := Some [{| item_type := "text"; item_text := Some "a" |};
                                                 {| item_type := "thinking";
                                                    item_text := Some "hm" |};
                                                 {| item_type := "text"; item_text := Some "b" |}];
                                usage := None; stopReason := None |} |} in
  ∃ d, recording w = Some "s1" ∧ db w = Some d
       ∧ (∃ d' row,
             db (handle Z.add 0 (input_event {| input_text := long |} 1020) w) = Some d'
             ∧ messages d' = messages d ++ [row]
             ∧ m_content row = Some (substring 0 MAX_RESULT_SIZE long +:+ TRUNCATION_MARKER))
       ∧ (∃ d' stored,
             db (handle Z.add 0 (tool_result result 1030) w) = Some d'
             ∧ (∀ r, r ∈ tool_calls d' → tc_id r = "c1" → tc_result_text r = Some stored)
             ∧ stored = substring 0 MAX_RESULT_SIZE (String.concat LF [long; "tail"])
                        +:+ TRUNCATION_MARKER
             ∧ String.length stored = (MAX_RESULT_SIZE + String.length TRUNCATION_MARKER)%nat)
       ∧ (∃ d' row,
             db (handle Z.add 0 (turn_end ended 1040) w) = Some d'
             ∧ messages d' = messages d ++ [row]
             ∧ m_content row = Some ("a" +:+ LF +:+ "b")).
Proof.
  intros long history w result ended.
  assert (MAX_RESULT_SIZE < String.length long)%nat as Hlen
    by (apply Nat.ltb_lt; vm_compute; reflexivity).
  assert (MAX_RESULT_SIZE < String.length (String.concat LF [long; "tail"]))%nat as Hlen'
    by (apply Nat.ltb_lt; vm_compute; reflexivity).
  assert (long ≠ "") as Hlong by (intros H; rewrite H in Hlen; simpl in Hlen; lia).
  clearbody long.
  assert (recording w = Some "s1") as Hrec by (vm_compute; reflexivity).
  assert (currentTurnId (state w) = Some 1) as Htid by (vm_compute; reflexivity).
  assert (∃ d, db w = Some d ∧ ∃ r0, r0 ∈ tool_calls d ∧ tc_id r0 = "c1")
    as (d & Hd & r0 & Hr0 & Hid0).
  { eexists. split; [vm_compute; reflexivity|].
    eexists. split; [apply list_elem_of_here|reflexivity]. }
  exists d. split; [exact Hrec|]. split; [exact Hd|].
  destruct (stored_content_is_capped Z.add 0 history "s1" d Hrec Hd) as (Hin & Htool & Hmsg).
  split_and!.
  - destruct (Hin {| input_text := long |} 1020)
      as (d' & row & stored & Hd' & _ & Hm & _ & Hc & Hcap & _).
    exists d', row. split; [exact Hd'|]. split; [exact Hm|].
    destruct Hcap as (-> & _); [exact Hlen|exact Hc].
  - destruct (Htool result 1030 r0 [long; "tail"] Hr0 Hid0)
      as (d' & stored & Hd' & _ & _ & Hrows & Hcap & _).
    { apply text_content_text; [exact Hlong|].
      apply text_content_other; [by left|].
      apply text_content_other; [by right; right|].
      apply text_content_text; [done|]. apply text_content_nil. }
    exists d', stored. split; [exact Hd'|]. split; [exact Hrows|].
    destruct Hcap as (Hs & _ & _ & Hl); [exact Hlen'|].
    split; [exact Hs|exact Hl].
  - destruct (Hmsg ended 1040 1 _ ["a"; "b"] Htid eq_refl)
      as (d' & row & stored & Hd' & _ & Hm & _ & Hc & _ & Hcap & _).
    { apply text_content_text; [done|].
      apply text_content_other; [by left|].
      apply text_content_text; [done|]. apply text_content_nil. }
    { done. }
    exists d', row. split; [exact Hd'|]. split; [exact Hm|].
    rewrite Hc, Hcap; [reflexivity|]. apply Nat.leb_le. vm_compute. reflexivity.
Defined.

(** Two starts of the session "s1" with a session file: one row, with
    the values of the second start. *)
Lemma session_start_replay_replaces_witness :
  let ctx1 := {| getSessionId := "s1"; getSessionFile := Some "s1.jsonl"; cwd := "/a";
                 model := None |} in
  let ctx2 := {| getSessionId := "s1"; getSessionFile := Some "s1.jsonl"; cwd := "/b";
                 model := None |} in
  let w1 := run Z.add 0 ([] ++ [session_start ctx1 true 900]) initial_world in
  let w2 := handle Z.add 0 (session_start ctx2 true 950) w1 in
  getSessionId ctx2 = getSessionId ctx1
  ∧ store_opens true w1
  ∧ ∃ d2 row2, db w2 = Some d2 ∧ file w2 = Some d2
               ∧ sessions_with_id "s1" d2 = [row2]
               ∧ s_cwd row2 = "/b" ∧ s_started_at row2 = 950.
Proof.
  intros ctx1 ctx2 w1 w2.
  assert (store_opens true w1) as Hopen by (vm_compute; reflexivity).
  split; [reflexivity|]. split; [exact Hopen|].
  destruct (session_start_replay_replaces Z.add 0 [] ctx1 ctx2 true true 900 950 eq_refl)
    as [_ Hreplaced].
  destruct (Hreplaced Hopen) as (_ & d2 & row2 & Hd & Hf & Hone & _ & Hcwd & Hst & _);
    [by eexists..|].
  exists d2, row2. split_and!; assumption.
Defined.

(** C7. Replayed for a session without session file, the session start
    leaves no row at all, where the claim wants exactly one: the insert
    binds the [undefined] that [getSessionFile()] returned and is
    refused both times, while the recorder goes on recording. *)
Lemma replayed_start_without_file_leaves_no_row :
  let ctx := {| getSessionId := "s1"; getSessionFile := None; cwd := "/work";
                model := None |} in
  let w := run Z.add 0 [session_start ctx true 900; session_start ctx true 950]
             initial_world in
  recording w = Some "s1"
  ∧ sessions_with_id "s1" <$> db w = Some []
  ∧ sessions_with_id "s1" <$> file w = Some [].
Proof. split_and!; vm_compute; reflexivity. Qed.

(** The session of the first witness, evaluated: one session row with
    the totals of its single turn, whose row is complete. *)
Example recorded_session_evaluated :
  let ctx := {| getSessionId := "s1"; getSessionFile := Some "s1.jsonl"; cwd := "/work";
                model := None |} in
  let ended := {| message := {| msg_provider := None; msg_model := None; content := None;
                                usage := Some {| input := Some 120; output := Some 30;
                                                 usage_cost := Some {| total := Some 7 |} |};
                                stopReason := None |} |} in
  let w := run Z.add 0 [session_start ctx true 900;
                        turn_start {| turnIndex := 0; timestamp := 1000 |};
                        turn_end ended 1500] initial_world in
  (fun d => ((fun r => (s_id r, s_total_input_tokens r, s_total_output_tokens r,
                        s_total_cost r)) <$> sessions d,
             (fun r => (t_id r, t_started_at r, t_ended_at r, t_duration_ms r,
                        t_input_tokens r, t_output_tokens r, t_cost r)) <$> turns d))
    <$> file w
  = Some ([("s1", 120, 30, 7)], [(1, 1000, Some 1500, Some 500, 120, 30, 7)]).
Proof. vm_compute. reflexivity. Qed.

(** The cap on a text one character over the limit and on one exactly
    at the limit. *)
Example truncate_over_cap :
  let s := string_of_list_ascii (repeat "a"%char (50 * 1024 + 1)) in
  Nat.eqb (String.length (truncate s)) (50 * 1024 + 24)
  && String.eqb (substring (50 * 1024) 24 (truncate s)) TRUNCATION_MARKER
  && String.eqb (substring 0 (50 * 1024) (truncate s)) (substring 0 (50 * 1024) s) = true.
Proof. vm_compute. reflexivity. Qed.

Example truncate_at_cap :
  let s := string_of_list_ascii (repeat "a"%char (50 * 1024)) in
  String.eqb (truncate s) s = true.
Proof. vm_compute. reflexivity. Qed.

Example extractTextContent_joins :
  extractTextContent [{| item_type := "text"; item_text := Some "a" |};
                      {| item_type := "image"; item_text := None |};
                      {| item_type := "text"; item_text := Some "" |};
                      {| item_type := "text"; item_text := Some "b" |}]
  = "a" +:+ LF +:+ "b".
Proof. reflexivity. Qed.

(** *** The further properties at concrete events *)

Lemma nothing_is_recorded_after_shutdown_witness :
  let history :=
    [session_start {| getSessionId := "s1"; getSessionFile := None; cwd := "/work";
                      model := None |} true 900;
     input_event {| input_text := "hi" |} 950] in
  let later :=
    [input_event {| input_text := "late" |} 1100;
     turn_start {| turnIndex := 0; timestamp := 1200 |};
     session_shutdown 1300] in
  Forall (λ ev, ∀ ctx ok t, ev ≠ session_start ctx ok t) later
  ∧ run Z.add 0 (history ++ session_shutdown 1000 :: later) initial_world
    = run Z.add 0 (history ++ [session_shutdown 1000]) initial_world.
Proof.
  intros history later.
  assert (Forall (λ ev, ∀ ctx ok t, ev ≠ session_start ctx ok t) later) as Hlater
    by (repeat constructor; discriminate).
  split; [exact Hlater|].
  exact (nothing_is_recorded_after_shutdown Z.add 0 history later 1000 Hlater).
Defined.

Lemma completed_turn_row_witness :
  let history :=
    [session_start {| getSessionId := "s1"; getSessionFile := None; cwd := "/work";
                      model := None |} true 900] in
  let ended := {| message := {| msg_provider := Some "anthropic"; msg_model := Some "m";
                                content := None;
                                usage := Some {| input := Some 120; output := Some 30;
                                                 usage_cost := Some {| total := Some 7 |} |};
                                stopReason := Some "stop" |} |} in
  let w := run Z.add 0 history initial_world in
  let w' := run Z.add 0
              (turn_start {| turnIndex := 0; timestamp := 1000 |}
                 :: (activity_event <$> [act_input {| input_text := "more" |} 1100])
                 ++ [turn_end ended 1500]) w in
  ∃ d, recording w = Some "s1" ∧ db w = Some d
       ∧ ∃ f row, file w' = Some f ∧ turns f = turns d ++ [row]
                  ∧ t_started_at row = 1000 ∧ t_ended_at row = Some 1500
                  ∧ t_duration_ms row = Some (1500 - 1000)
                  ∧ t_stop_reason row = Some "stop".
Proof.
  intros history ended w w'.
  assert (recording w = Some "s1") as Hrec by (vm_compute; reflexivity).
  assert (∃ d, db w = Some d) as (d & Hd) by (eexists; vm_compute; reflexivity).
  exists d. split; [exact Hrec|]. split; [exact Hd|].
  destruct (completed_turn_row Z.add 0 history "s1" d {| turnIndex := 0; timestamp := 1000 |}
              [act_input {| input_text := "more" |} 1100] ended 1500 Hrec Hd)
    as (f & row & Hf & _ & Ht & _ & _ & _ & Hs & He & Hdur & _ & _ & _ & _ & _ & Hstop).
  exists f, row. split_and!; assumption.
Defined.

Lemma completed_tool_call_row_witness :
  let history :=
    [session_start {| getSessionId := "s1"; getSessionFile := None; cwd := "/work";
                      model := None |} true 900;
     turn_start {| turnIndex := 0; timestamp := 1000 |}] in
  let call := {| tc_toolCallId := "c1"; toolName := "bash"; input_json := "{}" |} in
  let other := {| tc_toolCallId := "c2"; toolName := "read"; input_json := "{}" |} in
  let result := {| tr_toolCallId := "c1";
                   tr_content := [{| item_type := "text"; item_text := Some "ok" |}];
                   tr_isError := false |} in
  let between := [act_tool_call other 1020; act_input {| input_text := "go on" |} 1030] in
  let w := run Z.add 0 history initial_world in
  let w' := run Z.add 0
              (tool_call call 1010 :: (activity_event <$> between)
                 ++ [tool_result result 1050]) w in
  ∃ d, recording w = Some "s1" ∧ db w = Some d
       ∧ (tc_toolCallId call ∉ (tc_id <$> tool_calls d))
       ∧ Forall (other_call (tc_toolCallId call)) between
       ∧ ∃ f row, file w' = Some f ∧ calls_with_id "c1" f = [row]
                  ∧ tc_turn_id row = Some 1
                  ∧ tc_started_at row = 1010 ∧ tc_ended_at row = Some 1050
                  ∧ tc_duration_ms row = Some (1050 - 1010)
                  ∧ tc_result_text row = Some "ok".
Proof.
  intros history call other result between w w'.
  assert (recording w = Some "s1") as Hrec by (vm_compute; reflexivity).
  assert (∃ d, db w = Some d ∧ tool_calls d = []) as (d & Hd & Hnone)
    by (eexists; split; vm_compute; reflexivity).
  assert (tc_toolCallId call ∉ (tc_id <$> tool_calls d)) as Hnew.
  { rewrite Hnone. apply not_elem_of_nil. }
  assert (Forall (other_call (tc_toolCallId call)) between) as Hbetween.
  { repeat constructor. simpl. discriminate. }
  exists d. split; [exact Hrec|]. split; [exact Hd|]. split; [exact Hnew|].
  split; [exact Hbetween|].
  destruct (completed_tool_call_row Z.add 0 history "s1" d call 1010 between result 1050
              Hrec Hd Hnew eq_refl Hbetween)
    as (f & row & Hf & _ & Hone & _ & Hturn & _ & _ & Hs & He & Hdur & _ & Htext).
  exists f, row. split_and!; assumption.
Defined.

Lemma unmatched_tool_result_changes_no_row_witness :
  let history :=
    [session_start {| getSessionId := "s1"; getSessionFile := None; cwd := "/work";
                      model := None |} true 900;
     tool_call {| tc_toolCallId := "c1"; toolName := "bash"; input_json := "{}" |} 1010] in
  let stray := {| tr_toolCallId := "c9";
                  tr_content := [{| item_type := "text"; item_text := Some "?" |}];
                  tr_isError := true |} in
  let w := run Z.add 0 history initial_world in
  ∃ d, recording w = Some "s1" ∧ db w = Some d
       ∧ (tr_toolCallId stray ∉ (tc_id <$> tool_calls d))
       ∧ db (handle Z.add 0 (tool_result stray 1020) w) = Some d
       ∧ file (handle Z.add 0 (tool_result stray 1020) w) = Some d.
Proof.
  intros history stray w.
  assert (recording w = Some "s1") as Hrec by (vm_compute; reflexivity).
  assert (∃ d, db w = Some d ∧ tc_id <$> tool_calls d = ["c1"]) as (d & Hd & Hids)
    by (eexists; split; vm_compute; reflexivity).
  assert (tr_toolCallId stray ∉ (tc_id <$> tool_calls d)) as Hnew.
  { rewrite Hids. intros Hin%list_elem_of_singleton. discriminate Hin. }
  exists d. split; [exact Hrec|]. split; [exact Hd|]. split; [exact Hnew|].
  exact (unmatched_tool_result_changes_no_row Z.add 0 history "s1" d stray 1020 Hrec Hd Hnew).
Defined.

Lemma repeated_tool_call_keeps_first_row_witness :
  let history :=
    [session_start {| getSessionId := "s1"; getSessionFile := None; cwd := "/work";
                      model := None |} true 900;
     tool_call {| tc_toolCallId := "c1"; toolName := "bash"; input_json := "{}" |} 1010] in
  let again := {| tc_toolCallId := "c1"; toolName := "read"; input_json := "[]" |} in
  let w := run Z.add 0 history initial_world in
  let w' := handle Z.add 0 (tool_call again 1040) w in
  ∃ d, recording w = Some "s1" ∧ db w = Some d
       ∧ tc_toolCallId again ∈ (tc_id <$> tool_calls d)
       ∧ db w' = Some d ∧ file w' = file w
       ∧ toolCallStarts (state w') !! "c1" = Some 1040.
Proof.
  intros history again w w'.
  assert (recording w = Some "s1") as Hrec by (vm_compute; reflexivity).
  assert (∃ d, db w = Some d ∧ tc_id <$> tool_calls d = ["c1"]) as (d & Hd & Hids)
    by (eexists; split; vm_compute; reflexivity).
  assert (tc_toolCallId again ∈ (tc_id <$> tool_calls d)) as Hin.
  { rewrite Hids. apply list_elem_of_here. }
  exists d. split; [exact Hrec|]. split; [exact Hd|]. split; [exact Hin|].
  exact (repeated_tool_call_keeps_first_row Z.add 0 history "s1" d again 1040 Hrec Hd Hin).
Defined.

Lemma turn_without_text_stores_no_message_witness :
  let history :=
    [session_start {| getSessionId := "s1"; getSessionFile := None; cwd := "/work";
                      model := None |} true 900;
     turn_start {| turnIndex := 0; timestamp := 1000 |}] in
  let ended := {| message := {| msg_provider := None; msg_model := None;
                                content := Some [{| item_type := "toolCall";
                                                    item_text := None |};
                                                 {| item_type := "text";
                                                    item_text := Some "" |}];
                                usage := None; stopReason := Some "toolUse" |} |} in
  let w := run Z.add 0 history initial_world in
  ∃ d, recording w = Some "s1" ∧ db w = Some d ∧ currentTurnId (state w) = Some 1
       ∧ (∀ items, content (message ended) = Some items → text_items items = [])
       ∧ ∃ d', db (handle Z.add 0 (turn_end ended 1500) w) = Some d'
               ∧ messages d' = messages d.
Proof.
  intros history ended w.
  assert (recording w = Some "s1") as Hrec by (vm_compute; reflexivity).
  assert (∃ d, db w = Some d) as (d & Hd) by (eexists; vm_compute; reflexivity).
  assert (currentTurnId (state w) = Some 1) as Htid by (vm_compute; reflexivity).
  assert (∀ items, content (message ended) = Some items → text_items items = []) as Hnotext.
  { intros items [= <-]. reflexivity. }
  exists d. split; [exact Hrec|]. split; [exact Hd|]. split; [exact Htid|].
  split; [exact Hnotext|].
  destruct (turn_without_text_stores_no_message Z.add 0 history "s1" d ended 1500 1
              Hrec Hd Htid ltac:(lia) Hnotext) as (d' & Hd' & _ & Hm & _).
  exists d'. split; assumption.
Defined.

Lemma stored_keys_are_unique_witness :
  let history :=
    [session_start {| getSessionId := "s1"; getSessionFile := None; cwd := "/work";
                      model := None |} true 900;
     turn_start {| turnIndex := 0; timestamp := 1000 |};
     tool_call {| tc_toolCallId := "c1"; toolName := "bash"; input_json := "{}" |} 1010;
     tool_call {| tc_toolCallId := "c1"; toolName := "bash"; input_json := "{}" |} 1020;
     input_event {| input_text := "hi" |} 1030;
     session_start {| getSessionId := "s1"; getSessionFile := None; cwd := "/work";
                      model := None |} true 1100] in
  ∃ f, file (run Z.add 0 history initial_world) = Some f
       ∧ NoDup (s_id <$> sessions f) ∧ NoDup (tc_id <$> tool_calls f).
Proof.
  intros history.
  assert (∃ f, file (run Z.add 0 history initial_world) = Some f) as (f & Hf)
    by (eexists; vm_compute; reflexivity).
  exists f. split; [exact Hf|].
  destruct (stored_keys_are_unique Z.add 0 history f Hf) as (Hs & _ & Hc & _).
  split; assumption.
Defined.

Lemma stored_references_resolve_witness :
  let history :=
    [session_start {| getSessionId := "s1"; getSessionFile := Some "s1.jsonl";
                      cwd := "/work"; model := None |} true 900;
     turn_start {| turnIndex := 0; timestamp := 1000 |};
     tool_call {| tc_toolCallId := "c1"; toolName := "bash"; input_json := "{}" |} 1010;
     input_event {| input_text := "hi" |} 1030;
     session_start {| getSessionId := "s2"; getSessionFile := Some "s2.jsonl";
                      cwd := "/work"; model := None |} true 1100;
     tool_call {| tc_toolCallId := "c2"; toolName := "bash"; input_json := "{}" |} 1110;
     input_event {| input_text := "again" |} 1130] in
  ∃ f, file (run Z.add 0 history initial_world) = Some f
       ∧ Forall (λ r, tc_session_id r ∈ (s_id <$> sessions f)
                      ∧ ∀ tid, tc_turn_id r = Some tid → tid ∈ (t_id <$> turns f))
           (tool_calls f).
Proof.
  intros history.
  assert (∃ f, file (run Z.add 0 history initial_world) = Some f) as (f & Hf)
    by (eexists; vm_compute; reflexivity).
  exists f. split; [exact Hf|].
  destruct (stored_references_resolve Z.add 0 history f Hf) as (_ & Hall).
  by destruct (Hall eq_refl) as (_ & Hcalls & _).
Defined.

Lemma file_lags_by_unwritten_rows_witness :
  let history :=
    [session_start {| getSessionId := "s1"; getSessionFile := None; cwd := "/work";
                      model := None |} true 900;
     input_event {| input_text := "hi" |} 950;
     turn_start {| turnIndex := 0; timestamp := 1000 |};
     tool_call {| tc_toolCallId := "c1"; toolName := "bash"; input_json := "{}" |} 1010] in
  ∃ d f, db (run Z.add 0 history initial_world) = Some d
         ∧ file (run Z.add 0 history initial_world) = Some f
         ∧ messages f = messages d
         ∧ turns f `prefix_of` turns d ∧ tool_calls f `prefix_of` tool_calls d
         ∧ length (turns f) = 0%nat ∧ length (turns d) = 1%nat.
Proof.
  intros history.
  assert (∃ d, db (run Z.add 0 history initial_world) = Some d ∧ length (turns d) = 1%nat)
    as (d & Hd & Hone) by (eexists; split; vm_compute; reflexivity).
  destruct (file_lags_by_unwritten_rows Z.add 0 history d Hd)
    as (f & Hf & _ & Hm & _ & Ht & Hc).
  exists d, f. split_and!; try assumption.
  assert (length <$> (turns <$> file (run Z.add 0 history initial_world)) = Some 0%nat)
    as Hlen by (vm_compute; reflexivity).
  rewrite Hf in Hlen. by injection Hlen.
Defined.

Lemma shutdown_stamps_the_session_witness :
  let history :=
    [session_start {| getSessionId := "s1"; getSessionFile := Some "s1.jsonl";
                      cwd := "/work"; model := None |} true 900;
     turn_start {| turnIndex := 0; timestamp := 1000 |};
     turn_end {| message := {| msg_provider := None; msg_model := None; content := None;
                               usage := Some {| input := Some 120; output := Some 30;
                                                usage_cost := Some {| total := Some 7 |} |};
                               stopReason := None |} |} 1500] in
  let w := run Z.add 0 history initial_world in
  let w' := handle Z.add 0 (session_shutdown 2000) w in
  ∃ d, recording w = Some "s1" ∧ db w = Some d
       ∧ db w' = None
       ∧ ∃ f row', file w' = Some f ∧ sessions_with_id "s1" f = [row']
                   ∧ s_ended_at row' = Some 2000
                   ∧ s_total_input_tokens row' = 120
                   ∧ turns f = turns d.
Proof.
  intros history w w'.
  assert (recording w = Some "s1") as Hrec by (vm_compute; reflexivity).
  assert (∃ d, db w = Some d
               ∧ s_total_input_tokens <$> sessions_with_id "s1" d = [120])
    as (d & Hd & Htot) by (eexists; split; vm_compute; reflexivity).
  exists d. split; [exact Hrec|]. split; [exact Hd|].
  destruct (shutdown_stamps_the_session Z.add 0 history "s1" d 2000 Hrec Hd)
    as (Hclosed & _ & f & Hf & Hone & Hstamp & _ & Ht & _).
  destruct Hone as (row & Hrow); [by intros ?%elem_of_nil|].
  destruct (Hstamp row Hrow) as (row' & Hrow' & Hend & _ & Hin & _).
  split; [exact Hclosed|]. exists f, row'. split_and!; try assumption.
  rewrite Hrow in Htot. injection Htot as Htot. by rewrite Hin.
Defined.


End Recorder.

(** ** fetch_url: results by status *)

Module JinaFacts.

Import Jina.

Example status_is_printed_in_decimal :
  String_Z 404 = "404" ∧ String_Z 500 = "500" ∧ String_Z 301 = "301" ∧ String_Z 0 = "0".
Proof. repeat split; reflexivity. Qed.

Lemma ok_iff (r : Response) : ok r = true ↔ 200 <= status r <= 299.
Proof. unfold ok. rewrite andb_true_iff, !Z.leb_le. done. Qed.

(** One GET to the conversion proxy, asking for markdown. *)
Lemma fetch_request_shape (url : string) :
  req_method (fetch_request url) = "GET"
  ∧ req_url (fetch_request url) = "https://r.jina.ai/" +:+ url
  ∧ req_headers (fetch_request url) = [("Accept", "text/markdown")].
Proof. done. Qed.

(** C8. Once [fetch] has resolved with a response: on a 2xx status the
    body, as [response.text()] gives it, is returned unchanged in a
    result that is not an error; on any other status the tool returns
    (it does not throw) an error result whose text carries the status in
    decimal and the status text. *)
Theorem fetch_url_result_by_status
    (url : string) (fetch : Request → outcome Response) (response : Response) :
  fetch (fetch_request url) = Returned response →
  (200 <= status response <= 299 →
   ∀ text, body response = Returned text →
           execute url fetch = Returned {| text := text; isError := false |})
  ∧ (¬ (200 <= status response <= 299) →
     execute url fetch =
       Returned {| text := "Failed to fetch: " +:+ String_Z (status response)
                           +:+ " " +:+ statusText response;
                   isError := true |}).
Proof.
  intros Hfetch. unfold execute. rewrite Hfetch. simpl. split.
  - intros Hok%ok_iff text Hbody. rewrite Hok, Hbody. done.
  - intros Hnot. destruct (ok response) eqn:Hok; [|done].
    by apply ok_iff in Hok.
Qed.

Lemma fetch_url_result_by_status_witness :
  let found := {| status := 200; statusText := "OK"; set_cookie := []; location := None;
                  body := Returned "# Title" |} in
  let missing := {| status := 404; statusText := "Not Found"; set_cookie := [];
                    location := None; body := Returned "gone" |} in
  execute "https://example.com/a" (fun _ => Returned found)
    = Returned {| text := "# Title"; isError := false |}
  ∧ execute "https://example.com/b" (fun _ => Returned missing)
    = Returned {| text := "Failed to fetch: 404 Not Found"; isError := true |}.
Proof.
  intros found missing. split.
  - apply (fetch_url_result_by_status "https://example.com/a" (fun _ => Returned found) found
             eq_refl); [simpl; lia|reflexivity].
  - apply (fetch_url_result_by_status "https://example.com/b" (fun _ => Returned missing)
             missing eq_refl). simpl. lia.
Defined.

Lemma fetch_rejection_escapes (url : string) (fetch : Request → outcome Response) (e : string) :
  fetch (fetch_request url) = Thrown e → execute url fetch = Thrown e.
Proof. intros Hfetch. unfold execute. by rewrite Hfetch. Qed.

Lemma body_rejection_escapes (url : string) (fetch : Request → outcome Response)
    (response : Response) (e : string) :
  fetch (fetch_request url) = Returned response → ok response = true →
  body response = Thrown e → execute url fetch = Thrown e.
Proof. intros Hfetch Hok Hbody. unfold execute. rewrite Hfetch. simpl. by rewrite Hok, Hbody. Qed.

(** C4. [fetch_url] lets a failure cross its [execute] boundary: when
    the network call rejects (the host cannot be resolved, the
    connection drops, the signal aborts), [execute] rejects with the
    same error instead of returning an error result. *)
Theorem fetch_url_throws_on_network_failure :
  execute "https://unreachable.invalid/" (fun _ => Thrown "fetch failed") = Thrown "fetch failed".
Proof. reflexivity. Qed.

End JinaFacts.

(** ** The tools that catch: no failure crosses [execute] *)

Module CaughtFailures.

Lemma try_catch_returns {A} (body : outcome A) (handler : string → A) :
  ∃ a, try_catch body handler = Returned a.
Proof. destruct body; simpl; eauto. Qed.

Lemma github_search_code_returns JSON_parse trim on_miscast lines params os :
  ∃ r, (GithubSearch.execute JSON_parse trim on_miscast lines params os).2 = Returned r.
Proof. unfold GithubSearch.execute. simpl. apply try_catch_returns. Qed.

Lemma github_failure_is_error_result JSON_parse trim on_miscast lines params os msg :
  (GithubSearch.runGhSearch JSON_parse (GithubSearch.build_args params) os).2 = Thrown msg →
  ∃ r, (GithubSearch.execute JSON_parse trim on_miscast lines params os).2 = Returned r
       ∧ isError r = true ∧ text r ≠ "".
Proof.
  unfold GithubSearch.execute. simpl. intros ->. simpl. eexists. split; [done|].
  unfold GithubSearch.on_error.
  destruct (_ || _); [done|]. destruct (_ || _); done.
Qed.

Lemma ast_grep_returns {M} JSON_parse trim (formatResults : list M → bool → string)
    on_miscast params os :
  ∃ r, AstGrep.execute JSON_parse trim formatResults on_miscast params os = Returned r.
Proof. apply try_catch_returns. Qed.

Lemma pexpect_start_returns trim name execSync :
  ∃ r, Pexpect.pexpect_start trim name execSync = Returned r.
Proof. apply try_catch_returns. Qed.

Lemma pexpect_stop_returns trim lines match_line session_id execSync :
  ∃ r, Pexpect.pexpect_stop trim lines match_line session_id execSync = Returned r.
Proof. apply try_catch_returns. Qed.

Lemma pexpect_list_returns trim lines match_line execSync :
  ∃ r, Pexpect.pexpect_list trim lines match_line execSync = Returned r.
Proof. apply try_catch_returns. Qed.

Lemma pexpect_exec_never_throws trim lines match_line session_id code timeout execSync
    sigterm timeline e :
  (Pexpect.pexpect_exec trim lines match_line session_id code timeout execSync sigterm
     timeline).1
  ≠ Some (Thrown e).
Proof.
  unfold Pexpect.pexpect_exec.
  destruct (Pexpect.lookup_session _ _ _ _ _) as [[s|]|msg]; simpl; try done.
  destruct (Pexpect.settled _) as [[out|msg]|]; done.
Qed.

Lemma kagi_search_returns enc resultP titleP urlP snippetP clean parse refs params env client :
  ∃ r, (Kagi.execute enc resultP titleP urlP snippetP clean parse refs params env client).2
       = Returned r.
Proof.
  unfold Kagi.execute. destruct (Kagi.ensureClient client env) as [client1 [kagi|msg]]; simpl.
  - destruct (Kagi.search _ _ _ _ _ _ _ _ _ _) as [results|msg]; simpl; eauto.
  - eauto.
Qed.

End CaughtFailures.

(** ** github_search_code: the limit handed to gh *)

Module GithubFacts.

Import GithubSearch.


Example gh_limit_examples :
  effective_limit {| query := "q"; language := None; owner := None; repo := None;
                     extension := None; filename := None; limit := Some 250 |} = 100
  ∧ effective_limit {| query := "q"; language := None; owner := None; repo := None;
                       extension := None; filename := None; limit := Some 25 |} = 25
  ∧ build_args {| query := "useState"; language := Some "typescript"; owner := None;
                  repo := Some ""; extension := None; filename := None; limit := None |}
    = ["useState"; "--language"; "typescript"; "--limit"; "10"].
Proof. repeat split; reflexivity. Qed.

End GithubFacts.

(** ** pexpect_exec: the timeout *)

Module PexpectFacts.

Import Pexpect.

Lemma deliver_keeps (timeline : list (Z * ChildEvent)) : ∀ x : Exec,
  timeoutId x = None →
  let x' := deliver timeline x in
  (∀ r, settled x = Some r → settled x' = Some r)
  ∧ signals x' = signals x ∧ timeoutId x' = None.
Proof.
  induction timeline as [|[at_ms ev] later IH]; intros x Ht; [done|].
  unfold deliver. simpl. fold (deliver later (on_child_event ev x)).
  assert (timeoutId (on_child_event ev x) = None
          ∧ signals (on_child_event ev x) = signals x
          ∧ ∀ r, settled x = Some r → settled (on_child_event ev x) = Some r)
    as (Ht' & Hsig & Hset).
  { destruct ev as [chunk|chunk|code|message]; simpl; try done.
    - unfold on_close. destruct (_ && _); simpl; split_and!; try done;
        by intros r ->.
    - split_and!; try done. by intros r ->. }
  destruct (IH _ Ht') as (Hs & Hg & Hn). split_and!; [|congruence|done].
  intros r Hr. by apply Hs, Hset.
Qed.

Lemma timer_fires (timeout deadline : Z) (sigterm : Disposition)
    (timeline : list (Z * ChildEvent)) : ∀ x : Exec,
  timeoutId x = Some deadline → settled x = None → outlasts timeline deadline →
  let x' := event_loop timeout sigterm timeline x in
  settled x' = Some (Thrown ("Execution timed out after " +:+ String_Z timeout +:+ "ms"))
  ∧ signals x' = signals x ++ ["SIGTERM"]
  ∧ (sigterm = terminates → child x' = Signalled "SIGTERM")
  ∧ timeoutId x' = None.
Proof.
  assert (∀ rest x, settled x = None →
            let x' := signalled sigterm rest (on_timeout timeout x) in
            settled x' = Some (Thrown ("Execution timed out after "
                                       +:+ String_Z timeout +:+ "ms"))
            ∧ signals x' = signals x ++ ["SIGTERM"]
            ∧ (sigterm = terminates → child x' = Signalled "SIGTERM")
            ∧ timeoutId x' = None) as Hfire.
  { intros rest x Hx. destruct sigterm; simpl.
    - unfold on_close, on_timeout, settle, clearTimeout, with_child, kill. simpl.
      rewrite Hx. by repeat case_match.
    - destruct (deliver_keeps rest (on_timeout timeout x)) as (Hs & Hg & Hn).
      { unfold on_timeout, settle. by destruct (settled _). }
      split_and!; [|done|done|done].
      apply Hs. unfold on_timeout, settle, kill. simpl. by rewrite Hx. }
  induction timeline as [|[at_ms ev] later IH]; intros x Htimer Hopen Hlast; simpl.
  - rewrite Htimer. by apply Hfire.
  - rewrite Htimer. destruct (Z.ltb_spec deadline at_ms) as [Hlt|Hge]; [by apply Hfire|].
    unfold outlasts in Hlast. destruct ev as [chunk|chunk|code|message]; simpl in Hlast;
      try lia.
    + by apply (IH (on_child_event (writes_stdout chunk) x)).
    + by apply (IH (on_child_event (writes_stderr chunk) x)).
Qed.

Lemma outlasts_delay (timeline : list (Z * ChildEvent)) (timeout : Z) :
  outlasts timeline timeout → outlasts timeline 1 →
  outlasts timeline (setTimeout_delay timeout).
Proof. unfold setTimeout_delay. by destruct (_ || _). Qed.

Lemma outlasts_positive (timeline : list (Z * ChildEvent)) (timeout : Z) :
  1 <= timeout → outlasts timeline timeout → outlasts timeline 1.
Proof. unfold outlasts. destruct (completes_at timeline); [lia|done]. Qed.

(** C9, amended. With a timeout that is not zero and is shorter than
    the time the child takes to complete, a time that also exceeds the
    1 ms minimum delay of a timer (as it does whenever the timeout is
    positive), the promise of [execInSession] rejects with the error
    naming the timeout and SIGTERM, and no other signal, has been sent
    to the child; when the session exists, [pexpect_exec] returns that
    error as its result. The child is no longer running afterward when
    SIGTERM ends it, that is when the child neither handles nor ignores
    the signal. *)
Theorem exec_timeout_kills_and_reports
    trim lines match_session_line
    (session_id code : string) (timeout : Z) (execSync : string → ExecSyncResult)
    (sigterm : Disposition) (timeline : list (Z * ChildEvent)) :
  timeout ≠ 0 →
  outlasts timeline timeout →
  outlasts timeline 1 →
  let x := execInSession code (Some timeout) sigterm timeline in
  settled x = Some (Thrown ("Execution timed out after " +:+ String_Z timeout +:+ "ms"))
  ∧ signals x = ["SIGTERM"]
  ∧ (sigterm = terminates → child x = Signalled "SIGTERM")
  ∧ ∀ s, lookup_session trim lines match_session_line session_id execSync = Returned (Some s) →
         let r := pexpect_exec trim lines match_session_line session_id code (Some timeout)
                    execSync sigterm timeline in
         r.1 = Some (Returned {| text := "Execution failed: Execution timed out after "
                                         +:+ String_Z timeout +:+ "ms";
                                 isError := true |})
         ∧ (sigterm = terminates → r.2 = Some (Signalled "SIGTERM")).
Proof.
  intros Hnz Hlast Hlast1 x.
  assert (settled x = Some (Thrown ("Execution timed out after "
                                    +:+ String_Z timeout +:+ "ms"))
          ∧ signals x = ["SIGTERM"]
          ∧ (sigterm = terminates → child x = Signalled "SIGTERM")
          ∧ timeoutId x = None) as (Hs & Hg & Hc & _).
  { subst x. unfold execInSession. simpl.
    apply (timer_fires timeout (setTimeout_delay timeout)).
    - unfold spawned. simpl. by destruct timeout.
    - done.
    - by apply outlasts_delay. }
  split_and!; [done|done|done|].
  intros s Hfound. unfold pexpect_exec. rewrite Hfound. fold x. simpl. rewrite Hs.
  split; [done|]. intros Hdies. by rewrite (Hc Hdies).
Qed.

Lemma exec_timeout_kills_and_reports_witness :
  let timeline := [(20, writes_stdout "partial"); (5000, closes (Some 0))] in
  let execSync := fun command : string =>
                    if String.eqb command "pueue status" then exec_returned "ok"
                    else exec_returned "ab12cd34: Running" in
  let match_line := fun line : string =>
                      Some {| id := "ab12cd34"; status := "Running"; name := None |} in
  let lines := fun s : string => [s] in
  1000 ≠ 0 ∧ outlasts timeline 1000 ∧ outlasts timeline 1
  ∧ signals (execInSession "child.expect('$')" (Some 1000) terminates timeline) = ["SIGTERM"]
  ∧ pexpect_exec Regex.trim lines match_line "ab12cd34" "child.expect('$')" (Some 1000)
      execSync terminates timeline
    = (Some (Returned {| text := "Execution failed: Execution timed out after 1000ms";
                         isError := true |}),
       Some (Signalled "SIGTERM")).
Proof.
  intros timeline execSync match_line lines.
  assert (1000 ≠ 0) as Hnz by lia.
  assert (outlasts timeline 1000) as H1 by (unfold outlasts; simpl; lia).
  assert (outlasts timeline 1) as H2 by (unfold outlasts; simpl; lia).
  split_and!; [exact Hnz|exact H1|exact H2| |].
  - exact (proj1 (proj2 (exec_timeout_kills_and_reports Regex.trim lines match_line
                           "ab12cd34" "child.expect('$')" 1000 execSync terminates
                           timeline Hnz H1 H2))).
  - destruct (exec_timeout_kills_and_reports Regex.trim lines match_line "ab12cd34"
                "child.expect('$')" 1000 execSync terminates timeline Hnz H1 H2)
      as (_ & _ & _ & Htool).
    destruct (Htool {| id := "ab12cd34"; status := "Running"; name := None |} eq_refl)
      as [Hresult Hchild].
    specialize (Hchild eq_refl). simpl in Hresult, Hchild.
    apply injective_projections; [exact Hresult|exact Hchild].
Defined.

(** C9 as stated fails in two ways. For a timeout of 0, [if (timeout)]
    arms no timer, so a child that takes 100 ms is left to finish and
    its output is returned. And a child that handles SIGTERM is not
    ended by it: with a timeout of 200 ms, a child that goes on writing
    and never completes is reported as timed out and has been sent
    SIGTERM, and it is still running. *)
Lemma timeout_can_leave_the_child_running :
  let timeline := [(50, writes_stdout "hi"); (100, closes (Some 0))] in
  let x := execInSession "print('hi')" (Some 0) terminates timeline in
  let hanging := [(5, writes_stdout "..."); (400, writes_stdout "still here")] in
  let y := execInSession "child.expect('never')" (Some 200) handled hanging in
  (outlasts timeline 0
   ∧ settled x = Some (Returned "hi")
   ∧ signals x = []
   ∧ child x = Exited (Some 0)
   ∧ ¬ (settled x = Some (Thrown ("Execution timed out after " +:+ String_Z 0 +:+ "ms"))
        ∧ child x ≠ Running ∧ child x ≠ Exited (Some 0)))
  ∧ (outlasts hanging 200
     ∧ settled y = Some (Thrown "Execution timed out after 200ms")
     ∧ signals y = ["SIGTERM"]
     ∧ child y = Running
     ∧ stdout y = "...still here"
     ∧ ¬ (settled y = Some (Thrown "Execution timed out after 200ms")
          ∧ child y ≠ Running)).
Proof.
  intros timeline x hanging y. split; split_and!.
  - unfold outlasts. simpl. lia.
  - reflexivity.
  - reflexivity.
  - reflexivity.
  - intros (Hs & _). discriminate Hs.
  - unfold outlasts. simpl. lia.
  - reflexivity.
  - reflexivity.
  - reflexivity.
  - reflexivity.
  - intros (_ & Hrun). by apply Hrun.
Qed.

Example exec_without_timeout_returns_output :
  let x := execInSession "print(1)" None terminates
             [(5, writes_stdout "1"); (9, closes (Some 0))] in
  settled x = Some (Returned "1") ∧ child x = Exited (Some 0).
Proof. split; reflexivity. Qed.

Example exec_failure_reports_stderr :
  let x := execInSession "boom" (Some 1000) terminates
             [(5, writes_stderr "Traceback"); (9, closes (Some 1))] in
  settled x = Some (Thrown "Traceback") ∧ timeoutId x = None.
Proof. split; reflexivity. Qed.

Example exec_hanging_child_is_timed_out :
  let x := execInSession "child.expect('never')" (Some 200) terminates
             [(5, writes_stdout "...")] in
  settled x = Some (Thrown "Execution timed out after 200ms")
  ∧ child x = Signalled "SIGTERM".
Proof. split; reflexivity. Qed.

End PexpectFacts.

(** ** kagi_search: cookies and degraded parsing *)

Module KagiFacts.

Import Kagi.

Section Client.

Context (encodeURIComponent : string → string)
        (resultPattern : string → list string)
        (titlePattern urlPattern snippetPattern : string → option string)
        (clean : string → string).

#[warnings="-notation-for-abbreviation"]
Local Notation parse_block := (parse_block titlePattern urlPattern snippetPattern clean).
#[warnings="-notation-for-abbreviation"]
Local Notation collect := (collect titlePattern urlPattern snippetPattern clean).
#[warnings="-notation-for-abbreviation"]
Local Notation search :=
  (search encodeURIComponent resultPattern titlePattern urlPattern snippetPattern clean).

Lemma authenticate_captures (token : string) (fetch : Request → outcome Response)
    (this this' : KagiClient) (response : Response) (r : outcome unit) :
  fetch (auth_request token) = Returned response →
  authenticate token fetch this = (this', r) →
  cookies this' = cookie_pair <$> set_cookie response.
Proof.
  intros Hfetch. unfold authenticate. rewrite Hfetch.
  destruct (_ && _); by intros [= <- _].
Qed.

(** C5. After [authenticate] has succeeded on the response it fetched,
    every later [search] sends a request whose [Cookie] header is the
    pairs captured from the set-cookie headers of that response, each
    cut at its first semicolon, joined by [; ] in the order of the
    headers: whatever the query and the limit, against a network that
    answers by the [Cookie] header of the request alone, [search]
    returns what it returns when the network is handed exactly that
    header. *)
Theorem search_carries_captured_cookies
    (token : string) (fetch : Request → outcome Response) (this this' : KagiClient)
    (response : Response) :
  fetch (auth_request token) = Returned response →
  authenticate token fetch this = (this', Returned tt) →
  ∀ (query : string) (limit : Z) (network : option string → outcome Response),
    search this' query limit (fun request => network (header "Cookie" request))
    = search this' query limit
        (fun _ => network (Some (String.concat "; " (cookie_pair <$> set_cookie response)))).
Proof.
  intros Hfetch Hauth query limit network. unfold Kagi.search, header. simpl.
  by rewrite (authenticate_captures _ _ _ _ _ _ Hfetch Hauth).
Qed.

Lemma collect_take (limit : Z) (blocks : list string) : ∀ acc,
  collect blocks limit acc
  = acc ++ take (Z.to_nat (limit - Z.of_nat (length acc))) (omap parse_block blocks).
Proof.
  induction blocks as [|block later IH]; intros acc; simpl.
  - by rewrite take_nil, app_nil_r.
  - destruct (Z.ltb_spec (Z.of_nat (length acc)) limit) as [Hlt|Hge].
    + destruct (parse_block block) as [r|] eqn:Hparse.
      * rewrite IH, length_app, <- app_assoc. simpl. f_equal.
        replace (Z.to_nat (limit - Z.of_nat (length acc)))
          with (S (Z.to_nat (limit - Z.of_nat (length acc + 1)%nat))) by lia.
        done.
      * apply IH.
    + replace (Z.to_nat (limit - Z.of_nat (length acc))) with 0%nat by lia.
      by rewrite take_0, app_nil_r.
Qed.

Lemma search_takes (this : KagiClient) (query : string) (limit : Z)
    (fetch : Request → outcome Response) (response : Response) (html : string) :
  fetch (search_request encodeURIComponent this query) = Returned response →
  body response = Returned html →
  search this query limit fetch
  = Returned (take (Z.to_nat limit) (omap parse_block (resultPattern html))).
Proof.
  intros Hfetch Hbody. unfold Kagi.search. rewrite Hfetch. simpl. rewrite Hbody. simpl.
  rewrite collect_take. simpl. by rewrite Z.sub_0_r.
Qed.

(** C6, amended. For a block of the response that is reached before
    [limit] results have been collected: when it has the title and the
    URL but no snippet, its result is in the returned list, at the
    position after the results of the blocks before it, with the empty
    string as snippet; when it lacks the title or the URL, the returned
    list is the one the response gives without that block. *)
Theorem degraded_block_within_limit
    (this : KagiClient) (query : string) (limit : Z) (fetch : Request → outcome Response)
    (response : Response) (html : string) (before after : list string) (block : string) :
  fetch (search_request encodeURIComponent this query) = Returned response →
  body response = Returned html →
  resultPattern html = before ++ block :: after →
  Z.of_nat (length (omap parse_block before)) < limit →
  (∀ t u, titlePattern block = Some t → urlPattern block = Some u →
          snippetPattern block = None →
          ∃ results,
            search this query limit fetch = Returned results
            ∧ results !! length (omap parse_block before)
              = Some {| title := clean t; url := u; snippet := "" |})
  ∧ (titlePattern block = None ∨ urlPattern block = None →
     search this query limit fetch
     = Returned (take (Z.to_nat limit)
                   (omap parse_block before ++ omap parse_block after))).
Proof.
  intros Hfetch Hbody Hblocks Hroom.
  rewrite (search_takes _ _ _ _ _ _ Hfetch Hbody), Hblocks, omap_app. simpl. split.
  - intros t u Ht Hu Hs. eexists. split; [done|].
    rewrite lookup_take_lt by lia.
    rewrite lookup_app_r, Nat.sub_diag by lia.
    unfold Kagi.parse_block. by rewrite Ht, Hu, Hs.
  - intros Hlacks. unfold Kagi.parse_block at 2.
    destruct Hlacks as [-> | ->]; [done|]. by destruct (titlePattern block).
Qed.

(** The same at the level of the tool, where the client is cached in a
    variable and dropped on any error: whichever calls came before, a
    search request is only sent by an authenticated client, with the
    cookies of the authentication response. *)
Lemma kagi_search_requests_carry_cookies
    JSON_parse_message refPattern
    (params : Params) (env : Env) (token : string) (response : Response)
    (client : option KagiClient) :
  session_token env = Returned token →
  fetch env (auth_request token) = Returned response →
  (∀ c, client = Some c → cookies c = cookie_pair <$> set_cookie response) →
  let result := execute encodeURIComponent resultPattern titlePattern urlPattern
                  snippetPattern clean JSON_parse_message refPattern params env client in
  (∀ c, result.1.1 = Some c → cookies c = cookie_pair <$> set_cookie response)
  ∧ ∀ request, request ∈ result.1.2 →
               header "Cookie" request
               = Some (String.concat "; " (cookie_pair <$> set_cookie response)).
Proof.
  intros Htoken Hfetch Hclient. unfold execute, ensureClient.
  destruct client as [c|].
  - specialize (Hclient c eq_refl).
    destruct (Kagi.search _ _ _ _ _ _ _ _ _ _) as [results|msg]; simpl.
    + split; [by intros ? [= <-]|]. intros request ->%list_elem_of_singleton.
      unfold header. simpl. by rewrite Hclient.
    + split; [done|]. intros request ->%list_elem_of_singleton.
      unfold header. simpl. by rewrite Hclient.
  - rewrite Htoken.
    destruct (authenticate token (fetch env) new_KagiClient) as [c [[]|msg]] eqn:Hauth; simpl.
    + pose proof (authenticate_captures _ _ _ _ _ _ Hfetch Hauth) as Hc.
      destruct (Kagi.search _ _ _ _ _ _ _ _ _ _) as [results|msg]; simpl.
      * split; [by intros ? [= <-]|]. intros request ->%list_elem_of_singleton.
        unfold header. simpl. by rewrite Hc.
      * split; [done|]. intros request ->%list_elem_of_singleton.
        unfold header. simpl. by rewrite Hc.
    + split; [done|]. by intros request ?%elem_of_nil.
Qed.

End Client.

(** *** On a page as the provider serves it *)
Example search_page_default_limit :
  search_page 10
  = Returned [{| title := "First hit"; url := "https://a.example"; snippet := "About a" |};
              {| title := "Second"; url := "https://b.example"; snippet := "" |}].
Proof. vm_compute. reflexivity. Qed.

Example page_blocks : all_blocks (first_hit +:+ second_hit) = [first_block; second_block].
Proof. vm_compute. reflexivity. Qed.

Lemma degraded_block_within_limit_witness :
  all_blocks (first_hit +:+ second_hit) = [first_block] ++ second_block :: []
  ∧ Z.of_nat (length (omap (parse_block (first_group titlePattern) (first_group urlPattern)
                              (first_group snippetPattern) remove_tags_trim)
                        [first_block])) < 10
  ∧ first_group titlePattern second_block = Some "Second"
  ∧ first_group urlPattern second_block = Some "https://b.example"
  ∧ first_group snippetPattern second_block = None
  ∧ ∃ results, search_page 10 = Returned results
               ∧ results !! 1%nat
                 = Some {| title := remove_tags_trim "Second"; url := "https://b.example";
                           snippet := "" |}.
Proof.
  assert (all_blocks (first_hit +:+ second_hit) = [first_block] ++ second_block :: [])
    as Hblocks by (vm_compute; reflexivity).
  assert (Z.of_nat (length (omap (parse_block (first_group titlePattern)
                                    (first_group urlPattern) (first_group snippetPattern)
                                    remove_tags_trim) [first_block])) < 10) as Hroom
    by (vm_compute; reflexivity).
  assert (first_group titlePattern second_block = Some "Second") as Ht
    by (vm_compute; reflexivity).
  assert (first_group urlPattern second_block = Some "https://b.example") as Hu
    by (vm_compute; reflexivity).
  assert (first_group snippetPattern second_block = None) as Hs
    by (vm_compute; reflexivity).
  split; [exact Hblocks|]. split; [exact Hroom|].
  split; [exact Ht|]. split; [exact Hu|]. split; [exact Hs|].
  destruct (degraded_block_within_limit (fun q => q) all_blocks (first_group titlePattern)
              (first_group urlPattern) (first_group snippetPattern) remove_tags_trim
              new_KagiClient "q" 10 (fun _ => Returned page) page
              (first_hit +:+ second_hit) [first_block] [] second_block
              eq_refl eq_refl Hblocks Hroom) as [Hin _].
  destruct (Hin "Second" "https://b.example" Ht Hu Hs) as (results & Hsearch & Hat).
  exists results. split; [exact Hsearch|].
  replace 1%nat with (length (omap (parse_block (first_group titlePattern)
                                      (first_group urlPattern) (first_group snippetPattern)
                                      remove_tags_trim) [first_block]))
    by (vm_compute; reflexivity).
  exact Hat.
Defined.

(** C6 as stated fails once the limit is reached: with a limit of 1
    the second block, which has a title and a URL and no description,
    is a block of the response and yet its result is not returned. *)
Lemma block_beyond_limit_not_returned :
  ∃ block,
    all_blocks (first_hit +:+ second_hit) !! 1%nat = Some block
    ∧ first_group titlePattern block = Some "Second"
    ∧ first_group urlPattern block = Some "https://b.example"
    ∧ first_group snippetPattern block = None
    ∧ search_page 1
      = Returned [{| title := "First hit"; url := "https://a.example";
                     snippet := "About a" |}]
    ∧ ∀ results, search_page 1 = Returned results →
                 {| title := "Second"; url := "https://b.example"; snippet := "" |} ∉ results.
Proof.
  eexists. split; [vm_compute; reflexivity|].
  split; [vm_compute; reflexivity|]. split; [vm_compute; reflexivity|].
  split; [vm_compute; reflexivity|].
  assert (search_page 1
          = Returned [{| title := "First hit"; url := "https://a.example";
                         snippet := "About a" |}]) as Hone by (vm_compute; reflexivity).
  split; [exact Hone|].
  intros results Hres. rewrite Hone in Hres. injection Hres as <-.
  intros Hin%list_elem_of_singleton. discriminate Hin.
Qed.

(** A network that serves the page to the two cookies of the
    authentication response, in their order, and to nothing else. *)
Lemma search_carries_captured_cookies_witness :
  let response := {| status := 200; statusText := "OK";
                     set_cookie := ["kagi_session=abc.def; Path=/; HttpOnly";
                                    "_kagi_search_=1; Secure"];
                     location := None; body := Returned "" |} in
  let fetch := fun _ : Request => Returned response in
  let network := fun cookie : option string =>
    match cookie with
    | Some c => if String.eqb c "kagi_session=abc.def; _kagi_search_=1"
                then Returned page else Thrown "unauthorized"
    | None => Thrown "unauthorized"
    end in
  ∃ this',
    authenticate "tok" fetch new_KagiClient = (this', Returned tt)
    ∧ search (fun q => q) all_blocks (first_group titlePattern) (first_group urlPattern)
        (first_group snippetPattern) remove_tags_trim this' "q" 10
        (fun request => network (header "Cookie" request))
      = Returned [{| title := "First hit"; url := "https://a.example";
                     snippet := "About a" |};
                  {| title := "Second"; url := "https://b.example"; snippet := "" |}].
Proof.
  intros response fetch network. eexists.
  assert (authenticate "tok" fetch new_KagiClient = (_, Returned tt)) as Hauth
    by (vm_compute; reflexivity).
  split; [exact Hauth|].
  rewrite (search_carries_captured_cookies (fun q => q) all_blocks (first_group titlePattern)
             (first_group urlPattern) (first_group snippetPattern) remove_tags_trim
             "tok" fetch new_KagiClient _ response eq_refl Hauth "q" 10 network).
  vm_compute. reflexivity.
Defined.

End KagiFacts.

(** ** Strings: appending, splitting, reversing *)

Module StringFacts.

Import Regex.

Lemma append_cons (c : ascii) (a b : string) : String c a +:+ b = String c (a +:+ b).
Proof. done. Qed.

Lemma append_nil (s : string) : "" +:+ s = s.
Proof. done. Qed.

Lemma append_empty (s : string) : s +:+ "" = s.
Proof. induction s as [|c s IH]; [done|]. by rewrite append_cons, IH. Qed.

Lemma append_assoc (a b c : string) : (a +:+ b) +:+ c = a +:+ (b +:+ c).
Proof. induction a as [|x a IH]; [done|]. by rewrite !append_cons, IH. Qed.

Lemma split_cons (sep : ascii) (s : string) : ∃ first others, split sep s = first :: others.
Proof.
  induction s as [|c s (first & others & IH)]; simpl; [by eauto|].
  rewrite IH. destruct (Ascii.eqb c sep); eauto.
Qed.

Lemma hd_split (sep : ascii) (s : string) : hd "" (split sep s) = upto sep s.
Proof.
  induction s as [|c s IH]; simpl; [done|].
  destruct (split_cons sep s) as (first & others & Hs). rewrite Hs in *. simpl in IH.
  destruct (Ascii.eqb c sep); simpl; [done|]. by rewrite IH.
Qed.

Lemma upto_append (sep : ascii) (a b : string) :
  ¬ In sep (list_ascii_of_string a) →
  upto sep (a +:+ String sep b) = a ∧ upto sep a = a.
Proof.
  induction a as [|c a IH]; rewrite ?append_cons, ?append_nil; simpl; intros Hnot.
  - by rewrite Ascii.eqb_refl.
  - destruct (Ascii.eqb_spec c sep) as [->|Hne]; [by destruct Hnot; left|].
    destruct IH as [IH1 IH2]; [by intros ?; apply Hnot; right|]. by rewrite IH1, IH2.
Qed.

Lemma split_append (sep : ascii) (a b : string) :
  ¬ In sep (list_ascii_of_string a) →
  split sep (a +:+ String sep b) = a :: split sep b.
Proof.
  induction a as [|c a IH]; rewrite ?append_cons, ?append_nil; simpl; intros Hnot.
  - rewrite Ascii.eqb_refl. by destruct (split_cons sep b) as (first & others & ->).
  - destruct (Ascii.eqb_spec c sep) as [->|Hne]; [by destruct Hnot; left|].
    rewrite IH by (by intros ?; apply Hnot; right). done.
Qed.

Lemma split_none (sep : ascii) (a : string) :
  ¬ In sep (list_ascii_of_string a) → split sep a = [a].
Proof.
  induction a as [|c a IH]; simpl; intros Hnot; [done|].
  destruct (Ascii.eqb_spec c sep) as [->|Hne]; [by destruct Hnot; left|].
  rewrite IH by (by intros ?; apply Hnot; right). done.
Qed.

Lemma substring_skip (a b : string) (n : nat) :
  substring (String.length a) n (a +:+ b) = substring 0 n b.
Proof. induction a as [|c a IH]; [done|]. rewrite append_cons. simpl. exact IH. Qed.

Lemma includes_middle (a sep b : string) : sep ≠ "" → includes (a +:+ sep +:+ b) sep = true.
Proof.
  intros Hsep. unfold includes.
  destruct (String.index 0 sep (a +:+ sep +:+ b)) eqn:Hindex; [done|].
  destruct (index_correct3 0 (String.length a) _ _ Hindex Hsep); [lia|].
  rewrite substring_skip. by apply Recorder.substring_0_append.
Qed.

Lemma rev_app_append (s acc : string) : String.rev_app s acc = String.rev s +:+ acc.
Proof.
  unfold String.rev. revert acc. induction s as [|c s IH]; intros acc; [done|].
  simpl. rewrite IH, (IH (String c "")), append_assoc. done.
Qed.

Lemma rev_append (a b : string) : String.rev (a +:+ b) = String.rev b +:+ String.rev a.
Proof.
  induction a as [|c a IH]; [by rewrite append_nil, append_empty|].
  rewrite append_cons. unfold String.rev at 1 3. simpl.
  rewrite !rev_app_append, IH, append_assoc. done.
Qed.

Lemma rev_rev (s : string) : String.rev (String.rev s) = s.
Proof.
  induction s as [|c s IH]; [done|]. unfold String.rev at 2. simpl.
  rewrite rev_app_append, rev_append, IH. done.
Qed.

Lemma trim_start_suffix (s : string) : ∃ l, s = l +:+ trim_start s.
Proof.
  induction s as [|c s (l & IH)]; [by exists ""|]. simpl.
  destruct (space c); [|by exists ""]. exists (String c l). by rewrite append_cons, <- IH.
Qed.

Lemma trim_inside (s : string) : ∃ l r, s = l +:+ trim s +:+ r.
Proof.
  unfold trim. destruct (trim_start_suffix s) as (l & Hl).
  destruct (trim_start_suffix (String.rev (trim_start s))) as (l2 & Hl2).
  exists l, (String.rev l2). rewrite <- rev_append, <- Hl2, rev_rev. exact Hl.
Qed.

Lemma find_after_others {A} (P : A → bool) (before : list A) (x : A) (after : list A) :
  Forall (λ y, P y = false) before → P x = true →
  List.find P (before ++ x :: after) = Some x.
Proof.
  intros Hbefore Hx. induction Hbefore as [|y before Hy _ IH]; simpl.
  - by rewrite Hx.
  - by rewrite Hy.
Qed.

End StringFacts.

(** ** kagi_search: the token, the session cookie, the limit, the client *)

Module KagiSession.

Import Kagi StringFacts.

(** *** The session token *)

(** ["token="] does not start where a character other than [=] comes
    sixth, or where the text ends or goes on with [t] or [&] before. *)
Lemma no_token_here (q r : string) :
  q ≠ "" → ¬ In "="%char (list_ascii_of_string q) →
  (∀ c r', r = String c r' → c = "t"%char ∨ c = "&"%char) →
  Regex.strip_prefix "token=" (q +:+ r) = None.
Proof.
  intros Hq Heq Hr.
  assert (∀ p, p ≠ "" → ¬ In "t"%char (list_ascii_of_string p) →
               ¬ In "&"%char (list_ascii_of_string p) →
               Regex.strip_prefix p r = None) as Hrest.
  { intros [|a p] Hp Ht Hamp; [done|]. destruct r as [|c r']; [done|]. simpl.
    destruct (Ascii.eqb_spec a c) as [Hac|Hac]; [|reflexivity]. subst a.
    destruct (Hr c r' eq_refl) as [Hc|Hc]; subst c; [destruct Ht|destruct Hamp]; by left. }
  destruct q as [|c1 q]; [done|]. rewrite append_cons. cbn [Regex.strip_prefix].
  destruct (Ascii.eqb_spec "t" c1) as [<-|]; [|done].
  destruct q as [|c2 q];
    [rewrite append_nil; apply (Hrest "oken="); simpl; intuition discriminate|].
  rewrite append_cons. cbn [Regex.strip_prefix].
  destruct (Ascii.eqb_spec "o" c2) as [<-|]; [|done].
  destruct q as [|c3 q];
    [rewrite append_nil; apply (Hrest "ken="); simpl; intuition discriminate|].
  rewrite append_cons. cbn [Regex.strip_prefix].
  destruct (Ascii.eqb_spec "k" c3) as [<-|]; [|done].
  destruct q as [|c4 q];
    [rewrite append_nil; apply (Hrest "en="); simpl; intuition discriminate|].
  rewrite append_cons. cbn [Regex.strip_prefix].
  destruct (Ascii.eqb_spec "e" c4) as [<-|]; [|done].
  destruct q as [|c5 q];
    [rewrite append_nil; apply (Hrest "n="); simpl; intuition discriminate|].
  rewrite append_cons. cbn [Regex.strip_prefix].
  destruct (Ascii.eqb_spec "n" c5) as [<-|]; [|done].
  destruct q as [|c6 q];
    [rewrite append_nil; apply (Hrest "="); simpl; intuition discriminate|].
  rewrite append_cons. cbn [Regex.strip_prefix].
  destruct (Ascii.eqb_spec "=" c6) as [<-|]; [|done].
  destruct Heq. simpl. tauto.
Qed.

Lemma split_on_extends (sep : string) (s : string) : ∀ piece,
  ∃ x others, Regex.split_on_from sep 0 piece s = (piece +:+ x) :: others.
Proof.
  induction s as [|c s IH]; intros piece; simpl.
  - exists "", []. by rewrite append_empty.
  - destruct (Regex.strip_prefix sep (String c s)).
    + eexists "", _. by rewrite append_empty.
    + destruct (IH (piece +:+ String c "")) as (x & others & ->).
      exists (String c x), others. by rewrite append_assoc.
Qed.

Lemma split_on_before_token (pre : string) (s : string) : ∀ piece,
  ¬ In "="%char (list_ascii_of_string pre) →
  Regex.split_on_from "token=" 0 piece (pre +:+ "token=" +:+ s)
  = (piece +:+ pre) :: Regex.split_on_from "token=" 0 "" s.
Proof.
  induction pre as [|c pre IH]; intros piece Heq.
  - rewrite append_nil, append_empty. destruct s; reflexivity.
  - rewrite append_cons. cbn [Regex.split_on_from].
    rewrite <- (append_cons c pre), no_token_here; [|done|done|].
    + rewrite IH by (by intros ?; apply Heq; right). by rewrite append_assoc.
    + intros c' r' [= <- _]. by left.
Qed.

Lemma split_on_token_value (tok rest : string) : ∀ piece,
  ¬ In "="%char (list_ascii_of_string tok) →
  rest = "" ∨ (∃ r, rest = "&" +:+ r) →
  ∃ x others,
    Regex.split_on_from "token=" 0 piece (tok +:+ rest) = (piece +:+ tok +:+ x) :: others
    ∧ (x = "" ∨ ∃ y, x = String "&" y).
Proof.
  induction tok as [|c tok IH]; intros piece Heq Hrest.
  - rewrite !append_nil. destruct Hrest as [->|(r & ->)].
    + exists "", []. split; [simpl; by rewrite append_empty|by left].
    + rewrite append_cons, append_nil. simpl.
      destruct (split_on_extends "token=" r (piece +:+ "&")) as (x & others & ->).
      exists (String "&" x), others. split; [by rewrite append_assoc|eauto].
  - rewrite append_cons. cbn [Regex.split_on_from].
    rewrite <- (append_cons c tok), no_token_here; [|done|done|].
    + destruct (IH (piece +:+ String c "")) as (x & others & -> & Hx);
        [by intros ?; apply Heq; right|done|].
      exists x, others. split; [|done]. by rewrite append_assoc.
    + destruct Hrest as [->|(r & ->)]; [done|]. intros c' r' [= <- _]. by right.
Qed.

(** [getSessionToken]: when the password command prints a session link,
    that is text in which [token=] is the first [=], followed by a token
    without [=] or [&] that ends the text or is followed by [&], the
    token is what is returned; when it prints text without [token=],
    the text, trimmed, is taken for the token itself. *)
Theorem session_token_from_link_or_bare (config : KagiConfig)
    (execSync : string → outcome string) (output : string) :
  execSync (nullish (password_command config) "rbw get kagi-session-link") = Returned output →
  (∀ pre tok rest,
      Regex.trim output = pre +:+ "token=" +:+ tok +:+ rest →
      ¬ In "="%char (list_ascii_of_string pre) →
      ¬ In "="%char (list_ascii_of_string tok) →
      ¬ In "&"%char (list_ascii_of_string tok) →
      rest = "" ∨ (∃ r, rest = "&" +:+ r) →
      getSessionToken config execSync = Returned tok)
  ∧ (includes (Regex.trim output) "token=" = false →
     getSessionToken config execSync = Returned (Regex.trim output)).
Proof.
  intros Hexec. unfold getSessionToken. rewrite Hexec. simpl. split.
  - intros pre tok rest -> Hpre Htok Hamp Hrest.
    rewrite includes_middle by done. f_equal.
    unfold Regex.split_on. rewrite split_on_before_token by done.
    destruct (split_on_token_value tok rest "" Htok Hrest) as (x & others & -> & Hx).
    simpl. rewrite append_nil, hd_split.
    destruct Hx as [->|(y & ->)].
    + rewrite append_empty. by apply (upto_append "&" tok "").
    + by apply (upto_append "&" tok y).
  - by intros ->.
Qed.

Lemma cookie_pair_upto (h : string) : cookie_pair h = Regex.upto ";" h.
Proof. apply hd_split. Qed.

(** The session cookie: when the response to [authenticate] sets a
    [kagi_session] cookie (the first one, if there are several), whose
    value has no [=] in it, the client keeps that value, and every
    quick-answer request sends it as [X-Kagi-Authorization] whether or
    not the authentication then fails on a redirect. *)
Theorem session_cookie_authorizes_quick_answer (encodeURIComponent : string → string)
    (token : string) (fetch : Request → outcome Response) (this this' : KagiClient)
    (response : Response) (r : outcome unit) (before after : list string)
    (value attributes query : string) :
  fetch (auth_request token) = Returned response →
  authenticate token fetch this = (this', r) →
  set_cookie response = before ++ ("kagi_session=" +:+ value +:+ attributes) :: after →
  Forall (λ h, String.prefix "kagi_session=" (cookie_pair h) = false) before →
  ¬ In ";"%char (list_ascii_of_string value) →
  ¬ In "="%char (list_ascii_of_string value) →
  attributes = "" ∨ (∃ a, attributes = ";" +:+ a) →
  sessionCookie this' = value
  ∧ header "X-Kagi-Authorization" (quick_answer_request encodeURIComponent this' query)
    = Some value.
Proof.
  intros Hfetch Hauth Hset Hbefore Hsemi Heq Hattr.
  assert (cookie_pair ("kagi_session=" +:+ value +:+ attributes) = "kagi_session=" +:+ value)
    as Hpair.
  { rewrite cookie_pair_upto, !append_cons, !append_nil. simpl. do 13 f_equal.
    destruct Hattr as [->|(a & ->)].
    - rewrite append_empty. by apply (upto_append ";" value "").
    - by apply (upto_append ";" value a). }
  assert (sessionCookie this' = value) as Hsession.
  { revert Hauth. unfold authenticate. rewrite Hfetch, Hset, fmap_app, fmap_cons, Hpair.
    rewrite (find_after_others _ _ ("kagi_session=" +:+ value));
      [| |by apply prefix_correct, Recorder.substring_0_append].
    - change ("kagi_session=" +:+ value) with ("kagi_session" +:+ String "=" value).
      rewrite split_append by (simpl; intuition discriminate).
      rewrite split_none by done. simpl. destruct (_ && _); by intros [= <- _].
    - by apply Forall_fmap. }
  split; [done|]. unfold header. simpl. by rewrite Hsession.
Qed.

(** The limit: from a page that was fetched, [search] returns the
    results of the first blocks that have a title and a URL, in page
    order, as many as the limit allows and the page has: none when the
    limit is zero or negative. *)
Theorem search_returns_first_results_up_to_limit
    (encodeURIComponent : string → string) (resultPattern : string → list string)
    (titlePattern urlPattern snippetPattern : string → option string)
    (clean : string → string)
    (this : KagiClient) (query : string) (limit : Z) (fetch : Request → outcome Response)
    (response : Response) (html : string) :
  let parsed := omap (parse_block titlePattern urlPattern snippetPattern clean)
                  (resultPattern html) in
  fetch (search_request encodeURIComponent this query) = Returned response →
  body response = Returned html →
  ∃ results,
    search encodeURIComponent resultPattern titlePattern urlPattern snippetPattern clean
      this query limit fetch = Returned results
    ∧ results `prefix_of` parsed
    ∧ Z.of_nat (length results) = Z.min (Z.max 0 limit) (Z.of_nat (length parsed)).
Proof.
  intros parsed Hfetch Hbody. subst parsed. eexists.
  split; [by apply (KagiFacts.search_takes _ _ _ _ _ _ _ _ _ _ response)|]. split.
  - apply prefix_take.
  - rewrite length_take. lia.
Qed.

(** The cached client: [execute] never throws; after a call that
    returned an error the [client] variable is null, so that the next
    call authenticates afresh; after a call that succeeded it holds a
    client, the one that was cached before if there was one. *)
Theorem failed_search_drops_client
    (encodeURIComponent : string → string) (resultPattern : string → list string)
    (titlePattern urlPattern snippetPattern : string → option string)
    (clean : string → string) (JSON_parse_message : string → option (string * string))
    (refPattern : string → list (string * string * string))
    (params : Params) (env : Env) (client : option KagiClient) :
  let result := execute encodeURIComponent resultPattern titlePattern urlPattern
                  snippetPattern clean JSON_parse_message refPattern params env client in
  ∃ r, result.2 = Returned r
       ∧ if isError r then result.1.1 = None
         else ∃ c, result.1.1 = Some c ∧ ∀ cached, client = Some cached → c = cached.
Proof.
  unfold execute, ensureClient. destruct client as [cached|].
  - destruct (Kagi.search _ _ _ _ _ _ _ _ _ _) as [results|msg]; simpl.
    + eexists. split; [done|]. simpl. exists cached. split; [done|]. by intros ? [= <-].
    + eexists. split; [done|]. done.
  - destruct (session_token env) as [token|msg]; simpl; [|by eexists].
    destruct (authenticate token (fetch env) new_KagiClient) as [c [[]|msg]]; simpl;
      [|by eexists].
    destruct (Kagi.search _ _ _ _ _ _ _ _ _ _) as [results|msg]; simpl.
    + eexists. split; [done|]. simpl. by exists c.
    + by eexists.
Qed.


(** *** At a session link and at a response as the provider sends them *)

Lemma session_token_from_link_or_bare_witness :
  let config := {| password_command := None; config_timeout := Some 30 |} in
  let link := "https://kagi.com/search?token=abc.DEF-1&q=x" +:+ LF in
  let execSync := fun command : string =>
                    if String.eqb command "rbw get kagi-session-link"
                    then Returned link else Thrown "command not found" in
  getSessionToken config execSync = Returned "abc.DEF-1".
Proof.
  intros config link execSync.
  destruct (session_token_from_link_or_bare config execSync link eq_refl) as [Hlink _].
  apply (Hlink "https://kagi.com/search?" "abc.DEF-1" "&q=x").
  - vm_compute. reflexivity.
  - simpl. intuition discriminate.
  - simpl. intuition discriminate.
  - simpl. intuition discriminate.
  - right. by exists "q=x".
Defined.

Lemma session_cookie_authorizes_quick_answer_witness :
  let response := {| status := 302; statusText := "Found";
                     set_cookie := ["_kagi_search_=1; Secure";
                                    "kagi_session=abc.def; Path=/; HttpOnly"];
                     location := Some "/"; body := Returned "" |} in
  let fetch := fun _ : Request => Returned response in
  ∃ this',
    authenticate "tok" fetch new_KagiClient = (this', Returned tt)
    ∧ sessionCookie this' = "abc.def"
    ∧ header "X-Kagi-Authorization" (quick_answer_request (fun q => q) this' "rocq")
      = Some "abc.def".
Proof.
  intros response fetch. eexists.
  assert (authenticate "tok" fetch new_KagiClient = (_, Returned tt)) as Hauth
    by (vm_compute; reflexivity).
  split; [exact Hauth|].
  apply (session_cookie_authorizes_quick_answer (fun q => q) "tok" fetch new_KagiClient _
           response (Returned tt) ["_kagi_search_=1; Secure"] [] "abc.def"
           "; Path=/; HttpOnly" "rocq" eq_refl Hauth eq_refl).
  - repeat constructor.
  - simpl. intuition discriminate.
  - simpl. intuition discriminate.
  - right. by exists " Path=/; HttpOnly".
Defined.

Lemma search_returns_first_results_up_to_limit_witness :
  ∃ results, search_page 1 = Returned results ∧ Z.of_nat (length results) = 1.
Proof.
  destruct (search_returns_first_results_up_to_limit (fun q => q) all_blocks
              (Kagi.first_group Kagi.titlePattern) (Kagi.first_group Kagi.urlPattern)
              (Kagi.first_group Kagi.snippetPattern) remove_tags_trim new_KagiClient "q" 1
              (fun _ => Returned page) page (first_hit +:+ second_hit) eq_refl eq_refl)
    as (results & Hsearch & _ & Hlen).
  exists results. split; [exact Hsearch|]. rewrite Hlen. vm_compute. reflexivity.
Defined.


End KagiSession.

(** ** kagi_search: no markup in the results *)

Module KagiMarkup.

Import Regex Kagi StringFacts.

(** *** Tags are removed *)

Lemma star_to_gt (s : string) : ∀ taken,
  star_match true (except ">") (fun _ s' => match_here [lit ">"] s') taken s
  = (fun a => (None, a)) <$> after_gt s.
Proof.
  induction s as [|c s IH]; intros taken; [done|].
  cbn [star_match after_gt]. unfold except at 1.
  destruct (Ascii.eqb_spec c ">") as [->|Hne]; [done|].
  cbn [negb]. rewrite IH. destruct (after_gt s); [done|].
  cbn [match_here strip_prefix fmap option_fmap option_map].
  by destruct (Ascii.eqb_spec ">" c) as [<-|].
Qed.

Lemma match_tag (s : string) :
  match_here tagPattern s
  = match s with
    | String c s' => if Ascii.eqb "<" c then (fun a => (None, a)) <$> after_gt s' else None
    | EmptyString => None
    end.
Proof.
  destruct s as [|c s']; [done|]. unfold tagPattern. cbn [match_here strip_prefix].
  destruct (Ascii.eqb "<" c); [|done]. apply star_to_gt.
Qed.

Lemma after_gt_shorter (s a : string) :
  after_gt s = Some a → (String.length a < String.length s)%nat.
Proof.
  induction s as [|c s IH]; [done|]. simpl.
  destruct (Ascii.eqb c ">"); [intros [= <-]; lia|]. intros H%IH. lia.
Qed.

Lemma after_gt_append (s r : string) :
  after_gt s ≠ None → after_gt (s +:+ r) ≠ None.
Proof.
  induction s as [|c s IH]; [done|]. rewrite append_cons. simpl.
  by destruct (Ascii.eqb c ">").
Qed.

(** Removing tags adds no [>]. *)
Lemma remove_all_no_gt (fuel : nat) : ∀ s,
  after_gt s = None → after_gt (remove_all fuel tagPattern s) = None.
Proof.
  induction fuel as [|fuel IH]; intros s Hs; [done|].
  cbn [remove_all]. rewrite match_tag.
  destruct s as [|c s']; [done|]. simpl in Hs.
  destruct (Ascii.eqb_spec c ">") as [|Hne]; [done|].
  assert (after_gt (String c (remove_all fuel tagPattern s')) = None) as Hkeep.
  { simpl. destruct (Ascii.eqb_spec c ">"); [done|]. by apply IH. }
  destruct (Ascii.eqb "<" c); [|done]. by rewrite Hs.
Qed.

Lemma remove_all_no_tag (fuel : nat) : ∀ s,
  (String.length s < fuel)%nat → exec tagPattern (remove_all fuel tagPattern s) = None.
Proof.
  induction fuel as [|fuel IH]; intros s Hlen; [lia|].
  cbn [remove_all]. rewrite match_tag.
  destruct s as [|c s']; [done|]. simpl in Hlen.
  assert (after_gt s' = None → 
          exec tagPattern (String c (remove_all fuel tagPattern s')) = None) as Hkeep.
  { intros Hnone. cbn [exec]. rewrite match_tag.
    rewrite (remove_all_no_gt fuel s' Hnone).
    destruct (Ascii.eqb "<" c); simpl; apply IH; lia. }
  destruct (Ascii.eqb_spec "<" c) as [<-|Hne].
  - destruct (after_gt s') as [a|] eqn:Ha; simpl; [|by apply Hkeep].
    apply IH. apply after_gt_shorter in Ha. lia.
  - cbn [exec]. rewrite match_tag.
    destruct (Ascii.eqb_spec "<" c); [done|]. apply IH. lia.
Qed.

(** A text without a tag has none in any part of it. *)
Lemma no_tag_suffix (l s : string) : exec tagPattern (l +:+ s) = None → exec tagPattern s = None.
Proof.
  induction l as [|c l IH]; [done|]. rewrite append_cons. cbn [exec].
  destruct (match_here tagPattern (String c (l +:+ s))); [done|]. exact IH.
Qed.

Lemma no_tag_prefix (s r : string) : exec tagPattern (s +:+ r) = None → exec tagPattern s = None.
Proof.
  induction s as [|c s IH]; [done|]. rewrite append_cons. cbn [exec]. rewrite !match_tag.
  destruct (Ascii.eqb "<" c).
  - destruct (after_gt s) eqn:Hs.
    + assert (after_gt (s +:+ r) ≠ None) as Hsr by (apply after_gt_append; congruence).
      by destruct (after_gt (s +:+ r)).
    + destruct (after_gt (s +:+ r)); [done|]. exact IH.
  - exact IH.
Qed.

(** [clean], the [.replace(/<[^>]*>/g, "").trim()] of a title or
    snippet, leaves nothing the tag pattern matches. *)
Lemma cleaned_text_has_no_tag (s : string) : exec tagPattern (remove_tags_trim s) = None.
Proof.
  unfold remove_tags_trim.
  pose proof (remove_all_no_tag (S (String.length s)) s ltac:(lia)) as Hnone.
  destruct (trim_inside (remove_all (S (String.length s)) tagPattern s)) as (l & r & Hin).
  rewrite Hin in Hnone. by apply no_tag_suffix, no_tag_prefix in Hnone.
Qed.

Section Search.

Context (encodeURIComponent : string → string)
        (resultPattern : string → list string)
        (titlePattern urlPattern snippetPattern : string → option string).

(** No markup in what [search] returns: with the tag pattern and
    [trim] of the source, no title and no snippet of a result contains
    an HTML tag. *)
Theorem results_carry_no_markup (this : KagiClient) (query : string) (limit : Z)
    (fetch : Request → outcome Response) (results : list SearchResult) :
  search encodeURIComponent resultPattern titlePattern urlPattern snippetPattern
    remove_tags_trim this query limit fetch = Returned results →
  Forall (λ r, exec tagPattern (title r) = None ∧ exec tagPattern (snippet r) = None) results.
Proof.
  unfold search. destruct (fetch _) as [response|]; [|done]. simpl.
  destruct (body response) as [html|]; [|done]. simpl. intros [= <-].
  rewrite KagiFacts.collect_take. simpl. apply Forall_take, Forall_forall.
  intros r (block & Hblock & Hparse)%list_elem_of_omap.
  unfold parse_block in Hparse.
  destruct (titlePattern block), (urlPattern block); try done.
  injection Hparse as <-. simpl. split; [apply cleaned_text_has_no_tag|].
  destruct (snippetPattern block); [apply cleaned_text_has_no_tag|done].
Qed.

End Search.


Lemma results_carry_no_markup_witness :
  ∃ results,
    search_page 10 = Returned results ∧ length results = 2%nat
    ∧ Forall (λ r, exec tagPattern (title r) = None ∧ exec tagPattern (snippet r) = None)
        results.
Proof.
  eexists.
  assert (search_page 10 = Returned _) as Hsearch by (vm_compute; reflexivity).
  split; [exact Hsearch|]. split; [reflexivity|].
  exact (results_carry_no_markup (fun q => q) all_blocks (first_group titlePattern)
           (first_group urlPattern) (first_group snippetPattern) new_KagiClient "q" 10
           (fun _ => Returned page) _ Hsearch).
Defined.


End KagiMarkup.

(** ** pexpect_exec: the event loop *)

Module PexpectExecFacts.
Import Pexpect StringFacts.

Lemma concat_snoc (chunks : list string) (chunk : string) :
  String.concat "" (chunks ++ [chunk]) = String.concat "" chunks +:+ chunk.
Proof.
  induction chunks as [|c chunks IH]; [by rewrite append_nil|]. simpl app.
  destruct chunks as [|c' chunks]; [done|].
  change (String.concat "" (c :: (c' :: chunks) ++ [chunk]))
    with (c +:+ "" +:+ String.concat "" ((c' :: chunks) ++ [chunk])).
  change (String.concat "" (c :: c' :: chunks))
    with (c +:+ "" +:+ String.concat "" (c' :: chunks)).
  by rewrite IH, !append_assoc.
Qed.

Lemma writes_accumulate (timeout : Z) (sigterm : Disposition)
    (writes : list (Z * ChildEvent)) :
  ∀ (rest : list (Z * ChildEvent)) (x : Exec) (seen : list (Z * ChildEvent)),
  Forall (fun e => is_write e.2) writes →
  (∀ D, timeoutId x = Some D → Forall (fun e => e.1 <= D) writes) →
  stdout x = stdout_of seen → stderr x = stderr_of seen →
  ∃ x', event_loop timeout sigterm (writes ++ rest) x = event_loop timeout sigterm rest x'
        ∧ stdout x' = stdout_of (seen ++ writes) ∧ stderr x' = stderr_of (seen ++ writes)
        ∧ timeoutId x' = timeoutId x ∧ settled x' = settled x ∧ child x' = child x
        ∧ signals x' = signals x.
Proof.
  induction writes as [|[at_ms ev] writes IH]; intros rest x seen Hw Htime Hout Herr.
  - exists x. rewrite app_nil_r. done.
  - apply Forall_cons in Hw as [Hev Hw]. simpl app. cbn [event_loop].
    assert (event_loop timeout sigterm ((at_ms, ev) :: writes ++ rest) x
            = event_loop timeout sigterm (writes ++ rest) (on_child_event ev x)) as Hstep.
    { cbn [event_loop]. destruct (timeoutId x) as [D|] eqn:HD; [|done].
      specialize (Htime D eq_refl). apply Forall_cons in Htime as [Hle _]. simpl in Hle.
      by destruct (Z.ltb_spec D at_ms); [lia|]. }
    destruct (IH rest (on_child_event ev x) (seen ++ [(at_ms, ev)]))
      as (x' & Hx' & Ho & He & Ht & Hs & Hc & Hg).
    + done.
    + destruct ev; try done; simpl; intros D HD; specialize (Htime D HD);
        by apply Forall_cons in Htime as [_ ?].
    + unfold stdout_of. rewrite omap_app. simpl. destruct ev; try done; simpl.
      * rewrite concat_snoc. unfold stdout_of in Hout. by rewrite Hout.
      * by rewrite app_nil_r.
    + unfold stderr_of. rewrite omap_app. simpl. destruct ev; try done; simpl.
      * by rewrite app_nil_r.
      * rewrite concat_snoc. unfold stderr_of in Herr. by rewrite Herr.
    + exists x'. rewrite <- app_assoc in Ho, He. simpl in Ho, He.
      split; [by rewrite <- Hx'|]. split_and!; try done; by destruct ev.
Qed.


(** A child that closes in time: when the child only writes and then
    closes, all of it no later than the deadline of the timer (if one
    was armed), the timer is cleared and never fires, the child is left
    as it exited, and the promise settles by the exit: it rejects with
    what was written to stderr when the exit code is not 0 and stderr
    is not empty, and otherwise resolves with what was written to
    stdout, the chunks joined in order; [pexpect_exec] turns this into
    its result, with [(no output)] for blank output. *)
Theorem exec_in_time_settles_by_exit
    (trim : string → string) (lines : string → list string)
    (match_session_line : string → option Session)
    (session_id code_text : string) (timeout : option Z)
    (execSync : string → ExecSyncResult) (sigterm : Disposition)
    (writes : list (Z * ChildEvent)) (at_ms : Z) (code : option Z) :
  Forall (fun e => is_write e.2) writes →
  in_time timeout (writes ++ [(at_ms, closes code)]) →
  let timeline := writes ++ [(at_ms, closes code)] in
  let x := execInSession code_text timeout sigterm timeline in
  settled x = Some (settled_by_exit code (stdout_of writes) (stderr_of writes))
  ∧ child x = Exited code ∧ timeoutId x = None ∧ signals x = []
  ∧ ∀ s, lookup_session trim lines match_session_line session_id execSync = Returned (Some s) →
         pexpect_exec trim lines match_session_line session_id code_text timeout
           execSync sigterm timeline
         = (Some (Returned
                    match settled_by_exit code (stdout_of writes) (stderr_of writes) with
                    | Returned out => ok_result (or_else (trim out) "(no output)")
                    | Thrown msg => error_result ("Execution failed: " +:+ msg)
                    end),
            Some (Exited code)).
Proof.
  intros Hwrites Htime timeline x.
  assert (settled x = Some (settled_by_exit code (stdout_of writes) (stderr_of writes))
          ∧ child x = Exited code ∧ timeoutId x = None ∧ signals x = [])
    as (Hs & Hc & Ht & Hg).
  { subst x timeline. unfold execInSession.
    destruct (writes_accumulate (nullish timeout 0) sigterm writes [(at_ms, closes code)]
                (spawned code_text timeout) []) as (x' & -> & Ho & He & Ht & Hs & Hc & Hg);
      [done| |done|done|].
    - intros D HD. specialize (Htime D HD). by apply Forall_app in Htime as [? _].
    - simpl in Ho, He, Ht, Hs, Hc, Hg.
      assert (event_loop (nullish timeout 0) sigterm [(at_ms, closes code)] x'
              = on_close code (with_child (Exited code) x')) as ->.
      { cbn [event_loop on_child_event].
        assert (timeoutId (on_close code (with_child (Exited code) x')) = None) as Hcleared.
        { unfold on_close. by destruct (_ && _). }
        rewrite Hcleared, Ht.
        change (if truthy_num timeout then Some (setTimeout_delay (nullish timeout 0))
                else None) with (deadline timeout).
        destruct (deadline timeout) as [D|] eqn:HD; [|done].
        specialize (Htime D HD).
        apply Forall_app in Htime as [_ Hle]. apply Forall_inv in Hle. simpl in Hle.
        by destruct (Z.ltb_spec D at_ms); [lia|]. }
      unfold on_close, settled_by_exit, settle, clearTimeout, with_child. simpl.
      rewrite He, Ho, Hs, Hg. by destruct (_ && _). }
  split_and!; [done..|].
  intros s Hfound. unfold pexpect_exec. rewrite Hfound. fold timeline. fold x.
  rewrite Hs, Hc. by destruct (settled_by_exit _ _ _).
Qed.

Lemma exec_in_time_settles_by_exit_witness :
  let timeline := [(5, writes_stdout "12"); (6, writes_stderr "warning: x");
                   (7, writes_stdout ("3" +:+ LF))] in
  let execSync := fun command : string =>
                    if String.eqb command "pueue status" then exec_returned "ok"
                    else exec_returned "ab12cd34: Running" in
  let match_line := fun line : string =>
                      Some {| id := "ab12cd34"; status := "Running"; name := None |} in
  let lines := fun s : string => [s] in
  Forall (fun e => is_write e.2) timeline
  ∧ in_time (Some 1000) (timeline ++ [(9, closes (Some 0))])
  ∧ pexpect_exec Regex.trim lines match_line "ab12cd34" "print(123)" (Some 1000)
      execSync terminates (timeline ++ [(9, closes (Some 0))])
    = (Some (Returned {| text := "123"; isError := false |}), Some (Exited (Some 0))).
Proof.
  intros timeline execSync match_line lines.
  assert (Forall (fun e => is_write e.2) timeline) as Hw by (by repeat constructor).
  assert (in_time (Some 1000) (timeline ++ [(9, closes (Some 0))])) as Ht.
  { intros D [= <-]. unfold timeline. simpl app.
    repeat (apply Forall_cons; split; [by vm_compute|]). constructor. }
  split; [exact Hw|]. split; [exact Ht|].
  destruct (exec_in_time_settles_by_exit Regex.trim lines match_line "ab12cd34" "print(123)"
              (Some 1000) execSync terminates timeline 9 (Some 0) Hw Ht)
      as (_ & _ & _ & _ & Htool).
  exact (Htool {| id := "ab12cd34"; status := "Running"; name := None |} eq_refl).
Defined.

End PexpectExecFacts.

(** ** parseSessionList *)

Module SessionListFacts.

Import Regex Pexpect SessionList StringFacts.

(** A greedy star takes the longest run when what follows then matches. *)
Lemma star_match_longest {R} (class : ascii → bool) (k : string → string → option R)
    (run : string) : ∀ (taken rest : string) (r : R),
  all_in class run →
  (∀ c rest', rest = String c rest' → class c = false) →
  k (taken +:+ run) rest = Some r →
  star_match true class k taken (run +:+ rest) = Some r.
Proof.
  induction run as [|c run IH]; intros taken rest r Hall Hrest Hk.
  - rewrite append_empty in Hk. rewrite append_nil.
    destruct rest as [|c rest']; [done|]. simpl. by rewrite (Hrest c rest' eq_refl).
  - apply Forall_cons in Hall as [Hc Hall]. rewrite append_cons. simpl. rewrite Hc.
    rewrite (IH (taken +:+ String c "") rest r); [done|done|done|].
    by rewrite append_assoc.
Qed.

Lemma word_not_space (c : ascii) : word c = true → space c = false.
Proof. destruct c as [[] [] [] [] [] [] [] []]; by vm_compute. Qed.

Lemma hex_not_space (c : ascii) : hex c = true → space c = false.
Proof. destruct c as [[] [] [] [] [] [] [] []]; by vm_compute. Qed.

Lemma optional_name_absent : optional_name "" = None.
Proof. reflexivity. Qed.

Lemma optional_name_present (n : string) :
  n ≠ "" → all_in (except ")") n → optional_name (" (" +:+ n +:+ ")") = Some n.
Proof.
  intros Hne Hall. unfold optional_name.
  apply (star_match_longest space _ " " "" ("(" +:+ n +:+ ")")).
  - by repeat constructor.
  - by intros c rest' [= <- _].
  - rewrite !append_cons, append_nil. cbn [strip_prefix Ascii.eqb Bool.eqb].
    apply (star_match_longest (except ")") _ n "" ")"); [done| |].
    + by intros c rest' [= <- _].
    + rewrite append_nil. destruct (String.eqb_spec n ""); [done|]. reflexivity.
Qed.

(** One line: parsing a line printed for a listable session gives the
    session back. *)
Lemma match_session_line_of_line (s : Session) :
  listable s → match_session_line (session_line s) = Some s.
Proof.
  destruct s as [sid sstatus sname]. unfold listable, session_line. simpl.
  intros (Hid & Hhex & Hstatus & Hword & Hname).
  set (tail := match sname with Some n => " (" +:+ n +:+ ")" | None => "" end).
  assert (optional_name tail = sname) as Htail.
  { subst tail. destruct sname as [n|]; [|apply optional_name_absent].
    destruct Hname as [Hne Hall]. apply optional_name_present; [done|].
    eapply Forall_impl; [exact Hall|]. by intros c [? _]%andb_true_iff. }
  assert (∀ c rest', tail = String c rest' → word c = false) as Hafter.
  { subst tail. destruct sname as [n|]; [|done]. by intros c rest' [= <- _]. }
  unfold match_session_line.
  apply (star_match_longest hex _ sid "" (": " +:+ sstatus +:+ tail)); [done| |].
  - by intros c rest' [= <- _].
  - rewrite append_nil. destruct (String.eqb_spec sid ""); [done|].
    rewrite !append_cons, append_nil. cbn [strip_prefix Ascii.eqb Bool.eqb].
    apply (star_match_longest space _ " " "" (sstatus +:+ tail)).
    + by repeat constructor.
    + destruct sstatus as [|c w]; [done|]. apply Forall_cons in Hword as [Hc _].
      intros c' rest' [= <- _]. by apply word_not_space.
    + apply (star_match_longest word _ sstatus "" tail); [done|done|].
      rewrite append_nil. destruct (String.eqb_spec sstatus ""); [done|].
      by rewrite Htail.
Qed.


(** *** The whole list *)

Lemma chars_append (a b : string) :
  list_ascii_of_string (a +:+ b) = list_ascii_of_string a ++ list_ascii_of_string b.
Proof. induction a as [|c a IH]; [done|]. rewrite append_cons. simpl. by rewrite IH. Qed.

Lemma chars_rev (s : string) :
  list_ascii_of_string (String.rev s) = reverse (list_ascii_of_string s).
Proof.
  induction s as [|c s IH]; [done|]. unfold String.rev. simpl.
  rewrite rev_app_append, chars_append, IH, reverse_cons. done.
Qed.

Lemma all_in_not (class : ascii → bool) (x : ascii) (s : string) :
  all_in class s → class x = false → ¬ In x (list_ascii_of_string s).
Proof.
  intros Hall Hx Hin. apply list_elem_of_In in Hin.
  unfold all_in in Hall. rewrite Forall_forall in Hall. specialize (Hall x Hin). congruence.
Qed.

(** Not empty, and the first character is no white space. *)
Lemma edge_ok_append (a b : string) : edge_ok a = true → edge_ok (a +:+ b) = true.
Proof. by destruct a. Qed.

Lemma edge_ok_all (class : ascii → bool) (s : string) :
  (∀ c, class c = true → space c = false) → s ≠ "" → all_in class s → edge_ok s = true.
Proof.
  intros Hclass Hne Hall. destruct s as [|c s]; [done|].
  apply Forall_cons in Hall as [Hc _]. simpl. by rewrite (Hclass c Hc).
Qed.

Lemma all_in_rev (class : ascii → bool) (s : string) : all_in class s → all_in class (String.rev s).
Proof. unfold all_in. rewrite chars_rev. apply Forall_reverse. Qed.

Lemma rev_not_empty (s : string) : s ≠ "" → String.rev s ≠ "".
Proof. intros Hne Hrev. apply Hne. by rewrite <- (rev_rev s), Hrev. Qed.

Lemma trim_start_id (s : string) : edge_ok s = true → trim_start s = s.
Proof. destruct s as [|c s]; [done|]. simpl. by destruct (space c). Qed.

Lemma trim_id (s : string) : edge_ok s = true → edge_ok (String.rev s) = true → trim s = s.
Proof. intros Hs Hr. unfold trim. by rewrite (trim_start_id s), (trim_start_id _ Hr), rev_rev. Qed.

Lemma session_line_edges (s : Session) :
  listable s →
  edge_ok (session_line s) = true ∧ edge_ok (String.rev (session_line s)) = true
  ∧ ¬ In (ascii_of_nat 10) (list_ascii_of_string (session_line s)).
Proof.
  destruct s as [sid sstatus sname]. unfold listable, session_line. simpl.
  intros (Hid & Hhex & Hstatus & Hword & Hname). split_and!.
  - apply edge_ok_append. by apply (edge_ok_all hex); [apply hex_not_space|..].
  - rewrite !rev_append. do 2 apply edge_ok_append. destruct sname as [n|].
    + rewrite !rev_append. by do 3 apply edge_ok_append.
    + apply (edge_ok_all word); [apply word_not_space|by apply rev_not_empty|].
      by apply all_in_rev.
  - rewrite !chars_append. intros Hin. repeat apply in_app_or in Hin as [Hin|Hin].
    + by apply (all_in_not hex _ _ Hhex) in Hin.
    + simpl in Hin. intuition discriminate.
    + by apply (all_in_not word _ _ Hword) in Hin.
    + destruct sname as [n|]; [|done]. destruct Hname as [_ Hall].
      rewrite !chars_append in Hin. repeat apply in_app_or in Hin as [Hin|Hin].
      * simpl in Hin. intuition discriminate.
      * apply list_elem_of_In in Hin. unfold all_in in Hall. rewrite Forall_forall in Hall.
        by apply Hall, andb_true_iff in Hin as [_ Hin].
      * simpl in Hin. intuition discriminate.
Qed.

Lemma joined_lines (line : string) (others : list string) :
  String.concat LF (line :: others)
  = match others with
    | [] => line
    | _ => line +:+ String (ascii_of_nat 10) (String.concat LF others)
    end.
Proof. by destruct others. Qed.

Lemma joined_edges (line : string) (others : list string) :
  Forall (fun l => edge_ok l = true ∧ edge_ok (String.rev l) = true) (line :: others) →
  edge_ok (String.concat LF (line :: others)) = true
  ∧ edge_ok (String.rev (String.concat LF (line :: others))) = true.
Proof.
  revert line. induction others as [|next others IH]; intros line Hall;
    apply Forall_cons in Hall as [[Hl Hr] Hall]; [done|].
  rewrite joined_lines. destruct (IH next Hall) as [_ IHr]. split.
  - by apply edge_ok_append.
  - change (String (ascii_of_nat 10) (String.concat LF (next :: others)))
      with (LF +:+ String.concat LF (next :: others)).
    rewrite !rev_append. rewrite append_assoc. by apply edge_ok_append.
Qed.

Lemma split_joined (line : string) (others : list string) :
  Forall (fun l => ¬ In (ascii_of_nat 10) (list_ascii_of_string l)) (line :: others) →
  split (ascii_of_nat 10) (String.concat LF (line :: others)) = line :: others.
Proof.
  revert line. induction others as [|next others IH]; intros line Hall;
    apply Forall_cons in Hall as [Hl Hall].
  - by apply split_none.
  - rewrite joined_lines, split_append by done. by rewrite IH.
Qed.

Lemma parse_session_lines (sessions : list Session) :
  Forall listable sessions →
  parseSessionList (String.concat LF (session_line <$> sessions)) = sessions.
Proof.
  intros Hall. destruct sessions as [|s sessions]; [reflexivity|].
  assert (Forall (fun l => edge_ok l = true ∧ edge_ok (String.rev l) = true)
            (session_line <$> s :: sessions)) as Hedges.
  { apply Forall_fmap. eapply Forall_impl; [exact Hall|].
    intros x Hx. by destruct (session_line_edges x Hx) as (? & ? & _). }
  assert (Forall (fun l => ¬ In (ascii_of_nat 10) (list_ascii_of_string l))
            (session_line <$> s :: sessions)) as Hlines.
  { apply Forall_fmap. eapply Forall_impl; [exact Hall|].
    intros x Hx. by destruct (session_line_edges x Hx) as (_ & _ & ?). }
  unfold parseSessionList, Pexpect.parseSessionList. rewrite fmap_cons in *.
  destruct (joined_edges _ _ Hedges) as [He Hr].
  rewrite (trim_id _ He Hr), (split_joined _ _ Hlines), <- fmap_cons.
  clear Hedges Hlines He Hr. induction Hall as [|x l Hx Hl IH]; [done|].
  rewrite fmap_cons. cbn [omap list_omap].
  destruct (session_line_edges x Hx) as (He & Hr & _).
  rewrite (trim_id _ He Hr), (match_session_line_of_line x Hx).
  destruct (String.eqb_spec (session_line x) "") as [Heq|_].
  - rewrite Heq in He. done.
  - by rewrite IH.
Qed.

Lemma trim_start_blank (blank s : string) :
  all_in space blank → trim_start (blank +:+ s) = trim_start s.
Proof.
  induction blank as [|c blank IH]; intros Hall; [done|].
  apply Forall_cons in Hall as [Hc Hall]. rewrite append_cons. simpl. rewrite Hc. by apply IH.
Qed.

Lemma trim_blank (lead trail : string) :
  all_in space lead → all_in space trail → trim (lead +:+ "" +:+ trail) = "".
Proof.
  intros Hlead Htrail. unfold trim. rewrite append_nil, trim_start_blank by done.
  rewrite <- (append_empty trail), trim_start_blank by done. done.
Qed.

Lemma trim_padded (lead s trail : string) :
  all_in space lead → all_in space trail →
  edge_ok s = true → edge_ok (String.rev s) = true →
  trim (lead +:+ s +:+ trail) = s.
Proof.
  intros Hlead Htrail Hs Hr. unfold trim. rewrite trim_start_blank by done.
  rewrite (trim_start_id (s +:+ trail)) by (by apply edge_ok_append).
  rewrite rev_append, trim_start_blank by (by apply all_in_rev).
  by rewrite trim_start_id, rev_rev.
Qed.

(** The round trip: the text [pexpect-cli --list] prints for listable
    sessions, one line each, parses back to these sessions, in order;
    white space around the text, such as a final line feed, makes no
    difference. *)
Theorem listed_sessions_parse_back (sessions : list Session) (lead trail : string) :
  Forall listable sessions →
  all_in space lead → all_in space trail →
  parseSessionList (lead +:+ String.concat LF (session_line <$> sessions) +:+ trail)
  = sessions.
Proof.
  intros Hall Hlead Htrail.
  rewrite <- (parse_session_lines sessions Hall) at 2.
  unfold parseSessionList, Pexpect.parseSessionList. do 2 f_equal.
  destruct sessions as [|s sessions].
  - by rewrite trim_blank.
  - rewrite fmap_cons.
    destruct (joined_edges (session_line s) (session_line <$> sessions)) as [He Hr].
    { rewrite <- fmap_cons. apply Forall_fmap. eapply Forall_impl; [exact Hall|].
      intros x Hx. by destruct (session_line_edges x Hx) as (? & ? & _). }
    by rewrite trim_padded, trim_id.
Qed.

Lemma listed_sessions_parse_back_witness :
  let sessions := [{| id := "ab12cd34"; status := "Running"; name := Some "ssh-prod" |};
                   {| id := "00FFee99"; status := "Queued"; name := None |}] in
  Forall listable sessions
  ∧ all_in space LF
  ∧ parseSessionList ("ab12cd34: Running (ssh-prod)" +:+ LF +:+ "00FFee99: Queued" +:+ LF)
    = sessions.
Proof.
  intros sessions.
  assert (Forall listable sessions) as Hall.
  { repeat (apply Forall_cons; split; [|]); [| |constructor];
      (split_and!; try done; by repeat constructor). }
  assert (all_in space LF) as Hlf by (by repeat constructor).
  split; [exact Hall|]. split; [exact Hlf|].
  exact (listed_sessions_parse_back sessions "" LF Hall (Forall_nil_2 _) Hlf).
Defined.

End SessionListFacts.

(** ** ast_grep: grouping, limit and failures *)

Module AstGrepFacts.

Import AstGrep AstGrepFormat.

Lemma group_by_file_snoc (matches : list AstGrepMatch) (m : AstGrepMatch) :
  group_by_file (matches ++ [m]) = add_to_group m (group_by_file matches).
Proof. unfold group_by_file. by rewrite fold_left_app. Qed.

Lemma matches_in_snoc (f : string) (matches : list AstGrepMatch) (m : AstGrepMatch) :
  matches_in f (matches ++ [m])
  = matches_in f matches ++ (if String.eqb (file m) f then [m] else []).
Proof. unfold matches_in. rewrite List.filter_app. simpl. by destruct (String.eqb (file m) f). Qed.

Lemma add_to_group_files (m : AstGrepMatch) (byFile : list (string * list AstGrepMatch)) :
  (add_to_group m byFile).*1
  = if bool_decide (file m ∈ byFile.*1) then byFile.*1 else byFile.*1 ++ [file m].
Proof.
  induction byFile as [|[f ms] others IH]; [done|]. cbn [add_to_group].
  destruct (String.eqb_spec f (file m)) as [->|Hne]; rewrite !fmap_cons; cbn [fst].
  - rewrite bool_decide_eq_true_2; [done|]. apply list_elem_of_here.
  - rewrite IH. destruct (bool_decide_reflect (file m ∈ others.*1)) as [Hin|Hnot].
    + rewrite bool_decide_eq_true_2; [done|]. by apply list_elem_of_further.
    + rewrite bool_decide_eq_false_2; [done|].
      intros [Heq|Hin]%elem_of_cons; [congruence|done].
Qed.

Lemma matches_in_file (f : string) (seen : list AstGrepMatch) (m : AstGrepMatch) :
  m ∈ matches_in f seen ↔ m ∈ seen ∧ file m = f.
Proof.
  unfold matches_in. rewrite !list_elem_of_In, List.filter_In.
  by destruct (String.eqb_spec (file m) f); intuition.
Qed.

Lemma add_to_group_entries (m : AstGrepMatch) (seen : list AstGrepMatch)
    (byFile : list (string * list AstGrepMatch)) :
  NoDup byFile.*1 →
  (file m ∉ byFile.*1 → matches_in (file m) seen = []) →
  Forall (fun entry => entry.2 = matches_in entry.1 seen ∧ entry.2 ≠ []) byFile →
  Forall (fun entry => entry.2 = matches_in entry.1 (seen ++ [m]) ∧ entry.2 ≠ [])
    (add_to_group m byFile).
Proof.
  intros Hfiles Hnew Hall.
  assert (Hother : ∀ f, f ≠ file m → matches_in f (seen ++ [m]) = matches_in f seen).
  { intros f Hf. rewrite matches_in_snoc.
    destruct (String.eqb_spec (file m) f); [congruence|]. by rewrite app_nil_r. }
  induction Hall as [|[f ms] others [Hms Hne] Hall IH]; cbn [add_to_group].
  - apply Forall_singleton. simpl. rewrite matches_in_snoc, String.eqb_refl.
    rewrite Hnew; [done|]. apply not_elem_of_nil.
  - simpl in Hms, Hne. rewrite fmap_cons in Hfiles. apply NoDup_cons in Hfiles as [Hf' Hfiles].
    destruct (String.eqb_spec f (file m)) as [->|Hf].
    + apply Forall_cons. split.
      * simpl. rewrite matches_in_snoc, String.eqb_refl, Hms. split; [done|].
        by destruct (matches_in (file m) seen).
      * apply Forall_forall. intros [f' ms'] Hin.
        rewrite Forall_forall in Hall. destruct (Hall _ Hin) as [Hms' Hne']. simpl in *.
        rewrite Hother; [done|]. intros ->. apply Hf'.
        apply list_elem_of_fmap. by exists (file m, ms').
    + apply Forall_cons. split.
      * simpl. by rewrite Hother.
      * apply IH; [done|]. intros Hnot. apply Hnew. rewrite fmap_cons.
        intros [Heq|Hin]%elem_of_cons; simpl in *; [congruence|done].
Qed.

Lemma add_to_group_grouped (m : AstGrepMatch) (seen : list AstGrepMatch)
    (byFile : list (string * list AstGrepMatch)) :
  grouped seen byFile → grouped (seen ++ [m]) (add_to_group m byFile).
Proof.
  intros (Hfiles & Hentries & Hcover). split_and!.
  - rewrite add_to_group_files. case_bool_decide as Hin; [done|].
    apply NoDup_app. split_and!; [done| |apply NoDup_singleton].
    intros f Hf ->%list_elem_of_singleton. done.
  - apply add_to_group_entries; [done| |done]. intros Hnot.
    destruct (matches_in (file m) seen) as [|m' ms'] eqn:Hm; [done|].
    assert (m' ∈ matches_in (file m) seen) as [Hin Hfile]%matches_in_file
      by (rewrite Hm; apply list_elem_of_here).
    apply Hcover in Hin. congruence.
  - intros m' [Hin| ->%list_elem_of_singleton]%elem_of_app; rewrite add_to_group_files;
      case_bool_decide as Hfile.
    + by apply Hcover.
    + apply elem_of_app. left. by apply Hcover.
    + done.
    + apply elem_of_app. right. apply list_elem_of_here.
Qed.

Lemma group_by_file_grouped (matches : list AstGrepMatch) :
  grouped matches (group_by_file matches).
Proof.
  induction matches as [|m matches IH] using rev_ind.
  - split_and!; [apply NoDup_nil_2|apply Forall_nil_2|]. by intros m ?%elem_of_nil.
  - rewrite group_by_file_snoc. by apply add_to_group_grouped.
Qed.

Lemma add_to_group_all (m : AstGrepMatch) (byFile : list (string * list AstGrepMatch)) :
  mjoin (add_to_group m byFile).*2 ≡ₚ m :: mjoin byFile.*2.
Proof.
  induction byFile as [|[f ms] others IH]; [done|]. cbn [add_to_group].
  destruct (String.eqb f (file m)); rewrite !fmap_cons; cbn [snd mjoin list_join].
  - rewrite <- app_assoc. rewrite (Permutation_app_comm ms). simpl.
    by rewrite (Permutation_app_comm ms).
  - rewrite IH. by rewrite Permutation_middle.
Qed.

Lemma group_by_file_all (matches : list AstGrepMatch) :
  mjoin (group_by_file matches).*2 ≡ₚ matches.
Proof.
  induction matches as [|m matches IH] using rev_ind; [done|].
  rewrite group_by_file_snoc, add_to_group_all, IH. apply Permutation_cons_append.
Qed.

(** The grouping: [formatResults] groups the matches by file: each file that has a
    match appears once, its entry holds exactly the matches of that
    file in the order they were reported, and no match is lost or
    repeated. *)
Theorem grouping_partitions_matches (matches : list AstGrepMatch) :
  let byFile := group_by_file matches in
  NoDup byFile.*1
  ∧ (∀ f, f ∈ byFile.*1 ↔ ∃ m, m ∈ matches ∧ file m = f)
  ∧ (∀ f ms, (f, ms) ∈ byFile → ms = matches_in f matches)
  ∧ mjoin byFile.*2 ≡ₚ matches.
Proof.
  intros byFile. destruct (group_by_file_grouped matches) as (Hfiles & Hentries & Hcover).
  fold byFile in Hfiles, Hentries, Hcover. rewrite Forall_forall in Hentries. split_and!.
  - done.
  - intros f. split.
    + intros ([f' ms] & -> & Hin)%list_elem_of_fmap. destruct (Hentries _ Hin) as [Hms Hne].
      simpl in *. destruct ms as [|m ms]; [done|]. exists m.
      apply matches_in_file. rewrite <- Hms. apply list_elem_of_here.
    + intros (m & Hin & <-). by apply Hcover.
  - intros f ms Hin. by destruct (Hentries _ Hin).
  - apply group_by_file_all.
Qed.

Lemma apply_limit_take (limit : Z) (matches : list AstGrepMatch) :
  0 <= limit → apply_limit limit matches = take (Z.to_nat limit) matches.
Proof.
  intros Hlimit. unfold apply_limit. destruct (Z.ltb_spec limit (Z.of_nat (length matches))).
  - by destruct (Z.ltb_spec limit 0); [lia|].
  - rewrite take_ge; [done|lia].
Qed.

(** The matches listed: when ast-grep exits with 0 or 1, the tool formats the first
    [limit] matches (50 when no limit is given) of the parsed output,
    in the order reported; a blank output counts as no match and gives
    the text "No matches found.". *)
Theorem ast_grep_lists_first_matches
    (JSON_parse : string → option (Parsed AstGrepMatch))
    (limit_and_format_miscast : Json → Z → bool → outcome string) (params : Params)
    (os : Command → ProcessResult) (code : option Z) (stdout stderr : string)
    (matches : list AstGrepMatch) :
  os {| program := "ast-grep"; argv := build_args params |} = closed code stdout stderr →
  code = Some 0 ∨ code = Some 1 →
  0 <= nullish (limit params) 50 →
  (if String.eqb (Regex.trim stdout) "" then Some (array_of []) else JSON_parse stdout)
  = Some (array_of matches) →
  execute JSON_parse Regex.trim formatResults limit_and_format_miscast params os
  = Returned (ok_result (formatResults (take (Z.to_nat (nullish (limit params) 50)) matches)
                           (nullish (context params) false)))
  ∧ (Regex.trim stdout = "" →
     execute JSON_parse Regex.trim formatResults limit_and_format_miscast params os
     = Returned (ok_result "No matches found.")).
Proof.
  intros Hos Hcode Hlimit Hfound.
  assert (runAstGrep JSON_parse Regex.trim (build_args params) os
          = Returned (array_of matches)) as Hrun.
  { unfold runAstGrep. rewrite Hos.
    assert (bool_decide (code = Some 0) || bool_decide (code = Some 1) = true) as ->.
    { destruct Hcode as [-> | ->]; done. }
    destruct (String.eqb (Regex.trim stdout) ""); [congruence|].
    by rewrite Hfound. }
  assert (execute JSON_parse Regex.trim formatResults limit_and_format_miscast params os
          = Returned (ok_result
                        (formatResults (take (Z.to_nat (nullish (limit params) 50)) matches)
                           (nullish (context params) false)))) as Hexec.
  { unfold execute. rewrite Hrun. simpl. by rewrite apply_limit_take. }
  split; [done|]. intros Hblank. rewrite Hexec. rewrite Hblank in Hfound. simpl in Hfound.
  injection Hfound as <-. by rewrite take_nil.
Qed.

(** Failures: the tool reports an error exactly when ast-grep could not be
    started, exited with a code other than 0 and 1, or wrote output
    that is not blank and either does not parse, or parses to a value
    that is no array of matches and on which the limit or the
    formatting throws. The parsed value is not checked to be an array:
    any other value on which nothing throws is reported as a result. *)
Theorem ast_grep_fails_exactly_on_bad_exit_or_output
    (JSON_parse : string → option (Parsed AstGrepMatch))
    (limit_and_format_miscast : Json → Z → bool → outcome string) (params : Params)
    (os : Command → ProcessResult) :
  ∃ r, execute JSON_parse Regex.trim formatResults limit_and_format_miscast params os
       = Returned r
       ∧ (isError r = true ↔
          match os {| program := "ast-grep"; argv := build_args params |} with
          | spawn_failed _ _ => True
          | closed code stdout _ =>
              (code ≠ Some 0 ∧ code ≠ Some 1)
              ∨ (Regex.trim stdout ≠ ""
                 ∧ (JSON_parse stdout = None
                    ∨ ∃ value e,
                        JSON_parse stdout = Some (miscast value)
                        ∧ limit_and_format_miscast value (nullish (limit params) 50)
                            (nullish (context params) false) = Thrown e))
          end)
       ∧ ∀ code stdout stderr value output,
           os {| program := "ast-grep"; argv := build_args params |}
           = closed code stdout stderr →
           code = Some 0 ∨ code = Some 1 →
           Regex.trim stdout ≠ "" →
           JSON_parse stdout = Some (miscast value) →
           limit_and_format_miscast value (nullish (limit params) 50)
             (nullish (context params) false) = Returned output →
           r = ok_result output.
Proof.
  unfold execute, runAstGrep.
  destruct (os _) as [message enoent|code stdout stderr].
  - destruct enoent; eexists; (split; [done|]); simpl; done.
  - assert (∀ stdout' : string, stdout' = stdout → ∃ r,
      try_catch
        (matches ← (if String.eqb (Regex.trim stdout) "" then Returned (array_of [])
                    else match JSON_parse stdout with
                         | Some results => Returned results
                         | None => Thrown ("Failed to parse ast-grep output: " +:+ stdout)
                         end);
         output ← limit_and_format formatResults limit_and_format_miscast
                    (nullish (limit params) 50) (nullish (context params) false) matches;
         Returned (ok_result output))
        (fun msg => error_result ("ast-grep search failed: " +:+ msg)) = Returned r
      ∧ (isError r = true ↔
         Regex.trim stdout ≠ ""
         ∧ (JSON_parse stdout = None
            ∨ ∃ value e,
                JSON_parse stdout = Some (miscast value)
                ∧ limit_and_format_miscast value (nullish (limit params) 50)
                    (nullish (context params) false) = Thrown e))
      ∧ (Regex.trim stdout ≠ "" →
         ∀ value output,
           JSON_parse stdout = Some (miscast value) →
           limit_and_format_miscast value (nullish (limit params) 50)
             (nullish (context params) false) = Returned output →
           r = ok_result output)) as Haccepted.
    { intros _ _.
      destruct (String.eqb_spec (Regex.trim stdout) "") as [Hblank|Hblank]; simpl.
      - eexists. split; [done|]. simpl. split; [|done]. split; [done|]. by intros [? _].
      - destruct (JSON_parse stdout) as [[matches|value]|] eqn:Hparse; simpl.
        + eexists. split; [done|]. simpl. split; [|done]. split; [done|].
          intros [_ [?|(? & ? & ? & _)]]; done.
        + destruct (limit_and_format_miscast value _ _) as [output|e] eqn:Hformat; simpl.
          * eexists. split; [done|]. simpl. split.
            -- split; [done|]. intros [_ [?|(? & ? & [= <-] & ?)]]; [done|congruence].
            -- intros _ value' output' [= <-] Hout. congruence.
          * eexists. split; [done|]. simpl. split.
            -- split; [|done]. intros _. split; [done|]. right. by exists value, e.
            -- intros _ value' output' [= <-] Hout. congruence.
        + eexists. split; [done|]. simpl. split.
          * split; [|done]. intros _. split; [done|]. by left.
          * by intros _ value output. }
    destruct (Haccepted stdout eq_refl) as (r & Hr & Herr & Hok).
    destruct (bool_decide_reflect (code = Some 0)) as [->|H0]; simpl.
    + exists r. split; [done|]. split.
      * rewrite Herr. split; [by right|]. by intros [[? _]|?].
      * intros ? ? ? value output [= <- <- <-] _ Hnb. by apply Hok.
    + destruct (bool_decide_reflect (code = Some 1)) as [->|H1]; simpl.
      * exists r. split; [done|]. split.
        -- rewrite Herr. split; [by right|]. by intros [[_ ?]|?].
        -- intros ? ? ? value output [= <- <- <-] _ Hnb. by apply Hok.
      * eexists. split; [done|]. simpl. split.
        -- split; [|done]. intros _. by left.
        -- intros ? ? ? value output [= <- <- <-] [?|?]; done.
Qed.

(** The output [null] is not blank and parses; reading its length
    throws, and the tool reports the failure. *)
Example null_output_fails :
  let params := {| pattern := "x"; lang := None; paths := None; globs := None;
                   context := None; limit := None |} in
  let JSON_parse := fun _ : string => Some (@miscast AstGrepMatch json_null) in
  let on_miscast := fun (_ : Json) (_ : Z) (_ : bool) =>
    @Thrown string "Cannot read properties of null (reading 'length')" in
  execute JSON_parse Regex.trim formatResults on_miscast params
    (fun _ => closed (Some 0) "null" "")
  = Returned (error_result
                "ast-grep search failed: Cannot read properties of null (reading 'length')").
Proof. vm_compute. reflexivity. Qed.

Lemma ast_grep_lists_first_matches_witness :
  let sample_match := fun (f : string) (line : Z) =>
    {| file := f; start_line := line; start_column := 0; lines := ""; text := "x";
       metaVariables := None |} in
  let params := {| pattern := "x"; lang := None; paths := None; globs := None;
                   context := None; limit := Some 2 |} in
  let os := fun _ : Command => closed (Some 0) "[]" "" in
  let JSON_parse := fun _ : string =>
    Some (array_of [sample_match "a.ts" 1; sample_match "b.ts" 2; sample_match "a.ts" 3]) in
  let on_miscast := fun (_ : Json) (_ : Z) (_ : bool) =>
    Thrown "Cannot read properties of null (reading 'length')" in
  execute JSON_parse Regex.trim formatResults on_miscast params os
  = Returned (ok_result (formatResults [sample_match "a.ts" 1; sample_match "b.ts" 2] false))
  ∧ (Regex.trim "[]" = "" →
     execute JSON_parse Regex.trim formatResults on_miscast params os
     = Returned (ok_result "No matches found.")).
Proof.
  intros sample_match params os JSON_parse on_miscast.
  apply (ast_grep_lists_first_matches JSON_parse on_miscast params os (Some 0) "[]" ""
           [sample_match "a.ts" 1; sample_match "b.ts" 2; sample_match "a.ts" 3]).
  - reflexivity.
  - by left.
  - vm_compute. discriminate.
  - reflexivity.
Defined.

End AstGrepFacts.

(** ** github_search_code: fragments and failures *)

Module GithubFragmentFacts.

Import Regex GithubSearch SessionList GithubFragments StringFacts SessionListFacts.

Lemma split_no_sep (sep : ascii) (s : string) :
  Forall (fun piece => ¬ In sep (list_ascii_of_string piece)) (split sep s).
Proof.
  induction s as [|c s IH]; simpl; [apply Forall_singleton; simpl; tauto|].
  destruct (split_cons sep s) as (first & others & Hs). rewrite Hs in *.
  apply Forall_cons in IH as [Hfirst Hothers].
  destruct (Ascii.eqb_spec c sep) as [->|Hne].
  - apply Forall_cons. split; [by intros []|]. by apply Forall_cons.
  - apply Forall_cons. split; [|done]. simpl. intros [Heq|Hin]; [congruence|done].
Qed.

Lemma trim_start_edge (s : string) : trim_start s = "" ∨ edge_ok (trim_start s) = true.
Proof.
  induction s as [|c s IH]; [by left|]. simpl. destruct (space c) eqn:Hc; [done|].
  right. simpl. by rewrite Hc.
Qed.

Lemma edge_ok_prefix (a b : string) : a ≠ "" → edge_ok (a +:+ b) = true → edge_ok a = true.
Proof. by destruct a. Qed.

Lemma trim_edges (s : string) :
  trim s ≠ "" → edge_ok (trim s) = true ∧ edge_ok (String.rev (trim s)) = true.
Proof.
  unfold trim. intros Hne. rewrite rev_rev.
  set (a := trim_start s) in *. set (b := trim_start (String.rev a)) in *.
  assert (b ≠ "") as Hb by (by intros Hb; rewrite Hb in Hne).
  destruct (trim_start_edge (String.rev a)) as [Hempty|Hedge]; [done|]. fold b in Hedge.
  split; [|done].
  destruct (trim_start_suffix (String.rev a)) as (l & Hl). fold b in Hl.
  assert (a = String.rev b +:+ String.rev l) as Ha by (by rewrite <- rev_append, <- Hl, rev_rev).
  apply (edge_ok_prefix _ (String.rev l)); [done|]. rewrite <- Ha.
  destruct (trim_start_edge s) as [Hempty|Hok]; [|done]. fold a in Hempty.
  rewrite Hempty in Ha. by destruct (String.rev b).
Qed.

Lemma trim_chars (s : string) (c : ascii) :
  In c (list_ascii_of_string (trim s)) → In c (list_ascii_of_string s).
Proof.
  destruct (trim_inside s) as (l & r & Hs). intros Hin. rewrite Hs.
  rewrite !chars_append. apply in_or_app. right. apply in_or_app. by left.
Qed.

Lemma edge_ok_not_empty (s : string) : edge_ok s = true → String.eqb s "" = false.
Proof. by destruct s. Qed.

(** The lines the cleaning keeps are neat. *)
Lemma kept_lines_neat (fragment : string) :
  Forall neat
    (List.filter (fun line => negb (String.eqb line ""))
       (trim <$> split (ascii_of_nat 10) fragment)).
Proof.
  apply Forall_forall. intros line [Hin Hne]%list_elem_of_In%List.filter_In.
  apply list_elem_of_In, list_elem_of_fmap in Hin as (raw & -> & Hraw).
  destruct (String.eqb_spec (trim raw) "") as [|Hne']; [done|].
  destruct (trim_edges raw Hne') as [Hl Hr]. split_and!; [done|done|].
  intros Hin%trim_chars. pose proof (split_no_sep (ascii_of_nat 10) fragment) as Hall.
  rewrite Forall_forall in Hall. by apply (Hall raw).
Qed.

(** Neat lines come back unchanged from a second cleaning. *)
Lemma clean_neat (kept : list string) :
  Forall neat kept → clean (String.concat LF kept) = String.concat LF kept.
Proof.
  intros Hall. unfold clean, clean_fragment. simpl. destruct kept as [|line others]; [done|].
  rewrite split_joined by (eapply Forall_impl; [exact Hall|]; by intros l (_ & _ & ?)).
  f_equal. induction Hall as [|l ls (Hl & Hr & _) Hall IH]; [done|].
  rewrite fmap_cons, trim_id by done. simpl. rewrite edge_ok_not_empty by done. simpl.
  by rewrite IH.
Qed.

(** Cleaning: cleaning a fragment a second time changes nothing, and every
    line of a cleaned fragment is non-empty and has no white space at
    either end. *)
Theorem cleaned_fragment_stays (fragment : string) :
  clean (clean fragment) = clean fragment
  ∧ (clean fragment = ""
     ∨ Forall (fun line => line ≠ "" ∧ trim line = line)
         (split (ascii_of_nat 10) (clean fragment))).
Proof.
  pose proof (kept_lines_neat fragment) as Hneat. split.
  - by apply clean_neat.
  - unfold clean, clean_fragment. simpl.
    destruct (List.filter _ _) as [|line others] eqn:Hkept; [by left|]. right.
    rewrite split_joined by (eapply Forall_impl; [exact Hneat|]; by intros l (_ & _ & ?)).
    eapply Forall_impl; [exact Hneat|]. intros l (Hl & Hr & _). split.
    + by destruct l.
    + by apply trim_id.
Qed.

(** Success: the search succeeds exactly when gh exits with code 0, its
    output parses, and the parsed value is an array of results or a
    value on which the formatting does not throw; for an array of
    results the text is the formatted list. The parsed value is not
    checked to be an array: any other value on which the formatting
    returns is reported as a result. In every other case the result is
    flagged as an error. *)
Theorem github_search_succeeds_exactly_on_parsed_exit_zero
    (JSON_parse : string → option (Parsed CodeSearchResult)) (trim : string → string)
    (formatResults_miscast : Json → outcome string)
    (lines : string → list string) (params : Params) (os : Command → ProcessResult) :
  ∃ r, (execute JSON_parse trim formatResults_miscast lines params os).2 = Returned r
       ∧ (isError r = false ↔
          ∃ stdout stderr,
            os (gh_command (build_args params)) = closed (Some 0) stdout stderr
            ∧ ((∃ results, JSON_parse stdout = Some (array_of results)
                           ∧ r = ok_result (formatResults trim lines results))
               ∨ (∃ value output, JSON_parse stdout = Some (miscast value)
                                  ∧ formatResults_miscast value = Returned output
                                  ∧ r = ok_result output))).
Proof.
  assert (∀ msg, isError (on_error msg) = true) as Herr.
  { intros msg. unfold on_error. destruct (_ || _); [done|]. by destruct (_ || _). }
  unfold execute, runGhSearch. simpl.
  destruct (os _) as [message enoent|code stdout stderr]; simpl.
  - eexists. split; [done|]. rewrite Herr. split; [done|]. by intros (? & ? & ? & _).
  - destruct (bool_decide_reflect (code = Some 0)) as [->|Hcode]; simpl.
    + destruct (JSON_parse stdout) as [[results|value]|] eqn:Hparse; simpl.
      * eexists. split; [done|]. simpl. split; [|done]. intros _.
        exists stdout, stderr. split; [done|]. left. by exists results.
      * destruct (formatResults_miscast value) as [output|e] eqn:Hformat; simpl.
        -- eexists. split; [done|]. simpl. split; [|done]. intros _.
           exists stdout, stderr. split; [done|]. right. by exists value, output.
        -- eexists. split; [done|]. rewrite Herr. split; [done|].
           intros (? & ? & [= <- <-] & [(? & ? & _)|(? & ? & ? & ? & _)]); congruence.
      * eexists. split; [done|]. rewrite Herr. split; [done|].
        intros (? & ? & [= <- <-] & [(? & ? & _)|(? & ? & ? & _)]); congruence.
    + eexists. split; [done|]. rewrite Herr. split; [done|].
      intros (? & ? & [= -> _ _] & _). done.
Qed.

(** The output [null] parses, and [formatResults] throws on reading its
    length: the search fails. The output of an empty JSON string parses
    too, and its length is 0: the search reports no results. *)
Example unchecked_output_is_formatted :
  let params := {| query := "q"; language := None; owner := None; repo := None;
                   extension := None; filename := None; limit := None |} in
  let JSON_parse := fun stdout : string =>
    if String.eqb stdout "null" then Some (miscast json_null)
    else Some (miscast (json_string "")) in
  let formatResults_miscast := fun value : Json =>
    match value with
    | json_null => Thrown "Cannot read properties of null (reading 'length')"
    | _ => Returned "No results found."
    end in
  (execute JSON_parse Regex.trim formatResults_miscast (split (ascii_of_nat 10)) params
     (fun _ => closed (Some 0) "null" "")).2
  = Returned (error_result
                "GitHub search failed: Cannot read properties of null (reading 'length')")
  ∧ (execute JSON_parse Regex.trim formatResults_miscast (split (ascii_of_nat 10)) params
       (fun _ => closed (Some 0) (String (ascii_of_nat 34) (String (ascii_of_nat 34) "")) "")).2
    = Returned (ok_result "No results found.").
Proof. split; vm_compute; reflexivity. Qed.

End GithubFragmentFacts.

(** ** kagi_search: the quick answer *)

Module KagiAnswer.

Import Regex Kagi StringFacts SessionListFacts.

Lemma strip_prefix_append (p s : string) : strip_prefix p (p +:+ s) = Some s.
Proof.
  induction p as [|c p IH]; [done|]. rewrite append_cons. cbn [strip_prefix].
  by rewrite Ascii.eqb_refl.
Qed.

Lemma first_answer_passes (JSON_parse_message : string → option (string * string))
    (refPattern : string → list (string * string * string)) (before rest : list string) :
  Forall (passed_over JSON_parse_message) before →
  first_answer JSON_parse_message refPattern (before ++ rest)
  = first_answer JSON_parse_message refPattern rest.
Proof.
  induction 1 as [|line before Hline _ IH]; [done|].
  rewrite <- app_comm_cons. cbn [first_answer]. unfold passed_over in Hline.
  destruct (strip_prefix "new_message.json:" line) as [json|]; [|exact IH].
  destruct Hline as (refs & ->). exact IH.
Qed.

(** The quick answer: the stream is scanned line by line for the first
    message whose markdown is not empty, and that message is the
    answer; a message line that does not parse ends the scan with no
    answer, whatever follows it. *)
Theorem quick_answer_is_first_message_with_text
    (encodeURIComponent : string → string)
    (JSON_parse_message : string → option (string * string))
    (refPattern : string → list (string * string * string))
    (this : KagiClient) (query : string) (fetch : Request → outcome Response)
    (response : Response) (before after : list string) (json : string) :
  let message := "new_message.json:" +:+ json in
  fetch (quick_answer_request encodeURIComponent this query) = Returned response →
  body response = Returned (String.concat LF (before ++ message :: after)) →
  Forall (fun line => ¬ In (ascii_of_nat 10) (list_ascii_of_string line))
    (before ++ message :: after) →
  Forall (passed_over JSON_parse_message) before →
  getQuickAnswer encodeURIComponent JSON_parse_message refPattern this query fetch
  = match JSON_parse_message json with
    | None => None
    | Some (md, references_md) =>
        if String.eqb md ""
        then first_answer JSON_parse_message refPattern after
        else Some {| markdown := md;
                     references :=
                       (fun m => {| ref_title := m.1.1; ref_url := m.1.2;
                                    contribution := m.2 +:+ "%" |})
                         <$> refPattern references_md |}
    end.
Proof.
  intros message Hfetch Hbody Hlines Hbefore. unfold getQuickAnswer.
  rewrite Hfetch, Hbody.
  assert (split (ascii_of_nat 10) (String.concat LF (before ++ message :: after))
          = before ++ message :: after) as ->.
  { destruct (before ++ message :: after) as [|l ls] eqn:Hl.
    - by destruct before.
    - by apply split_joined. }
  rewrite first_answer_passes by done. cbn [first_answer].
  unfold message. rewrite strip_prefix_append.
  destruct (JSON_parse_message json) as [[md references_md]|]; done.
Qed.

(** The quick answer only adds a section: asking for it changes
    neither the cached client, nor the search request, nor whether the
    result is an error; the text without it is the end of the text with
    it, and an error text is the same. *)
Theorem quick_answer_only_prepends
    (encodeURIComponent : string → string) (resultPattern : string → list string)
    (titlePattern urlPattern snippetPattern : string → option string)
    (clean : string → string) (JSON_parse_message : string → option (string * string))
    (refPattern : string → list (string * string * string))
    (q : string) (limit : option Z) (asked : option bool) (env : Env)
    (client : option KagiClient) :
  let run := fun quick_answer =>
    execute encodeURIComponent resultPattern titlePattern urlPattern snippetPattern clean
      JSON_parse_message refPattern
      {| query := q; Kagi.limit := limit; quick_answer := quick_answer |} env client in
  (run asked).1 = (run (Some false)).1
  ∧ ∃ r plain section,
      (run asked).2 = Returned r ∧ (run (Some false)).2 = Returned plain
      ∧ isError r = isError plain
      ∧ text r = section +:+ text plain
      ∧ (isError r = true → section = "").
Proof.
  intros run. subst run. unfold execute. cbn [query Kagi.limit quick_answer].
  destruct (ensureClient client env) as [client1 [kagi|msg]].
  - destruct (search _ _ _ _ _ _ _ _ _ _) as [results|msg].
    + split; [done|].
      eexists _, _, (match (if nullish asked true
                            then getQuickAnswer encodeURIComponent JSON_parse_message
                                   refPattern kagi q (fetch env)
                            else None) with
                     | Some a => format_quick_answer a
                     | None => ""
                     end).
      split; [done|]. split; [done|]. split; [done|]. split; [|done].
      reflexivity.
    + split; [done|]. eexists _, _, "". done.
  - split; [done|]. eexists _, _, "". done.
Qed.

Lemma quick_answer_is_first_message_with_text_witness :
  let parse := fun json : string =>
    if String.eqb json "{}" then Some ("", "")
    else if String.eqb json "{md}" then Some ("Rocq is a proof assistant.", "refs")
         else None in
  let refs := fun _ : string => [("Rocq", "https://rocq-prover.org", "80")] in
  let response := {| status := 200; statusText := "OK"; set_cookie := []; location := None;
                     body := Returned ("hi" +:+ LF +:+ "new_message.json:{}" +:+ LF
                                       +:+ "new_message.json:{md}" +:+ LF
                                       +:+ "new_message.json:oops") |} in
  getQuickAnswer (fun s => s) parse refs new_KagiClient "rocq" (fun _ => Returned response)
  = Some {| markdown := "Rocq is a proof assistant.";
            references := [{| ref_title := "Rocq"; ref_url := "https://rocq-prover.org";
                              contribution := "80%" |}] |}.
Proof.
  intros parse refs response.
  apply (quick_answer_is_first_message_with_text (fun s => s) parse refs new_KagiClient
           "rocq" (fun _ => Returned response) response
           ["hi"; "new_message.json:{}"] ["new_message.json:oops"] "{md}").
  - reflexivity.
  - reflexivity.
  - repeat (apply Forall_cons; split; [simpl; intuition discriminate|]). constructor.
  - repeat (apply Forall_cons; split; [|]); [done|by exists ""|constructor].
Defined.

End KagiAnswer.

(** ** The pexpect tools at a daemon and a session list *)

Module PexpectToolFacts.

Import Regex Pexpect SessionList StringFacts SessionListFacts.

Lemma listed_output_trimmed (sessions : list Session) :
  Forall listable sessions →
  trim (String.concat LF (session_line <$> sessions))
  = String.concat LF (session_line <$> sessions).
Proof.
  intros Hall. destruct sessions as [|s sessions]; [reflexivity|].
  rewrite fmap_cons. destruct (joined_edges (session_line s) (session_line <$> sessions)).
  - rewrite <- fmap_cons. apply Forall_fmap. eapply Forall_impl; [exact Hall|].
    intros x Hx. by destruct (session_line_edges x Hx) as (? & ? & _).
  - by apply trim_id.
Qed.

(** The lookup that opens [pexpect_exec] and [pexpect_stop], when the
    daemon runs and [pexpect-cli --list] prints listable sessions. *)
Lemma lookup_listed (sessions : list Session) (session_id status_out : string)
    (execSync : string → ExecSyncResult) :
  Forall listable sessions →
  execSync "pueue status" = exec_returned status_out →
  execSync "pexpect-cli --list"
  = exec_returned (String.concat LF (session_line <$> sessions)) →
  lookup_session trim (split (ascii_of_nat 10)) match_session_line session_id execSync
  = Returned (find_session session_id sessions).
Proof.
  intros Hall Hstatus Hlist. unfold lookup_session, ensurePueueRunning, runPexpectCli.
  change ("pexpect-cli " +:+ String.concat " " ["--list"]) with "pexpect-cli --list".
  rewrite Hstatus, Hlist. simpl. rewrite listed_output_trimmed by done.
  pose proof (parse_session_lines sessions Hall) as Hparse.
  unfold SessionList.parseSessionList in Hparse. by rewrite Hparse.
Qed.

Lemma find_session_none (session_id : string) (sessions : list Session) :
  Forall (fun s => id s ≠ session_id) sessions → find_session session_id sessions = None.
Proof.
  induction 1 as [|s sessions Hs _ IH]; [done|]. unfold find_session. simpl.
  by destruct (String.eqb_spec (id s) session_id).
Qed.

(** A session that is not in the list: [pexpect_exec] reports an error
    and spawns no child, [pexpect_stop] reports the same fact without
    the error flag. *)
Theorem unlisted_session_fails_exec_but_not_stop
    (sessions : list Session) (session_id code_text status_out : string)
    (timeout : option Z) (execSync : string → ExecSyncResult)
    (sigterm : Disposition) (timeline : list (Z * ChildEvent)) :
  Forall listable sessions →
  execSync "pueue status" = exec_returned status_out →
  execSync "pexpect-cli --list"
  = exec_returned (String.concat LF (session_line <$> sessions)) →
  Forall (fun s => id s ≠ session_id) sessions →
  pexpect_exec trim (split (ascii_of_nat 10)) match_session_line session_id code_text
    timeout execSync sigterm timeline
  = (Some (Returned (error_result
                       ("Session `" +:+ session_id
                        +:+ "` not found. Use pexpect_list to see active sessions."))),
     None)
  ∧ pexpect_stop trim (split (ascii_of_nat 10)) match_session_line session_id execSync
    = Returned (ok_result ("Session `" +:+ session_id +:+ "` not found or already stopped.")).
Proof.
  intros Hall Hstatus Hlist Hnot. unfold pexpect_exec, pexpect_stop.
  rewrite (lookup_listed sessions session_id status_out) by done.
  by rewrite find_session_none.
Qed.

(** Stopping a listed session: the first session of the list with the
    identifier is stopped and reported with the name the list gives it. *)
Theorem stop_reports_listed_session
    (before after : list Session) (s : Session) (status_out stop_out : string)
    (execSync : string → ExecSyncResult) :
  Forall listable (before ++ s :: after) →
  execSync "pueue status" = exec_returned status_out →
  execSync "pexpect-cli --list"
  = exec_returned (String.concat LF (session_line <$> before ++ s :: after)) →
  Forall (fun s' => id s' ≠ id s) before →
  execSync ("pexpect-cli --stop " +:+ id s) = exec_returned stop_out →
  pexpect_stop trim (split (ascii_of_nat 10)) match_session_line (id s) execSync
  = Returned (ok_result ("Stopped session `" +:+ id s +:+ "`"
                         +:+ match name s with
                             | Some n => " (" +:+ n +:+ ")"
                             | None => ""
                             end)).
Proof.
  intros Hall Hstatus Hlist Hbefore Hstop. unfold pexpect_stop.
  rewrite (lookup_listed _ (id s) status_out) by done.
  assert (find_session (id s) (before ++ s :: after) = Some s) as ->.
  { unfold find_session. apply find_after_others.
    - eapply Forall_impl; [exact Hbefore|]. intros s' Hs'.
      by destruct (String.eqb_spec (id s') (id s)).
    - apply String.eqb_refl. }
  unfold runPexpectCli.
  change ("pexpect-cli " +:+ String.concat " " ["--stop"; id s])
    with ("pexpect-cli --stop " +:+ id s).
  rewrite Hstop. simpl.
  apply Forall_app in Hall as [_ [Hs _]%Forall_cons]. destruct Hs as (_ & _ & _ & _ & Hname).
  destruct (name s) as [n|]; simpl.
  - destruct Hname as [Hn _]. destruct n as [|c n]; [done|]. reflexivity.
  - reflexivity.
Qed.

(** The daemon check: when [pueue status] fails, each of the four tools
    returns an error result with the same advice, whatever the failure
    was, and [pexpect_exec] spawns no child. *)
Theorem pueue_down_fails_every_tool
    (trim : string → string) (lines : string → list string)
    (match_session_line : string → option Session)
    (execSync : string → ExecSyncResult) (message : string) (err : option string)
    (name : option string) (session_id code_text : string) (timeout : option Z)
    (sigterm : Disposition) (timeline : list (Z * ChildEvent)) :
  execSync "pueue status" = exec_threw message err →
  let advice := "pueue daemon is not running. Start it with: pueued -d" in
  pexpect_start trim name execSync
  = Returned (error_result ("Failed to start session: " +:+ advice))
  ∧ pexpect_exec trim lines match_session_line session_id code_text timeout execSync
      sigterm timeline
    = (Some (Returned (error_result ("Execution failed: " +:+ advice))), None)
  ∧ pexpect_stop trim lines match_session_line session_id execSync
    = Returned (error_result ("Failed to stop session: " +:+ advice))
  ∧ pexpect_list trim lines match_session_line execSync
    = Returned (error_result ("Failed to list sessions: " +:+ advice)).
Proof.
  intros Hstatus advice.
  unfold pexpect_start, pexpect_exec, pexpect_stop, pexpect_list, lookup_session,
    ensurePueueRunning.
  rewrite Hstatus. done.
Qed.

Lemma unlisted_session_fails_exec_but_not_stop_witness :
  let sessions := [{| id := "ab12cd34"; status := "Running"; name := Some "ssh-prod" |}] in
  let execSync := fun command : string =>
    if String.eqb command "pueue status" then exec_returned "Group default"
    else if String.eqb command "pexpect-cli --list"
         then exec_returned "ab12cd34: Running (ssh-prod)"
         else exec_threw "Command failed" (Some "unknown option") in
  pexpect_exec trim (split (ascii_of_nat 10)) match_session_line "ffff0000" "print(1)"
    None execSync terminates [(5, closes (Some 0))]
  = (Some (Returned (error_result
                       "Session `ffff0000` not found. Use pexpect_list to see active sessions.")),
     None)
  ∧ pexpect_stop trim (split (ascii_of_nat 10)) match_session_line "ffff0000" execSync
    = Returned (ok_result "Session `ffff0000` not found or already stopped.").
Proof.
  intros sessions execSync.
  apply (unlisted_session_fails_exec_but_not_stop sessions "ffff0000" "print(1)"
           "Group default" None execSync terminates [(5, closes (Some 0))]).
  - apply Forall_singleton. split_and!; try done; by repeat constructor.
  - reflexivity.
  - reflexivity.
  - apply Forall_singleton. simpl. discriminate.
Defined.

Lemma stop_reports_listed_session_witness :
  let first := {| id := "ab12cd34"; status := "Running"; name := None |} in
  let second := {| id := "00ffee99"; status := "Running"; name := Some "db" |} in
  let execSync := fun command : string =>
    if String.eqb command "pueue status" then exec_returned "Group default"
    else if String.eqb command "pexpect-cli --list"
         then exec_returned ("ab12cd34: Running" +:+ LF +:+ "00ffee99: Running (db)")
         else if String.eqb command "pexpect-cli --stop 00ffee99"
              then exec_returned ""
              else exec_threw "Command failed" (Some "unknown option") in
  pexpect_stop trim (split (ascii_of_nat 10)) match_session_line "00ffee99" execSync
  = Returned (ok_result "Stopped session `00ffee99` (db)").
Proof.
  intros first second execSync.
  apply (stop_reports_listed_session [first] [] second "Group default" "" execSync).
  - repeat (apply Forall_cons; split; [|]); [| |constructor];
      (split_and!; try done; by repeat constructor).
  - reflexivity.
  - reflexivity.
  - apply Forall_singleton. simpl. discriminate.
  - reflexivity.
Defined.

Lemma pueue_down_fails_every_tool_witness :
  let execSync := fun _ : string => exec_threw "spawnSync /bin/sh ENOENT" None in
  pexpect_start (fun s => s) (Some "db") execSync
  = Returned (error_result
                "Failed to start session: pueue daemon is not running. Start it with: pueued -d")
  ∧ pexpect_exec (fun s => s) (fun s => [s]) (fun _ => None) "ab12cd34" "print(1)" None
      execSync terminates []
    = (Some (Returned (error_result
                "Execution failed: pueue daemon is not running. Start it with: pueued -d")),
       None)
  ∧ pexpect_stop (fun s => s) (fun s => [s]) (fun _ => None) "ab12cd34" execSync
    = Returned (error_result
                  "Failed to stop session: pueue daemon is not running. Start it with: pueued -d")
  ∧ pexpect_list (fun s => s) (fun s => [s]) (fun _ => None) execSync
    = Returned (error_result
                  "Failed to list sessions: pueue daemon is not running. Start it with: pueued -d").
Proof.
  intros execSync.
  exact (pueue_down_fails_every_tool (fun s => s) (fun s => [s]) (fun _ => None) execSync
           "spawnSync /bin/sh ENOENT" None (Some "db") "ab12cd34" "print(1)" None
           terminates [] eq_refl).
Defined.

End PexpectToolFacts.
